(** * The RSocket binary framing codec of rsocket-core

    A shallow embedding of

    - [packages/rsocket-core/src/RSocketBufferUtils.js]
      ([readUint24], [writeUint24]),
    - [RSocketEncoding.js] (the [Encoder] and [Encoders] types,
      [UTF8Encoder], [BufferEncoder], [Utf8Encoders], [BufferEncoders]),
    - the binary framing module ([deserializeFrame], [serializeFrame],
      [deserializeFrames], [serializeFrameWithLength] and the per-frame
      readers and writers),
    - [RSocketSerialization.js] ([JsonSerializer.deserialize]),

    followed by the properties of the codec.

    Conventions.  JavaScript numbers are modelled by [Z]: only integers
    occur in the codec, and the 32-bit coercions of the bitwise operators
    are written out ([ToInt32], [ToUint32]).  Code that throws returns a
    [result]; code that mutates a buffer or a frame object returns the new
    buffer or frame.  A buffer is a view (offset, limit) of a backing store
    that [slice] shares with the buffer it is taken from. *)

From Stdlib Require Import ZArith List Lia Bool.
From Stdlib Require Import Strings.Byte.
Import ListNotations.

Local Open Scope Z_scope.

(** ** Exceptions *)

(** [InvariantViolation] is the error of fbjs' [invariant(cond, msg)];
    [RangeError] and [TypeError] are the errors the buffer library throws. *)
Inductive exn : Type :=
| InvariantViolation
| RangeError
| TypeError.

Inductive result (A : Type) : Type :=
| Ok (a : A)
| Throw (e : exn).

Arguments Ok {A} a.
Arguments Throw {A} e.

Definition bind {A B : Type} (c : result A) (k : A -> result B) : result B :=
  match c with
  | Ok a => k a
  | Throw e => Throw e
  end.

Notation "x <- c ;; k" := (bind c (fun x => k))
  (at level 61, c at next level, right associativity).
Notation "' p <- c ;; k" := (bind c (fun x => let 'p := x in k))
  (at level 61, p pattern, c at next level, right associativity).

(** [invariant(condition, ...)] of fbjs: throws when the condition is false. *)
Definition invariant (condition : bool) : result unit :=
  if condition then Ok tt else Throw InvariantViolation.

(** ** JavaScript 32-bit integer operators *)

Definition ToUint32 (x : Z) : Z := x mod 2^32.
Definition ToInt32 (x : Z) : Z := (x + 2^31) mod 2^32 - 2^31.

(** [a << n], [a >>> n], [a | b], [a & b]. *)
Definition js_shl (a n : Z) : Z := ToInt32 (Z.shiftl (ToInt32 a) (n mod 32)).
Definition js_shru (a n : Z) : Z := Z.shiftr (ToUint32 a) (n mod 32).
Definition js_or (a b : Z) : Z := Z.lor (ToInt32 a) (ToInt32 b).
Definition js_and (a b : Z) : Z := Z.land (ToInt32 a) (ToInt32 b).

(** ** The buffer library

    [ByteBuffer] comes from the npm package [bytebuffer], which is not part
    of the repository.  A [ByteBuffer] has a backing store ([this.buffer]),
    an [offset] and a [limit].  The codec calls the readers and writers with
    explicit offsets only, and an explicit offset is an index into the
    backing store, whatever the [offset] of the buffer is; the assertions of
    the library compare it with the length of the store.  [Store] models
    the backing store, [ByteBuffer] the buffer with its two marks.
    Multi-byte values are big-endian, the library's default. *)
Module Store.

Definition t : Type := list byte.

(** [this.buffer.byteLength], the capacity. *)
Definition size (store : t) : Z := Z.of_nat (length store).

Definition byte_of_Z (value : Z) : byte :=
  match Byte.of_N (Z.to_N (value mod 256)) with
  | Some b => b
  | None => x00
  end.

Definition Z_of_byte (b : byte) : Z := Z.of_N (Byte.to_N b).

(** [this.view[i]] for an index inside the store. *)
Definition view (store : t) (i : Z) : Z :=
  Z_of_byte (nth (Z.to_nat i) store x00).

(** [this.view[n] = b] for an index inside the store. *)
Fixpoint poke (store : t) (n : nat) (b : byte) : t :=
  match store, n with
  | [], _ => []
  | _ :: rest, O => b :: rest
  | x :: rest, S n' => x :: poke rest n' b
  end.

Fixpoint pokes (store : t) (n : nat) (bs : list byte) : t :=
  match bs with
  | [] => store
  | b :: bs' => pokes (poke store n b) (S n) bs'
  end.

(** A fresh store of the given capacity, filled with zeros. *)
Definition allocate (capacity : Z) : result t :=
  if capacity <? 0 then Throw RangeError
  else Ok (repeat x00 (Z.to_nat capacity)).

(** The offset assertion of the readers: [size] bytes must be available. *)
Definition readable (store : t) (offset size : Z) : bool :=
  (0 <=? offset) && (offset + size <=? Store.size store).

(** The offset assertion of the writers: the offset may not lie past the
    end of the store. *)
Definition writable (store : t) (offset : Z) : bool :=
  (0 <=? offset) && (offset <=? size store).

Definition readUint8 (store : t) (offset : Z) : result Z :=
  if readable store offset 1 then Ok (view store offset)
  else Throw RangeError.

Definition readUint16 (store : t) (offset : Z) : result Z :=
  if readable store offset 2 then
    Ok (js_or (js_shl (view store offset) 8) (view store (offset + 1)))
  else Throw RangeError.

Definition readInt16 (store : t) (offset : Z) : result Z :=
  if readable store offset 2 then
    let value :=
      js_or (js_shl (view store offset) 8) (view store (offset + 1)) in
    Ok (if js_and value 0x8000 =? 0x8000
        then - (0xFFFF - value + 1) else value)
  else Throw RangeError.

Definition readUint32 (store : t) (offset : Z) : result Z :=
  if readable store offset 4 then
    let value := js_shl (view store (offset + 1)) 16 in
    let value := js_or value (js_shl (view store (offset + 2)) 8) in
    let value := js_or value (view store (offset + 3)) in
    Ok (value + js_shru (js_shl (view store offset) 24) 0)
  else Throw RangeError.

Definition readInt32 (store : t) (offset : Z) : result Z :=
  value <- readUint32 store offset ;;
  Ok (js_or value 0).

(** [Long.toNumber()] of an unsigned 64-bit value [x]: the high word times
    2^32 plus the low word, computed in double precision, that is the
    double nearest to [x], the even one of two that are as near.  It is [x]
    itself below 2^53. *)
Definition toNumber (x : Z) : Z :=
  if x <? 2^53 then x
  else
    let ulp := 2 ^ (Z.log2 x - 52) in
    let q := x / ulp in
    let r := x mod ulp in
    if 2 * r <? ulp then q * ulp
    else if ulp <? 2 * r then (q + 1) * ulp
    else if Z.even q then q * ulp
    else (q + 1) * ulp.

(** [buffer.readUint64(offset).toNumber()]. *)
Definition readUint64 (store : t) (offset : Z) : result Z :=
  if readable store offset 8 then
    hi <- readUint32 store offset ;;
    lo <- readUint32 store (offset + 4) ;;
    Ok (toNumber (hi * 2^32 + lo))
  else Throw RangeError.

Definition be16 (value : Z) : list byte :=
  [byte_of_Z (Z.shiftr value 8); byte_of_Z value].

Definition be32 (value : Z) : list byte :=
  [byte_of_Z (Z.shiftr value 24); byte_of_Z (Z.shiftr value 16);
   byte_of_Z (Z.shiftr value 8); byte_of_Z value].

Definition be64 (value : Z) : list byte :=
  be32 (Z.shiftr value 32) ++ be32 value.

(** [this.resize(...)] as the writers call it when the bytes to store end
    past the capacity: the capacity is doubled, or set to the end of the
    write when that is more; the new bytes are zeros. *)
Definition ensureCapacity (store : t) (capacity : Z) : t :=
  if size store <? capacity then
    store ++ repeat x00 (Z.to_nat (Z.max (2 * size store) capacity
                                   - size store))
  else store.

(** Store the bytes [bs] from [offset] on. *)
Definition write (store : t) (offset : Z) (bs : list byte) : result t :=
  if writable store offset then
    Ok (pokes (ensureCapacity store (offset + size bs)) (Z.to_nat offset) bs)
  else Throw RangeError.

(** The writers coerce the value ([value >>>= 0], [value |= 0]) and store
    its low bytes; a value outside the field's range wraps around. *)
Definition writeUint8 (store : t) (value offset : Z) : result t :=
  write store offset [byte_of_Z value].

Definition writeUint16 (store : t) (value offset : Z) : result t :=
  write store offset (be16 value).

Definition writeUint32 (store : t) (value offset : Z) : result t :=
  write store offset (be32 value).

Definition writeInt32 (store : t) (value offset : Z) : result t :=
  write store offset (be32 value).

(** [Long.fromNumber(value)]: a signed 64-bit value, saturating. *)
Definition Long_fromNumber (value : Z) : Z :=
  if value <=? - 2^63 then - 2^63
  else if 2^63 <=? value + 1 then 2^63 - 1
  else value.

Definition writeUint64 (store : t) (value offset : Z) : result t :=
  let long := Long_fromNumber value in
  write store offset (be64 long).

(** The bytes of the store from [begin] up to [end_]. *)
Definition slice (store : t) (begin end_ : Z) : result t :=
  if (0 <=? begin) && (begin <=? end_) && (end_ <=? size store) then
    Ok (firstn (Z.to_nat (end_ - begin)) (skipn (Z.to_nat begin) store))
  else Throw RangeError.

(** The copy of [source.copyTo(target, targetOffset, sourceOffset,
    sourceLimit)], on the two stores; the result is the target's. *)
Definition copyTo (source target : t)
    (targetOffset sourceOffset sourceLimit : Z) : result t :=
  if (targetOffset <? 0) || (size target <? targetOffset) then
    Throw RangeError
  else if (sourceOffset <? 0) || (size source <? sourceLimit) then
    Throw RangeError
  else
    let len := sourceLimit - sourceOffset in
    Ok (pokes (ensureCapacity target (targetOffset + len))
          (Z.to_nat targetOffset)
          (firstn (Z.to_nat len) (skipn (Z.to_nat sourceOffset) source))).

(** *** UTF-8

    A JavaScript string is modelled by the list of its code points; the
    treatment of unpaired surrogates on the way to bytes is outside the
    model. *)
Definition JSString : Type := list Z.

(** The number of bytes of the UTF-8 form of a code point. *)
Definition calculateCodePoint (cp : Z) : Z :=
  if cp <? 0x80 then 1
  else if cp <? 0x800 then 2
  else if cp <? 0x10000 then 3
  else 4.

(** [ByteBuffer.calculateUTF8Bytes(str)]. *)
Fixpoint calculateUTF8Bytes (str : JSString) : Z :=
  match str with
  | [] => 0
  | cp :: rest => calculateCodePoint cp + calculateUTF8Bytes rest
  end.

(** The UTF-8 form of one code point. *)
Definition encodeCodePoint (cp : Z) : list byte :=
  if cp <? 0x80 then
    [byte_of_Z (Z.land cp 0x7F)]
  else if cp <? 0x800 then
    [byte_of_Z (Z.lor (Z.land (Z.shiftr cp 6) 0x1F) 0xC0);
     byte_of_Z (Z.lor (Z.land cp 0x3F) 0x80)]
  else if cp <? 0x10000 then
    [byte_of_Z (Z.lor (Z.land (Z.shiftr cp 12) 0x0F) 0xE0);
     byte_of_Z (Z.lor (Z.land (Z.shiftr cp 6) 0x3F) 0x80);
     byte_of_Z (Z.lor (Z.land cp 0x3F) 0x80)]
  else
    [byte_of_Z (Z.lor (Z.land (Z.shiftr cp 18) 0x07) 0xF0);
     byte_of_Z (Z.lor (Z.land (Z.shiftr cp 12) 0x3F) 0x80);
     byte_of_Z (Z.lor (Z.land (Z.shiftr cp 6) 0x3F) 0x80);
     byte_of_Z (Z.lor (Z.land cp 0x3F) 0x80)].

Fixpoint encodeUTF8 (str : JSString) : list byte :=
  match str with
  | [] => []
  | cp :: rest => encodeCodePoint cp ++ encodeUTF8 rest
  end.

(** The replacement character that stands for ill-formed bytes. *)
Definition REPLACEMENT : Z := 0xFFFD.

(** Decoding never fails: it is the UTF-8 decoder of the Encoding Standard,
    which [toString('utf8')] follows.  [needed] continuation bytes are
    awaited for the code point [cp], the next of them between [lower] and
    [upper]; a byte that cannot continue the sequence ends it with a
    replacement character and is looked at again as a first byte. *)
Fixpoint decodeUTF8_from (bs : list byte) (cp needed lower upper : Z)
  : JSString :=
  match bs with
  | [] => if needed =? 0 then [] else [REPLACEMENT]
  | b :: rest =>
      let b := Z_of_byte b in
      let first :=
        if b <=? 0x7F then b :: decodeUTF8_from rest 0 0 0x80 0xBF
        else if (0xC2 <=? b) && (b <=? 0xDF) then
          decodeUTF8_from rest (Z.land b 0x1F) 1 0x80 0xBF
        else if (0xE0 <=? b) && (b <=? 0xEF) then
          decodeUTF8_from rest (Z.land b 0x0F) 2
            (if b =? 0xE0 then 0xA0 else 0x80)
            (if b =? 0xED then 0x9F else 0xBF)
        else if (0xF0 <=? b) && (b <=? 0xF4) then
          decodeUTF8_from rest (Z.land b 0x07) 3
            (if b =? 0xF0 then 0x90 else 0x80)
            (if b =? 0xF4 then 0x8F else 0xBF)
        else REPLACEMENT :: decodeUTF8_from rest 0 0 0x80 0xBF in
      if needed =? 0 then first
      else if (b <? lower) || (upper <? b) then REPLACEMENT :: first
      else
        let cp := Z.lor (Z.shiftl cp 6) (Z.land b 0x3F) in
        if needed =? 1 then cp :: decodeUTF8_from rest 0 0 0x80 0xBF
        else decodeUTF8_from rest cp (needed - 1) 0x80 0xBF
  end.

Definition decodeUTF8 (bs : list byte) : JSString :=
  decodeUTF8_from bs 0 0 0x80 0xBF.

End Store.

Import Store.

Module ByteBuffer.

Record t : Type := {
  store : Store.t;
  offset : Z;
  limit : Z
}.

(** [this.buffer.byteLength]. *)
Definition capacity (buffer : t) : Z := size (store buffer).

(** The buffer after a write: the marks stay. *)
Definition with_store (buffer : t) (store : Store.t) : t :=
  {| store := store; offset := offset buffer; limit := limit buffer |}.

(** [ByteBuffer.wrap(data)]: a buffer over the bytes, from the first to the
    last. *)
Definition wrap (data : list byte) : t :=
  {| store := data; offset := 0; limit := size data |}.

(** [ByteBuffer.allocate(capacity)]. *)
Definition allocate (capacity : Z) : result t :=
  store <- Store.allocate capacity ;;
  Ok (wrap store).

Definition readUint8 (buffer : t) (offset : Z) : result Z :=
  Store.readUint8 (store buffer) offset.

Definition readUint16 (buffer : t) (offset : Z) : result Z :=
  Store.readUint16 (store buffer) offset.

Definition readInt16 (buffer : t) (offset : Z) : result Z :=
  Store.readInt16 (store buffer) offset.

Definition readUint32 (buffer : t) (offset : Z) : result Z :=
  Store.readUint32 (store buffer) offset.

Definition readInt32 (buffer : t) (offset : Z) : result Z :=
  Store.readInt32 (store buffer) offset.

Definition readUint64 (buffer : t) (offset : Z) : result Z :=
  Store.readUint64 (store buffer) offset.

(** Store bytes at an explicit offset. *)
Definition write (buffer : t) (offset : Z) (bs : list byte) : result t :=
  store <- Store.write (store buffer) offset bs ;;
  Ok (with_store buffer store).

Definition writeUint8 (buffer : t) (value offset : Z) : result t :=
  store <- Store.writeUint8 (store buffer) value offset ;;
  Ok (with_store buffer store).

Definition writeUint16 (buffer : t) (value offset : Z) : result t :=
  store <- Store.writeUint16 (store buffer) value offset ;;
  Ok (with_store buffer store).

Definition writeUint32 (buffer : t) (value offset : Z) : result t :=
  store <- Store.writeUint32 (store buffer) value offset ;;
  Ok (with_store buffer store).

Definition writeInt32 (buffer : t) (value offset : Z) : result t :=
  store <- Store.writeInt32 (store buffer) value offset ;;
  Ok (with_store buffer store).

Definition writeUint64 (buffer : t) (value offset : Z) : result t :=
  store <- Store.writeUint64 (store buffer) value offset ;;
  Ok (with_store buffer store).

(** [buffer.slice(begin, end)]: a buffer on the same store, with [begin]
    and [end] as its offset and limit. *)
Definition slice (buffer : t) (begin end_ : Z) : result t :=
  if (0 <=? begin) && (begin <=? end_) && (end_ <=? capacity buffer) then
    Ok {| store := store buffer; offset := begin; limit := end_ |}
  else Throw RangeError.

(** [source.copyTo(target, targetOffset, sourceOffset, sourceLimit)];
    the result is the target. *)
Definition copyTo (source target : t)
    (targetOffset sourceOffset sourceLimit : Z) : result t :=
  store <- Store.copyTo (store source) (store target) targetOffset
             sourceOffset sourceLimit ;;
  Ok (with_store target store).

Definition calculateUTF8Bytes (str : JSString) : Z :=
  Store.calculateUTF8Bytes str.

(** [buffer.writeUTF8String(str, offset)] with an explicit offset: the
    buffer after the write and the number of bytes written. *)
Definition writeUTF8String (buffer : t) (str : JSString) (offset : Z)
  : result (t * Z) :=
  let start := offset in
  buffer' <- write buffer offset (encodeUTF8 str) ;;
  let offset := offset + size (encodeUTF8 str) in
  Ok (buffer', offset - start).

(** [buffer.toUTF8()]: the string of the bytes from the offset to the
    limit. *)
Definition toUTF8 (buffer : t) : result JSString :=
  bytes <- Store.slice (store buffer) (offset buffer) (limit buffer) ;;
  Ok (decodeUTF8 bytes).

End ByteBuffer.

(** ** RSocketBufferUtils.js *)

(** Read a uint24 from a buffer starting at the given offset. *)
Definition readUint24 (buffer : ByteBuffer.t) (offset : Z) : result Z :=
  b1 <- ByteBuffer.readUint8 buffer offset ;;
  let val1 := js_shl b1 16 in
  b2 <- ByteBuffer.readUint8 buffer (offset + 1) ;;
  let val2 := js_shl b2 8 in
  val3 <- ByteBuffer.readUint8 buffer (offset + 2) ;;
  Ok (js_or (js_or val1 val2) val3).

(** Writes a uint24 to a buffer starting at the given offset. *)
Definition writeUint24 (buffer : ByteBuffer.t) (value offset : Z)
  : result ByteBuffer.t :=
  buffer <- ByteBuffer.writeUint8 buffer (js_shru value 16) offset ;;
  buffer <- ByteBuffer.writeUint8 buffer (js_and (js_shru value 8) 0xff)
              (offset + 1) ;;
  buffer <- ByteBuffer.writeUint8 buffer (js_and value 0xff) (offset + 2) ;;
  Ok buffer.

(** ** RSocketFrame.js *)

(** Modelled from the spec: RSocketFrame.js is not among the sources.  The
    frame type numbers are those of the data model (section 3.1), the
    sizes and masks those of section 6.4; the METADATA flag is bit 0x100
    of the flags, its position in the RSocket wire format that section 6.3
    requires. *)
Module FRAME_TYPES.
Definition SETUP : Z := 0x01.
Definition LEASE : Z := 0x02.
Definition KEEPALIVE : Z := 0x03.
Definition REQUEST_RESPONSE : Z := 0x04.
Definition REQUEST_FNF : Z := 0x05.
Definition REQUEST_STREAM : Z := 0x06.
Definition REQUEST_CHANNEL : Z := 0x07.
Definition REQUEST_N : Z := 0x08.
Definition CANCEL : Z := 0x09.
Definition PAYLOAD : Z := 0x0A.
Definition ERROR : Z := 0x0B.
End FRAME_TYPES.

Module FLAGS.
Definition METADATA : Z := 0x100.
End FLAGS.

Definition FLAGS_MASK : Z := 0x3FF.
Definition FRAME_TYPE_OFFFSET : Z := 10.
Definition MAX_CODE : Z := 0x7FFFFFFF.
Definition MAX_KEEPALIVE : Z := 0x7FFFFFFF.
Definition MAX_LIFETIME : Z := 0x7FFFFFFF.
Definition MAX_RESUME_LENGTH : Z := 0xFFFF.

Definition isMetadata (flags : Z) : bool :=
  js_and flags FLAGS.METADATA =? FLAGS.METADATA.

(** ** RSocketEncoding.js *)

(** Modelled from the spec: RSocketTypes.js is not among the sources.  An
    [Encodable] is a string, a buffer or a [Uint8Array] (the three kinds
    the identity serializer accepts). *)
Inductive Encodable : Type :=
| EString (s : JSString)
| EByteBuffer (b : ByteBuffer.t)
| EUint8Array (a : list byte).

Module Encoder.
Record t : Type := {
  byteLength : Encodable -> result Z;
  encode : Encodable -> ByteBuffer.t -> Z -> result (ByteBuffer.t * Z);
  decode : ByteBuffer.t -> Z -> Z -> result Encodable
}.
End Encoder.

Module Encoders.
Record t : Type := {
  data : Encoder.t;
  dataMimeType : Encoder.t;
  message : Encoder.t;
  metadata : Encoder.t;
  metadataMimeType : Encoder.t;
  resumeToken : Encoder.t
}.
End Encoders.

Definition UTF8Encoder : Encoder.t := {|
  Encoder.byteLength := fun value =>
    match value with
    | EString s => Ok (ByteBuffer.calculateUTF8Bytes s)
    | _ => Throw InvariantViolation
    end;
  Encoder.decode := fun buffer start end_ =>
    window <- ByteBuffer.slice buffer start end_ ;;
    s <- ByteBuffer.toUTF8 window ;;
    Ok (EString s);
  Encoder.encode := fun value buffer offset =>
    match value with
    | EString s =>
        '(buffer, length) <- ByteBuffer.writeUTF8String buffer s offset ;;
        Ok (buffer, offset + length)
    | _ => Throw InvariantViolation
    end
|}.

Definition BufferEncoder : Encoder.t := {|
  Encoder.byteLength := fun value =>
    match value with
    | EByteBuffer b => Ok (ByteBuffer.limit b)
    | _ => Throw InvariantViolation
    end;
  Encoder.decode := fun buffer start end_ =>
    window <- ByteBuffer.slice buffer start end_ ;;
    Ok (EByteBuffer window);
  Encoder.encode := fun value buffer offset =>
    match value with
    | EByteBuffer b =>
        buffer <- ByteBuffer.copyTo b buffer offset 0 (ByteBuffer.limit b) ;;
        Ok (buffer, offset + ByteBuffer.limit b)
    | _ => Throw InvariantViolation
    end
|}.

(** Encode all values as UTF8 strings. *)
Definition Utf8Encoders : Encoders.t := {|
  Encoders.data := UTF8Encoder;
  Encoders.dataMimeType := UTF8Encoder;
  Encoders.message := UTF8Encoder;
  Encoders.metadata := UTF8Encoder;
  Encoders.metadataMimeType := UTF8Encoder;
  Encoders.resumeToken := UTF8Encoder
|}.

(** Encode all values as buffers. *)
Definition BufferEncoders : Encoders.t := {|
  Encoders.data := BufferEncoder;
  Encoders.dataMimeType := UTF8Encoder;
  Encoders.message := UTF8Encoder;
  Encoders.metadata := BufferEncoder;
  Encoders.metadataMimeType := UTF8Encoder;
  Encoders.resumeToken := BufferEncoder
|}.

(** ** Frames *)

(** Modelled from the spec: RSocketTypes.js is not among the sources.  A
    frame is a tagged variant with one case per frame kind (section 3.1),
    each with the fields the reader of that kind puts into its object
    literal, in the order of the literal; [UnsupportedFrame] stands for a
    frame object with any other type tag.  Optional fields are [option]s:
    [None] is [null]. *)
Inductive Frame : Type :=
| SetupFrame (data dataMimeType : option Encodable)
    (flags keepAlive lifetime majorVersion : Z)
    (metadata metadataMimeType : option Encodable) (minorVersion : Z)
    (resumeToken : option Encodable) (streamId : Z)
| ErrorFrame (code flags : Z) (message : option Encodable) (streamId : Z)
| KeepAliveFrame (data : option Encodable)
    (flags lastReceivedPosition streamId : Z)
| LeaseFrame (flags : Z) (metadata : option Encodable)
    (requestCount streamId ttl : Z)
| RequestFnfFrame (data : option Encodable) (flags : Z)
    (metadata : option Encodable) (streamId : Z)
| RequestResponseFrame (data : option Encodable) (flags : Z)
    (metadata : option Encodable) (streamId : Z)
| RequestStreamFrame (data : option Encodable) (flags : Z)
    (metadata : option Encodable) (requestN streamId : Z)
| RequestChannelFrame (data : option Encodable) (flags : Z)
    (metadata : option Encodable) (requestN streamId : Z)
| RequestNFrame (flags requestN streamId : Z)
| CancelFrame (flags streamId : Z)
| PayloadFrame (data : option Encodable) (flags : Z)
    (metadata : option Encodable) (streamId : Z)
| UnsupportedFrame (flags streamId type : Z).

(** Field access [frame.field].  A field the frame does not have reads as
    [undefined]: [None] here, which [!= null] treats like [null]. *)
Module Field.

Definition type (frame : Frame) : Z :=
  match frame with
  | SetupFrame _ _ _ _ _ _ _ _ _ _ _ => FRAME_TYPES.SETUP
  | ErrorFrame _ _ _ _ => FRAME_TYPES.ERROR
  | KeepAliveFrame _ _ _ _ => FRAME_TYPES.KEEPALIVE
  | LeaseFrame _ _ _ _ _ => FRAME_TYPES.LEASE
  | RequestFnfFrame _ _ _ _ => FRAME_TYPES.REQUEST_FNF
  | RequestResponseFrame _ _ _ _ => FRAME_TYPES.REQUEST_RESPONSE
  | RequestStreamFrame _ _ _ _ _ => FRAME_TYPES.REQUEST_STREAM
  | RequestChannelFrame _ _ _ _ _ => FRAME_TYPES.REQUEST_CHANNEL
  | RequestNFrame _ _ _ => FRAME_TYPES.REQUEST_N
  | CancelFrame _ _ => FRAME_TYPES.CANCEL
  | PayloadFrame _ _ _ _ => FRAME_TYPES.PAYLOAD
  | UnsupportedFrame _ _ type => type
  end.

Definition streamId (frame : Frame) : Z :=
  match frame with
  | SetupFrame _ _ _ _ _ _ _ _ _ _ streamId
  | ErrorFrame _ _ _ streamId
  | KeepAliveFrame _ _ _ streamId
  | LeaseFrame _ _ _ streamId _
  | RequestFnfFrame _ _ _ streamId
  | RequestResponseFrame _ _ _ streamId
  | RequestStreamFrame _ _ _ _ streamId
  | RequestChannelFrame _ _ _ _ streamId
  | RequestNFrame _ _ streamId
  | CancelFrame _ streamId
  | PayloadFrame _ _ _ streamId
  | UnsupportedFrame _ streamId _ => streamId
  end.

Definition flags (frame : Frame) : Z :=
  match frame with
  | SetupFrame _ _ flags _ _ _ _ _ _ _ _
  | ErrorFrame _ flags _ _
  | KeepAliveFrame _ flags _ _
  | LeaseFrame flags _ _ _ _
  | RequestFnfFrame _ flags _ _
  | RequestResponseFrame _ flags _ _
  | RequestStreamFrame _ flags _ _ _
  | RequestChannelFrame _ flags _ _ _
  | RequestNFrame flags _ _
  | CancelFrame flags _
  | PayloadFrame _ flags _ _
  | UnsupportedFrame flags _ _ => flags
  end.

Definition data (frame : Frame) : option Encodable :=
  match frame with
  | SetupFrame data _ _ _ _ _ _ _ _ _ _
  | KeepAliveFrame data _ _ _
  | RequestFnfFrame data _ _ _
  | RequestResponseFrame data _ _ _
  | RequestStreamFrame data _ _ _ _
  | RequestChannelFrame data _ _ _ _
  | PayloadFrame data _ _ _ => data
  | _ => None
  end.

Definition metadata (frame : Frame) : option Encodable :=
  match frame with
  | SetupFrame _ _ _ _ _ _ metadata _ _ _ _
  | LeaseFrame _ metadata _ _ _
  | RequestFnfFrame _ _ metadata _
  | RequestResponseFrame _ _ metadata _
  | RequestStreamFrame _ _ metadata _ _
  | RequestChannelFrame _ _ metadata _ _
  | PayloadFrame _ _ metadata _ => metadata
  | _ => None
  end.

Definition resumeToken (frame : Frame) : option Encodable :=
  match frame with
  | SetupFrame _ _ _ _ _ _ _ _ _ resumeToken _ => resumeToken
  | _ => None
  end.

Definition metadataMimeType (frame : Frame) : option Encodable :=
  match frame with
  | SetupFrame _ _ _ _ _ _ _ metadataMimeType _ _ _ => metadataMimeType
  | _ => None
  end.

Definition dataMimeType (frame : Frame) : option Encodable :=
  match frame with
  | SetupFrame _ dataMimeType _ _ _ _ _ _ _ _ _ => dataMimeType
  | _ => None
  end.

Definition message (frame : Frame) : option Encodable :=
  match frame with
  | ErrorFrame _ _ message _ => message
  | _ => None
  end.

Definition majorVersion (frame : Frame) : option Z :=
  match frame with
  | SetupFrame _ _ _ _ _ majorVersion _ _ _ _ _ => Some majorVersion
  | _ => None
  end.

Definition minorVersion (frame : Frame) : option Z :=
  match frame with
  | SetupFrame _ _ _ _ _ _ _ _ minorVersion _ _ => Some minorVersion
  | _ => None
  end.

Definition keepAlive (frame : Frame) : option Z :=
  match frame with
  | SetupFrame _ _ _ keepAlive _ _ _ _ _ _ _ => Some keepAlive
  | _ => None
  end.

Definition lifetime (frame : Frame) : option Z :=
  match frame with
  | SetupFrame _ _ _ _ lifetime _ _ _ _ _ _ => Some lifetime
  | _ => None
  end.

Definition code (frame : Frame) : option Z :=
  match frame with
  | ErrorFrame code _ _ _ => Some code
  | _ => None
  end.

Definition lastReceivedPosition (frame : Frame) : option Z :=
  match frame with
  | KeepAliveFrame _ _ lastReceivedPosition _ => Some lastReceivedPosition
  | _ => None
  end.

Definition ttl (frame : Frame) : option Z :=
  match frame with
  | LeaseFrame _ _ _ _ ttl => Some ttl
  | _ => None
  end.

Definition requestCount (frame : Frame) : option Z :=
  match frame with
  | LeaseFrame _ _ requestCount _ _ => Some requestCount
  | _ => None
  end.

Definition requestN (frame : Frame) : option Z :=
  match frame with
  | RequestStreamFrame _ _ _ requestN _
  | RequestChannelFrame _ _ _ requestN _
  | RequestNFrame _ requestN _ => Some requestN
  | _ => None
  end.

(** [frame.metadata = value] and [frame.data = value], on the frame kinds
    that [readPayload] is applied to. *)
Definition set_metadata (frame : Frame) (value : Encodable) : Frame :=
  match frame with
  | SetupFrame d dm f ka lt maj _ mm min rt sid =>
      SetupFrame d dm f ka lt maj (Some value) mm min rt sid
  | RequestFnfFrame d f _ sid => RequestFnfFrame d f (Some value) sid
  | RequestResponseFrame d f _ sid =>
      RequestResponseFrame d f (Some value) sid
  | RequestStreamFrame d f _ n sid =>
      RequestStreamFrame d f (Some value) n sid
  | RequestChannelFrame d f _ n sid =>
      RequestChannelFrame d f (Some value) n sid
  | PayloadFrame d f _ sid => PayloadFrame d f (Some value) sid
  | _ => frame
  end.

Definition set_data (frame : Frame) (value : Encodable) : Frame :=
  match frame with
  | SetupFrame _ dm f ka lt maj m mm min rt sid =>
      SetupFrame (Some value) dm f ka lt maj m mm min rt sid
  | RequestFnfFrame _ f m sid => RequestFnfFrame (Some value) f m sid
  | RequestResponseFrame _ f m sid =>
      RequestResponseFrame (Some value) f m sid
  | RequestStreamFrame _ f m n sid =>
      RequestStreamFrame (Some value) f m n sid
  | RequestChannelFrame _ f m n sid =>
      RequestChannelFrame (Some value) f m n sid
  | PayloadFrame _ f m sid => PayloadFrame (Some value) f m sid
  | _ => frame
  end.

(** A numeric field handed to one of the buffer's integer writers: the
    writer throws a [TypeError] on [undefined]. *)
Definition number (field : option Z) : result Z :=
  match field with
  | Some value => Ok value
  | None => Throw TypeError
  end.

End Field.

(** ** The binary framing module *)

(** Frame header is: stream id (uint32 = 4), type + flags (uint16 = 2). *)
Definition FRAME_HEADER_SIZE : Z := 6.

(** Size of frame length and metadata length fields. *)
Definition UINT24_SIZE : Z := 3.

(** Write the header of the frame into the buffer. *)
Definition writeHeader (frame : Frame) (buffer : ByteBuffer.t)
  : result (ByteBuffer.t * Z) :=
  buffer <- ByteBuffer.writeInt32 buffer (Field.streamId frame) 0 ;;
  buffer <- ByteBuffer.writeUint16 buffer
              (js_or (js_shl (Field.type frame) FRAME_TYPE_OFFFSET)
                     (js_and (Field.flags frame) FLAGS_MASK))
              4 ;;
  Ok (buffer, FRAME_HEADER_SIZE).

(** Determine the length of the payload section of a frame. *)
Definition getPayloadLength (frame : Frame) (encoders : Encoders.t)
  : result Z :=
  let payloadLength := 0 in
  payloadLength <-
    match Field.data frame with
    | Some data =>
        n <- Encoder.byteLength (Encoders.data encoders) data ;;
        Ok (payloadLength + n)
    | None => Ok payloadLength
    end ;;
  if isMetadata (Field.flags frame) then
    let payloadLength := payloadLength + UINT24_SIZE in
    match Field.metadata frame with
    | Some metadata =>
        n <- Encoder.byteLength (Encoders.metadata encoders) metadata ;;
        Ok (payloadLength + n)
    | None => Ok payloadLength
    end
  else Ok payloadLength.

(** Write the payload of a frame into the given buffer. *)
Definition writePayload (frame : Frame) (buffer : ByteBuffer.t)
    (encoders : Encoders.t) (offset : Z) : result ByteBuffer.t :=
  '(buffer, offset) <-
    (if isMetadata (Field.flags frame) then
       match Field.metadata frame with
       | Some metadata =>
           metaLength <-
             Encoder.byteLength (Encoders.metadata encoders) metadata ;;
           buffer <- writeUint24 buffer metaLength offset ;;
           let offset := offset + UINT24_SIZE in
           Encoder.encode (Encoders.metadata encoders) metadata buffer offset
       | None =>
           buffer <- writeUint24 buffer 0 offset ;;
           Ok (buffer, offset + UINT24_SIZE)
       end
     else Ok (buffer, offset)) ;;
  match Field.data frame with
  | Some data =>
      '(buffer, _) <-
        Encoder.encode (Encoders.data encoders) data buffer offset ;;
      Ok buffer
  | None => Ok buffer
  end.

(** Read the payload from a buffer and write it into the frame. *)
Definition readPayload (buffer : ByteBuffer.t) (frame : Frame)
    (encoders : Encoders.t) (offset : Z) : result Frame :=
  '(frame, offset) <-
    (if isMetadata (Field.flags frame) then
       metaLength <- readUint24 buffer offset ;;
       let offset := offset + UINT24_SIZE in
       if 0 <? metaLength then
         metadata <-
           Encoder.decode (Encoders.metadata encoders) buffer offset
             (offset + metaLength) ;;
         Ok (Field.set_metadata frame metadata, offset + metaLength)
       else Ok (frame, offset)
     else Ok (frame, offset)) ;;
  if offset <? ByteBuffer.limit buffer then
    data <-
      Encoder.decode (Encoders.data encoders) buffer offset
        (ByteBuffer.limit buffer) ;;
    Ok (Field.set_data frame data)
  else Ok frame.

(** *** SETUP *)

Definition SETUP_FIXED_SIZE : Z := 16.

Definition serializeSetupFrame (frame : Frame) (encoders : Encoders.t)
  : result ByteBuffer.t :=
  resumeTokenLength <-
    match Field.resumeToken frame with
    | Some v => Encoder.byteLength (Encoders.resumeToken encoders) v
    | None => Ok 0
    end ;;
  metadataMimeTypeLength <-
    match Field.metadataMimeType frame with
    | Some v => Encoder.byteLength (Encoders.metadataMimeType encoders) v
    | None => Ok 0
    end ;;
  dataMimeTypeLength <-
    match Field.dataMimeType frame with
    | Some v => Encoder.byteLength (Encoders.dataMimeType encoders) v
    | None => Ok 0
    end ;;
  payloadLength <- getPayloadLength frame encoders ;;
  buffer <- ByteBuffer.allocate (FRAME_HEADER_SIZE + SETUP_FIXED_SIZE
                      + resumeTokenLength + metadataMimeTypeLength
                      + dataMimeTypeLength + payloadLength) ;;
  '(buffer, offset) <- writeHeader frame buffer ;;
  majorVersion <- Field.number (Field.majorVersion frame) ;;
  buffer <- ByteBuffer.writeUint16 buffer majorVersion offset ;;
  let offset := offset + 2 in
  minorVersion <- Field.number (Field.minorVersion frame) ;;
  buffer <- ByteBuffer.writeUint16 buffer minorVersion offset ;;
  let offset := offset + 2 in
  keepAlive <- Field.number (Field.keepAlive frame) ;;
  buffer <- ByteBuffer.writeUint32 buffer keepAlive offset ;;
  let offset := offset + 4 in
  lifetime <- Field.number (Field.lifetime frame) ;;
  buffer <- ByteBuffer.writeUint32 buffer lifetime offset ;;
  let offset := offset + 4 in
  buffer <- ByteBuffer.writeUint16 buffer resumeTokenLength offset ;;
  let offset := offset + 2 in
  '(buffer, offset) <-
    match Field.resumeToken frame with
    | Some v =>
        Encoder.encode (Encoders.resumeToken encoders) v buffer offset
    | None => Ok (buffer, offset)
    end ;;
  buffer <- ByteBuffer.writeUint8 buffer metadataMimeTypeLength offset ;;
  let offset := offset + 1 in
  '(buffer, offset) <-
    match Field.metadataMimeType frame with
    | Some v =>
        Encoder.encode (Encoders.metadataMimeType encoders) v buffer offset
    | None => Ok (buffer, offset)
    end ;;
  buffer <- ByteBuffer.writeUint8 buffer dataMimeTypeLength offset ;;
  let offset := offset + 1 in
  '(buffer, offset) <-
    match Field.dataMimeType frame with
    | Some v =>
        Encoder.encode (Encoders.dataMimeType encoders) v buffer offset
    | None => Ok (buffer, offset)
    end ;;
  writePayload frame buffer encoders offset.

Definition deserializeSetupFrame (buffer : ByteBuffer.t)
    (streamId flags : Z) (encoders : Encoders.t) : result Frame :=
  _ <- invariant (streamId =? 0) ;;
  let offset := FRAME_HEADER_SIZE in
  majorVersion <- ByteBuffer.readUint16 buffer offset ;;
  let offset := offset + 2 in
  minorVersion <- ByteBuffer.readUint16 buffer offset ;;
  let offset := offset + 2 in
  keepAlive <- ByteBuffer.readInt32 buffer offset ;;
  let offset := offset + 4 in
  _ <- invariant ((0 <=? keepAlive) && (keepAlive <=? MAX_KEEPALIVE)) ;;
  lifetime <- ByteBuffer.readInt32 buffer offset ;;
  let offset := offset + 4 in
  _ <- invariant ((0 <=? lifetime) && (lifetime <=? MAX_LIFETIME)) ;;
  resumeTokenLength <- ByteBuffer.readInt16 buffer offset ;;
  let offset := offset + 2 in
  _ <- invariant ((0 <=? resumeTokenLength)
                  && (resumeTokenLength <=? MAX_RESUME_LENGTH)) ;;
  resumeToken <-
    Encoder.decode (Encoders.resumeToken encoders) buffer offset
      (offset + resumeTokenLength) ;;
  let offset := offset + resumeTokenLength in
  metadataMimeTypeLength <- ByteBuffer.readUint8 buffer offset ;;
  let offset := offset + 1 in
  metadataMimeType <-
    Encoder.decode (Encoders.metadataMimeType encoders) buffer offset
      (offset + metadataMimeTypeLength) ;;
  let offset := offset + metadataMimeTypeLength in
  dataMimeTypeLength <- ByteBuffer.readUint8 buffer offset ;;
  let offset := offset + 1 in
  dataMimeType <-
    Encoder.decode (Encoders.dataMimeType encoders) buffer offset
      (offset + dataMimeTypeLength) ;;
  let offset := offset + dataMimeTypeLength in
  let frame :=
    SetupFrame None (Some dataMimeType) flags keepAlive lifetime
      majorVersion None (Some metadataMimeType) minorVersion
      (Some resumeToken) streamId in
  readPayload buffer frame encoders offset.

(** *** ERROR *)

Definition ERROR_FIXED_SIZE : Z := 4.

Definition serializeErrorFrame (frame : Frame) (encoders : Encoders.t)
  : result ByteBuffer.t :=
  messageLength <-
    match Field.message frame with
    | Some v => Encoder.byteLength (Encoders.message encoders) v
    | None => Ok 0
    end ;;
  buffer <- ByteBuffer.allocate (FRAME_HEADER_SIZE + ERROR_FIXED_SIZE
                                 + messageLength) ;;
  '(buffer, offset) <- writeHeader frame buffer ;;
  code <- Field.number (Field.code frame) ;;
  buffer <- ByteBuffer.writeUint32 buffer code offset ;;
  let offset := offset + 4 in
  match Field.message frame with
  | Some v =>
      '(buffer, _) <-
        Encoder.encode (Encoders.message encoders) v buffer offset ;;
      Ok buffer
  | None => Ok buffer
  end.

Definition deserializeErrorFrame (buffer : ByteBuffer.t)
    (streamId flags : Z) (encoders : Encoders.t) : result Frame :=
  let offset := FRAME_HEADER_SIZE in
  code <- ByteBuffer.readInt32 buffer offset ;;
  let offset := offset + 4 in
  _ <- invariant ((0 <=? code) && (code <=? MAX_CODE)) ;;
  let messageLength := ByteBuffer.limit buffer - offset in
  let message := EString [] in
  message <-
    (if 0 <? messageLength then
       Encoder.decode (Encoders.message encoders) buffer offset
         (offset + messageLength)
     else Ok message) ;;
  Ok (ErrorFrame code flags (Some message) streamId).

(** *** KEEPALIVE *)

Definition KEEPALIVE_FIXED_SIZE : Z := 8.

Definition serializeKeepAliveFrame (frame : Frame) (encoders : Encoders.t)
  : result ByteBuffer.t :=
  dataLength <-
    match Field.data frame with
    | Some v => Encoder.byteLength (Encoders.data encoders) v
    | None => Ok 0
    end ;;
  buffer <- ByteBuffer.allocate (FRAME_HEADER_SIZE + KEEPALIVE_FIXED_SIZE
                                 + dataLength) ;;
  '(buffer, offset) <- writeHeader frame buffer ;;
  lastReceivedPosition <- Field.number (Field.lastReceivedPosition frame) ;;
  buffer <- ByteBuffer.writeUint64 buffer lastReceivedPosition offset ;;
  let offset := offset + 8 in
  match Field.data frame with
  | Some v =>
      '(buffer, _) <- Encoder.encode (Encoders.data encoders) v buffer offset ;;
      Ok buffer
  | None => Ok buffer
  end.

Definition deserializeKeepAliveFrame (buffer : ByteBuffer.t)
    (streamId flags : Z) (encoders : Encoders.t) : result Frame :=
  _ <- invariant (streamId =? 0) ;;
  let offset := FRAME_HEADER_SIZE in
  lastReceivedPosition <- ByteBuffer.readUint64 buffer offset ;;
  let offset := offset + 8 in
  data <-
    (if offset <? ByteBuffer.limit buffer then
       v <- Encoder.decode (Encoders.data encoders) buffer offset
              (ByteBuffer.limit buffer) ;;
       Ok (Some v)
     else Ok None) ;;
  Ok (KeepAliveFrame data flags lastReceivedPosition streamId).

(** *** LEASE *)

Definition LEASE_FIXED_SIZE : Z := 8.

Definition serializeLeaseFrame (frame : Frame) (encoders : Encoders.t)
  : result ByteBuffer.t :=
  metaLength <-
    match Field.metadata frame with
    | Some v => Encoder.byteLength (Encoders.metadata encoders) v
    | None => Ok 0
    end ;;
  buffer <- ByteBuffer.allocate (FRAME_HEADER_SIZE + LEASE_FIXED_SIZE
                                 + metaLength) ;;
  '(buffer, offset) <- writeHeader frame buffer ;;
  ttl <- Field.number (Field.ttl frame) ;;
  buffer <- ByteBuffer.writeUint32 buffer ttl offset ;;
  let offset := offset + 4 in
  requestCount <- Field.number (Field.requestCount frame) ;;
  buffer <- ByteBuffer.writeUint32 buffer requestCount offset ;;
  let offset := offset + 4 in
  match Field.metadata frame with
  | Some v =>
      '(buffer, _) <-
        Encoder.encode (Encoders.metadata encoders) v buffer offset ;;
      Ok buffer
  | None => Ok buffer
  end.

Definition deserializeLeaseFrame (buffer : ByteBuffer.t)
    (streamId flags : Z) (encoders : Encoders.t) : result Frame :=
  _ <- invariant (streamId =? 0) ;;
  let offset := FRAME_HEADER_SIZE in
  ttl <- ByteBuffer.readUint32 buffer offset ;;
  let offset := offset + 4 in
  requestCount <- ByteBuffer.readUint32 buffer offset ;;
  let offset := offset + 4 in
  metadata <-
    (if offset <? ByteBuffer.limit buffer then
       v <- Encoder.decode (Encoders.metadata encoders) buffer offset
              (ByteBuffer.limit buffer) ;;
       Ok (Some v)
     else Ok None) ;;
  Ok (LeaseFrame flags metadata requestCount streamId ttl).

(** *** REQUEST_FNF and REQUEST_RESPONSE *)

Definition serializeRequestFrame (frame : Frame) (encoders : Encoders.t)
  : result ByteBuffer.t :=
  payloadLength <- getPayloadLength frame encoders ;;
  buffer <- ByteBuffer.allocate (FRAME_HEADER_SIZE + payloadLength) ;;
  '(buffer, offset) <- writeHeader frame buffer ;;
  writePayload frame buffer encoders offset.

Definition deserializeRequestFnfFrame (buffer : ByteBuffer.t)
    (streamId flags : Z) (encoders : Encoders.t) : result Frame :=
  _ <- invariant (0 <? streamId) ;;
  let frame := RequestFnfFrame None flags None streamId in
  readPayload buffer frame encoders FRAME_HEADER_SIZE.

Definition deserializeRequestResponseFrame (buffer : ByteBuffer.t)
    (streamId flags : Z) (encoders : Encoders.t) : result Frame :=
  _ <- invariant (0 <? streamId) ;;
  let frame := RequestResponseFrame None flags None streamId in
  readPayload buffer frame encoders FRAME_HEADER_SIZE.

(** *** REQUEST_STREAM and REQUEST_CHANNEL *)

Definition REQUEST_MANY_HEADER : Z := 4.

Definition serializeRequestManyFrame (frame : Frame) (encoders : Encoders.t)
  : result ByteBuffer.t :=
  payloadLength <- getPayloadLength frame encoders ;;
  buffer <- ByteBuffer.allocate (FRAME_HEADER_SIZE + REQUEST_MANY_HEADER
                      + payloadLength) ;;
  '(buffer, offset) <- writeHeader frame buffer ;;
  requestN <- Field.number (Field.requestN frame) ;;
  buffer <- ByteBuffer.writeUint32 buffer requestN offset ;;
  let offset := offset + 4 in
  writePayload frame buffer encoders offset.

Definition deserializeRequestStreamFrame (buffer : ByteBuffer.t)
    (streamId flags : Z) (encoders : Encoders.t) : result Frame :=
  _ <- invariant (0 <? streamId) ;;
  let offset := FRAME_HEADER_SIZE in
  requestN <- ByteBuffer.readInt32 buffer offset ;;
  let offset := offset + 4 in
  _ <- invariant (0 <? requestN) ;;
  let frame := RequestStreamFrame None flags None requestN streamId in
  readPayload buffer frame encoders offset.

Definition deserializeRequestChannelFrame (buffer : ByteBuffer.t)
    (streamId flags : Z) (encoders : Encoders.t) : result Frame :=
  _ <- invariant (0 <? streamId) ;;
  let offset := FRAME_HEADER_SIZE in
  requestN <- ByteBuffer.readInt32 buffer offset ;;
  let offset := offset + 4 in
  _ <- invariant (0 <? requestN) ;;
  let frame := RequestChannelFrame None flags None requestN streamId in
  readPayload buffer frame encoders offset.

(** *** REQUEST_N *)

Definition REQUEST_N_HEADER : Z := 4.

Definition serializeRequestNFrame (frame : Frame) (encoders : Encoders.t)
  : result ByteBuffer.t :=
  buffer <- ByteBuffer.allocate (FRAME_HEADER_SIZE + REQUEST_N_HEADER) ;;
  '(buffer, offset) <- writeHeader frame buffer ;;
  requestN <- Field.number (Field.requestN frame) ;;
  buffer <- ByteBuffer.writeUint32 buffer requestN offset ;;
  Ok buffer.

Definition deserializeRequestNFrame (buffer : ByteBuffer.t)
    (streamId flags : Z) (encoders : Encoders.t) : result Frame :=
  _ <- invariant (0 <? streamId) ;;
  requestN <- ByteBuffer.readInt32 buffer FRAME_HEADER_SIZE ;;
  _ <- invariant (0 <? requestN) ;;
  Ok (RequestNFrame flags requestN streamId).

(** *** CANCEL *)

Definition serializeCancelFrame (frame : Frame) (encoders : Encoders.t)
  : result ByteBuffer.t :=
  buffer <- ByteBuffer.allocate FRAME_HEADER_SIZE ;;
  '(buffer, _) <- writeHeader frame buffer ;;
  Ok buffer.

Definition deserializeCancelFrame (buffer : ByteBuffer.t)
    (streamId flags : Z) (encoders : Encoders.t) : result Frame :=
  _ <- invariant (0 <? streamId) ;;
  Ok (CancelFrame flags streamId).

(** *** PAYLOAD *)

Definition serializePayloadFrame (frame : Frame) (encoders : Encoders.t)
  : result ByteBuffer.t :=
  payloadLength <- getPayloadLength frame encoders ;;
  buffer <- ByteBuffer.allocate (FRAME_HEADER_SIZE + payloadLength) ;;
  '(buffer, offset) <- writeHeader frame buffer ;;
  writePayload frame buffer encoders offset.

Definition deserializePayloadFrame (buffer : ByteBuffer.t)
    (streamId flags : Z) (encoders : Encoders.t) : result Frame :=
  _ <- invariant (0 <? streamId) ;;
  let frame := PayloadFrame None flags None streamId in
  readPayload buffer frame encoders FRAME_HEADER_SIZE.

(** *** Dispatch *)

(** [encoders = encoders || Utf8Encoders]. *)
Definition orUtf8Encoders (encoders : option Encoders.t) : Encoders.t :=
  match encoders with
  | Some encoders => encoders
  | None => Utf8Encoders
  end.

(** Read a frame from the buffer. *)
Definition deserializeFrame (buffer : ByteBuffer.t)
    (encoders : option Encoders.t) : result Frame :=
  let encoders := orUtf8Encoders encoders in
  let offset := 0 in
  streamId <- ByteBuffer.readInt32 buffer offset ;;
  let offset := offset + 4 in
  _ <- invariant (0 <=? streamId) ;;
  typeAndFlags <- ByteBuffer.readUint16 buffer offset ;;
  let type := js_shru typeAndFlags FRAME_TYPE_OFFFSET in
  let flags := js_and typeAndFlags FLAGS_MASK in
  if type =? FRAME_TYPES.SETUP then
    deserializeSetupFrame buffer streamId flags encoders
  else if type =? FRAME_TYPES.PAYLOAD then
    deserializePayloadFrame buffer streamId flags encoders
  else if type =? FRAME_TYPES.ERROR then
    deserializeErrorFrame buffer streamId flags encoders
  else if type =? FRAME_TYPES.KEEPALIVE then
    deserializeKeepAliveFrame buffer streamId flags encoders
  else if type =? FRAME_TYPES.REQUEST_FNF then
    deserializeRequestFnfFrame buffer streamId flags encoders
  else if type =? FRAME_TYPES.REQUEST_RESPONSE then
    deserializeRequestResponseFrame buffer streamId flags encoders
  else if type =? FRAME_TYPES.REQUEST_STREAM then
    deserializeRequestStreamFrame buffer streamId flags encoders
  else if type =? FRAME_TYPES.REQUEST_CHANNEL then
    deserializeRequestChannelFrame buffer streamId flags encoders
  else if type =? FRAME_TYPES.REQUEST_N then
    deserializeRequestNFrame buffer streamId flags encoders
  else if type =? FRAME_TYPES.CANCEL then
    deserializeCancelFrame buffer streamId flags encoders
  else if type =? FRAME_TYPES.LEASE then
    deserializeLeaseFrame buffer streamId flags encoders
  else Throw InvariantViolation.

(** Convert the frame to a (binary) buffer. *)
Definition serializeFrame (frame : Frame) (encoders : option Encoders.t)
  : result ByteBuffer.t :=
  let encoders := orUtf8Encoders encoders in
  let type := Field.type frame in
  if type =? FRAME_TYPES.SETUP then
    serializeSetupFrame frame encoders
  else if type =? FRAME_TYPES.PAYLOAD then
    serializePayloadFrame frame encoders
  else if type =? FRAME_TYPES.ERROR then
    serializeErrorFrame frame encoders
  else if type =? FRAME_TYPES.KEEPALIVE then
    serializeKeepAliveFrame frame encoders
  else if (type =? FRAME_TYPES.REQUEST_FNF)
          || (type =? FRAME_TYPES.REQUEST_RESPONSE) then
    serializeRequestFrame frame encoders
  else if (type =? FRAME_TYPES.REQUEST_STREAM)
          || (type =? FRAME_TYPES.REQUEST_CHANNEL) then
    serializeRequestManyFrame frame encoders
  else if type =? FRAME_TYPES.REQUEST_N then
    serializeRequestNFrame frame encoders
  else if type =? FRAME_TYPES.CANCEL then
    serializeCancelFrame frame encoders
  else if type =? FRAME_TYPES.LEASE then
    serializeLeaseFrame frame encoders
  else Throw InvariantViolation.

(** *** Length-prefixed frames *)

(** Reads a frame from a buffer that is prefixed with the frame length. *)
Definition deserializeFrameWithLength (buffer : ByteBuffer.t)
    (encoders : option Encoders.t) : result Frame :=
  frameLength <- readUint24 buffer 0 ;;
  frameBuffer <-
    ByteBuffer.slice buffer UINT24_SIZE (UINT24_SIZE + frameLength) ;;
  deserializeFrame frameBuffer encoders.

(** The [while] loop of [deserializeFrames]: the frames read so far and the
    offset reached.  Every turn moves the offset forward by at least
    [UINT24_SIZE], so [fuel] turns suffice when [fuel] is the buffer's
    limit. *)
Fixpoint deserializeFrames_loop (fuel : nat) (buffer : ByteBuffer.t)
    (encoders : option Encoders.t) (frames : list Frame) (offset : Z)
  : result (list Frame * Z) :=
  match fuel with
  | O => Ok (frames, offset)
  | S fuel' =>
      if offset + UINT24_SIZE <? ByteBuffer.limit buffer then
        frameLength <- readUint24 buffer offset ;;
        let frameStart := offset + UINT24_SIZE in
        let frameEnd := frameStart + frameLength in
        if ByteBuffer.limit buffer <? frameEnd then
          (* not all bytes of next frame received *)
          Ok (frames, offset)
        else
          frameBuffer <- ByteBuffer.slice buffer frameStart frameEnd ;;
          frame <- deserializeFrame frameBuffer encoders ;;
          deserializeFrames_loop fuel' buffer encoders
            (frames ++ [frame]) frameEnd
      else Ok (frames, offset)
  end.

(** Given a buffer that may contain zero or more length-prefixed frames
    followed by zero or more bytes of a (partial) subsequent frame, returns
    the frames and a buffer of the leftover bytes. *)
Definition deserializeFrames (buffer : ByteBuffer.t)
    (encoders : option Encoders.t) : result (list Frame * ByteBuffer.t) :=
  '(frames, offset) <-
    deserializeFrames_loop (Z.to_nat (ByteBuffer.limit buffer)) buffer
      encoders [] 0 ;;
  leftover <- ByteBuffer.slice buffer offset (ByteBuffer.limit buffer) ;;
  Ok (frames, leftover).

(** Writes a frame to a buffer with a length prefix. *)
Definition serializeFrameWithLength (frame : Frame)
    (encoders : option Encoders.t) : result ByteBuffer.t :=
  buffer <- serializeFrame frame encoders ;;
  lengthPrefixed <-
    ByteBuffer.allocate (ByteBuffer.limit buffer + UINT24_SIZE) ;;
  lengthPrefixed <- writeUint24 lengthPrefixed (ByteBuffer.limit buffer) 0 ;;
  lengthPrefixed <-
    ByteBuffer.copyTo buffer lengthPrefixed UINT24_SIZE 0
      (ByteBuffer.limit buffer) ;;
  Ok lengthPrefixed.

(** ** RSocketSerialization.js *)

(** The JSON serializer.  [JSON.parse] is not part of the repository: what
    it does with a string, the value it returns or the error it throws, is
    kept abstract as a [Json]. *)
Section JsonSerializer.

Variable Json : Type.
Variable JSON_parse : JSString -> Json.

Definition JsonSerializer_deserialize (data : option Encodable)
  : result (option Json) :=
  match data with
  | None => Ok None
  | Some (EString str) => Ok (Some (JSON_parse str))
  | Some (EByteBuffer buffer) =>
      str <- ByteBuffer.toUTF8 buffer ;;
      Ok (Some (JSON_parse str))
  | Some (EUint8Array data) =>
      let buffer := ByteBuffer.wrap data in
      str <- ByteBuffer.toUTF8 buffer ;;
      Ok (Some (JSON_parse str))
  end.

End JsonSerializer.
(** * Vocabulary of the properties

    Byte-level names for what the writers store, and the conditions under
    which the properties are stated. *)

(** The sign conversion of [readInt16]. *)
Definition int16 (u : Z) : Z := if 2^15 <=? u then u - 2^16 else u.

(** The three bytes [writeUint24] stores. *)
Definition be24 (value : Z) : list byte :=
  [byte_of_Z (Z.shiftr value 16); byte_of_Z (Z.shiftr value 8);
   byte_of_Z value].

(** The six bytes [writeHeader] stores. *)
Definition headerBytes (frame : Frame) : list byte :=
  be32 (Field.streamId frame)
  ++ be16 (js_or (js_shl (Field.type frame) FRAME_TYPE_OFFFSET)
             (js_and (Field.flags frame) FLAGS_MASK)).

(** A decoder that never reports an invariant violation. *)
Definition decodeSafe (encoder : Encoder.t) : Prop :=
  forall buffer start end_,
    Encoder.decode encoder buffer start end_ <> Throw InvariantViolation.

(** All six decoders of an encoder set are such. *)
Definition decodersSafe (encoders : Encoders.t) : Prop :=
  decodeSafe (Encoders.data encoders)
  /\ decodeSafe (Encoders.dataMimeType encoders)
  /\ decodeSafe (Encoders.message encoders)
  /\ decodeSafe (Encoders.metadata encoders)
  /\ decodeSafe (Encoders.metadataMimeType encoders)
  /\ decodeSafe (Encoders.resumeToken encoders).

(** [Encodes encoder value bs]: the encoder accepts [value], reports the
    length of [bs] for it and stores [bs] at the offset it is given. *)
Definition Encodes (encoder : Encoder.t) (value : Encodable)
    (bs : list byte) : Prop :=
  Encoder.byteLength encoder value = Ok (size bs)
  /\ forall buffer offset,
       Encoder.encode encoder value buffer offset
       = (buffer' <- ByteBuffer.write buffer offset bs ;;
          Ok (buffer', offset + size bs)).

(** [Decodes encoder value bs]: the encoder reads [value] from any buffer
    that holds [bs] between the two offsets it is given. *)
Definition Decodes (encoder : Encoder.t) (value : Encodable)
    (bs : list byte) : Prop :=
  forall buffer start end_,
    slice (ByteBuffer.store buffer) start end_ = Ok bs ->
    Encoder.decode encoder buffer start end_ = Ok value.

(** An optional field: [null] has no bytes. *)
Definition EncodesOpt (encoder : Encoder.t) (value : option Encodable)
    (bs : list byte) : Prop :=
  match value with
  | Some v => Encodes encoder v bs
  | None => bs = []
  end.

(** The bytes of the encodable fields of a frame. *)
Module Wire.
Record t : Type := {
  data : list byte;
  dataMimeType : list byte;
  message : list byte;
  metadata : list byte;
  metadataMimeType : list byte;
  resumeToken : list byte
}.
End Wire.

(** The writers look at [frame.metadata] when the METADATA flag is set;
    the LEASE writer looks at it always. *)
Definition metadataWritten (frame : Frame) : bool :=
  match frame with
  | LeaseFrame _ _ _ _ _ => true
  | _ => isMetadata (Field.flags frame)
  end.

(** The encoders accept the fields of the frame that its writer looks at,
    and [w] holds their bytes. *)
Definition Encoded (encoders : Encoders.t) (frame : Frame) (w : Wire.t)
  : Prop :=
  EncodesOpt (Encoders.data encoders) (Field.data frame) (Wire.data w)
  /\ EncodesOpt (Encoders.dataMimeType encoders) (Field.dataMimeType frame)
       (Wire.dataMimeType w)
  /\ EncodesOpt (Encoders.message encoders) (Field.message frame)
       (Wire.message w)
  /\ (metadataWritten frame = true ->
      EncodesOpt (Encoders.metadata encoders) (Field.metadata frame)
        (Wire.metadata w))
  /\ EncodesOpt (Encoders.metadataMimeType encoders)
       (Field.metadataMimeType frame) (Wire.metadataMimeType w)
  /\ EncodesOpt (Encoders.resumeToken encoders) (Field.resumeToken frame)
       (Wire.resumeToken w).

(** The payload section (section 3.2): the 24-bit length and the metadata
    when the METADATA flag is set, then the data. *)
Definition payloadBytes (flags : Z) (w : Wire.t) : list byte :=
  (if isMetadata flags
   then be24 (size (Wire.metadata w)) ++ Wire.metadata w
   else [])
  ++ Wire.data w.

(** The layout of each frame kind (section 4.4). *)
Definition frameBytes (frame : Frame) (w : Wire.t) : list byte :=
  headerBytes frame ++
  match frame with
  | SetupFrame _ _ flags keepAlive lifetime majorVersion _ _ minorVersion
      _ _ =>
      be16 majorVersion ++ be16 minorVersion
      ++ be32 keepAlive ++ be32 lifetime
      ++ be16 (size (Wire.resumeToken w)) ++ Wire.resumeToken w
      ++ [byte_of_Z (size (Wire.metadataMimeType w))]
      ++ Wire.metadataMimeType w
      ++ [byte_of_Z (size (Wire.dataMimeType w))]
      ++ Wire.dataMimeType w
      ++ payloadBytes flags w
  | ErrorFrame code _ _ _ => be32 code ++ Wire.message w
  | KeepAliveFrame _ _ lastReceivedPosition _ =>
      be64 (Long_fromNumber lastReceivedPosition) ++ Wire.data w
  | LeaseFrame _ _ requestCount _ ttl =>
      be32 ttl ++ be32 requestCount ++ Wire.metadata w
  | RequestFnfFrame _ flags _ _
  | RequestResponseFrame _ flags _ _
  | PayloadFrame _ flags _ _ => payloadBytes flags w
  | RequestStreamFrame _ flags _ requestN _
  | RequestChannelFrame _ flags _ requestN _ =>
      be32 requestN ++ payloadBytes flags w
  | RequestNFrame _ requestN _ => be32 requestN
  | CancelFrame _ _ => []
  | UnsupportedFrame _ _ _ => []
  end.

(** One of the eleven frame kinds. *)
Definition supported (frame : Frame) : Prop :=
  match frame with
  | UnsupportedFrame _ _ _ => False
  | _ => True
  end.

(** The length an encoder reports for an optional field: 0 when the field
    is [null]. *)
Definition optByteLength (encoder : Encoder.t) (value : option Encodable)
  : result Z :=
  match value with
  | Some v => Encoder.byteLength encoder v
  | None => Ok 0
  end.

(** The type tags [serializeFrame] and [deserializeFrame] have a case
    for. *)
Definition supportedTypes : list Z :=
  [FRAME_TYPES.SETUP; FRAME_TYPES.PAYLOAD; FRAME_TYPES.ERROR;
   FRAME_TYPES.KEEPALIVE; FRAME_TYPES.REQUEST_FNF;
   FRAME_TYPES.REQUEST_RESPONSE; FRAME_TYPES.REQUEST_STREAM;
   FRAME_TYPES.REQUEST_CHANNEL; FRAME_TYPES.REQUEST_N; FRAME_TYPES.CANCEL;
   FRAME_TYPES.LEASE].

(** What the parser can give back for the payload: a present field is not
    empty, and there is no metadata without the METADATA flag. *)
Definition payloadCanonical (encoders : Encoders.t) (flags : Z)
    (data metadata : option Encodable) (w : Wire.t) : Prop :=
  match data with
  | Some v => Decodes (Encoders.data encoders) v (Wire.data w)
              /\ Wire.data w <> []
  | None => Wire.data w = []
  end
  /\ if isMetadata flags then
       size (Wire.metadata w) < 2^24
       /\ match metadata with
          | Some v => Decodes (Encoders.metadata encoders) v (Wire.metadata w)
                      /\ Wire.metadata w <> []
          | None => Wire.metadata w = []
          end
     else metadata = None.

(** Assign an optional field when there is a value for it. *)
Definition setOpt (set : Frame -> Encodable -> Frame) (frame : Frame)
    (value : option Encodable) : Frame :=
  match value with
  | Some v => set frame v
  | None => frame
  end.

(** A field the reader always fills in: it must be present, and the
    encoder must read it back. *)
Definition decodedField (encoder : Encoder.t) (value : option Encodable)
    (bs : list byte) : Prop :=
  match value with
  | Some v => Decodes encoder v bs
  | None => False
  end.

(** A field the reader leaves [null] when there are no bytes for it. *)
Definition trailingField (encoder : Encoder.t) (value : option Encodable)
    (bs : list byte) : Prop :=
  match value with
  | Some v => Decodes encoder v bs /\ bs <> []
  | None => bs = []
  end.

(** The frames the parser can give back, with the bytes [w] of their
    encodable fields: numeric fields within the bounds of the data model
    (a resume token of at most 32767 bytes, a lastReceivedPosition that is
    an exact JavaScript integer), and optional fields in the form the
    readers produce. *)
Definition Canonical (encoders : Encoders.t) (frame : Frame) (w : Wire.t)
  : Prop :=
  0 <= Field.streamId frame < 2^31
  /\ 0 <= Field.flags frame < 2^10
  /\ match frame with
     | SetupFrame data dataMimeType flags keepAlive lifetime majorVersion
         metadata metadataMimeType minorVersion resumeToken streamId =>
         streamId = 0
         /\ 0 <= majorVersion < 2^16 /\ 0 <= minorVersion < 2^16
         /\ 0 <= keepAlive <= MAX_KEEPALIVE
         /\ 0 <= lifetime <= MAX_LIFETIME
         /\ decodedField (Encoders.resumeToken encoders) resumeToken
              (Wire.resumeToken w)
         /\ size (Wire.resumeToken w) < 2^15
         /\ decodedField (Encoders.metadataMimeType encoders)
              metadataMimeType (Wire.metadataMimeType w)
         /\ size (Wire.metadataMimeType w) < 2^8
         /\ decodedField (Encoders.dataMimeType encoders) dataMimeType
              (Wire.dataMimeType w)
         /\ size (Wire.dataMimeType w) < 2^8
         /\ payloadCanonical encoders flags data metadata w
     | ErrorFrame code _ message _ =>
         0 <= code <= MAX_CODE
         /\ match message with
            | Some v =>
                (Wire.message w = [] -> v = EString [])
                /\ (Wire.message w <> [] ->
                    Decodes (Encoders.message encoders) v (Wire.message w))
            | None => False
            end
     | KeepAliveFrame data _ lastReceivedPosition streamId =>
         streamId = 0
         /\ 0 <= lastReceivedPosition < 2^53
         /\ trailingField (Encoders.data encoders) data (Wire.data w)
     | LeaseFrame _ metadata requestCount streamId ttl =>
         streamId = 0
         /\ 0 <= ttl < 2^32 /\ 0 <= requestCount < 2^32
         /\ trailingField (Encoders.metadata encoders) metadata
              (Wire.metadata w)
     | RequestFnfFrame data flags metadata streamId
     | RequestResponseFrame data flags metadata streamId
     | PayloadFrame data flags metadata streamId =>
         0 < streamId
         /\ payloadCanonical encoders flags data metadata w
     | RequestStreamFrame data flags metadata requestN streamId
     | RequestChannelFrame data flags metadata requestN streamId =>
         0 < streamId /\ 0 < requestN < 2^31
         /\ payloadCanonical encoders flags data metadata w
     | RequestNFrame _ requestN streamId =>
         0 < streamId /\ 0 < requestN < 2^31
     | CancelFrame _ streamId => 0 < streamId
     | UnsupportedFrame _ _ _ => False
     end.

(** A frame with its 24-bit length in front. *)
Definition lengthPrefixed (bytes : list byte) : list byte :=
  be24 (size bytes) ++ bytes.

(** The buffer does not start with a complete frame: its limit is at most
    three, or the length prefix announces more bytes than the limit
    allows. *)
Definition incomplete (buffer : ByteBuffer.t) : Prop :=
  ByteBuffer.limit buffer <= 3
  \/ exists frameLength,
       readUint24 buffer 0 = Ok frameLength
       /\ ByteBuffer.limit buffer < 3 + frameLength.

(** The strings of the model: lists of Unicode code points. *)
Definition codePoints (str : JSString) : Prop :=
  Forall (fun cp => 0 <= cp < 0xD800 \/ 0xDFFF < cp <= 0x10FFFF) str.

(** Frames all of whose encodable fields are strings or [null], the values
    the default encoders accept, and the bytes of such fields. *)
Definition isText (value : option Encodable) : Prop :=
  match value with
  | Some (EString _) | None => True
  | Some _ => False
  end.

Definition textBytes (value : option Encodable) : list byte :=
  match value with
  | Some (EString str) => encodeUTF8 str
  | _ => []
  end.

Definition textFrame (frame : Frame) : Prop :=
  isText (Field.data frame)
  /\ isText (Field.dataMimeType frame)
  /\ isText (Field.message frame)
  /\ isText (Field.metadata frame)
  /\ isText (Field.metadataMimeType frame)
  /\ isText (Field.resumeToken frame).

Definition textWire (frame : Frame) : Wire.t := {|
  Wire.data := textBytes (Field.data frame);
  Wire.dataMimeType := textBytes (Field.dataMimeType frame);
  Wire.message := textBytes (Field.message frame);
  Wire.metadata := textBytes (Field.metadata frame);
  Wire.metadataMimeType := textBytes (Field.metadataMimeType frame);
  Wire.resumeToken := textBytes (Field.resumeToken frame)
|}.

(** The numeric constraints of the data model that the readers check or
    that the width of a field implies. *)
Definition checked (frame : Frame) : Prop :=
  0 <= Field.streamId frame < 2^31
  /\ 0 <= Field.flags frame < 2^10
  /\ match frame with
     | SetupFrame _ _ _ keepAlive lifetime majorVersion _ _ minorVersion _
         streamId =>
         streamId = 0
         /\ 0 <= majorVersion < 2^16 /\ 0 <= minorVersion < 2^16
         /\ 0 <= keepAlive <= MAX_KEEPALIVE
         /\ 0 <= lifetime <= MAX_LIFETIME
     | ErrorFrame code _ _ _ => 0 <= code <= MAX_CODE
     | KeepAliveFrame _ _ lastReceivedPosition streamId =>
         streamId = 0 /\ 0 <= lastReceivedPosition
     | LeaseFrame _ _ requestCount streamId ttl =>
         streamId = 0 /\ 0 <= ttl < 2^32 /\ 0 <= requestCount < 2^32
     | RequestFnfFrame _ _ _ streamId
     | RequestResponseFrame _ _ _ streamId
     | PayloadFrame _ _ _ streamId
     | CancelFrame _ streamId => 0 < streamId
     | RequestStreamFrame _ _ _ requestN streamId
     | RequestChannelFrame _ _ _ requestN streamId
     | RequestNFrame _ requestN streamId =>
         0 < streamId /\ 0 < requestN < 2^31
     | UnsupportedFrame _ _ _ => False
     end.

(** The optional fields as the readers leave them: the resume token, the
    MIME types and the error message are always there, and metadata is
    there only under the METADATA flag (the LEASE reader aside, which does
    not look at the flag). *)
Definition normalised (frame : Frame) : Prop :=
  match frame with
  | SetupFrame _ dataMimeType flags _ _ _ metadata metadataMimeType _
      resumeToken _ =>
      dataMimeType <> None /\ metadataMimeType <> None
      /\ resumeToken <> None
      /\ (isMetadata flags = false -> metadata = None)
  | ErrorFrame _ _ message _ => message <> None
  | RequestFnfFrame _ flags metadata _
  | RequestResponseFrame _ flags metadata _
  | RequestStreamFrame _ flags metadata _ _
  | RequestChannelFrame _ flags metadata _ _
  | PayloadFrame _ flags metadata _ =>
      isMetadata flags = false -> metadata = None
  | _ => True
  end.

(** An encodable value without content: the empty string, a buffer with
    nothing between its offset and its limit. *)
Definition isEmpty (value : Encodable) : bool :=
  match value with
  | EString [] | EUint8Array [] => true
  | EByteBuffer b => ByteBuffer.limit b <=? ByteBuffer.offset b
  | _ => false
  end.

(** One of the two encoder sets of RSocketEncoding.js, the default
    included. *)
Definition standard (encoders : option Encoders.t) : Prop :=
  encoders = None \/ encoders = Some Utf8Encoders
  \/ encoders = Some BufferEncoders.

(** The encoder set that encodes all values as UTF-8 strings, given as
    such or by default. *)
Definition utf8 (encoders : option Encoders.t) : Prop :=
  encoders = None \/ encoders = Some Utf8Encoders.

(** A decoder that gives a value with content whenever it is handed at
    least one byte. *)
Definition decodesContent (encoder : Encoder.t) : Prop :=
  forall buffer start end_ value,
    start < end_ ->
    Encoder.decode encoder buffer start end_ = Ok value ->
    isEmpty value = false.

(** An encoder accepts an optional field: [null] is never handed to it. *)
Definition accepts (encoder : Encoder.t) (value : option Encodable) : Prop :=
  match value with
  | Some v => exists n, Encoder.byteLength encoder v = Ok n
  | None => True
  end.

(** The encoders accept every field of the frame that its writer looks
    at. *)
Definition allAccepted (encoders : Encoders.t) (frame : Frame) : Prop :=
  accepts (Encoders.data encoders) (Field.data frame)
  /\ accepts (Encoders.dataMimeType encoders) (Field.dataMimeType frame)
  /\ accepts (Encoders.message encoders) (Field.message frame)
  /\ (metadataWritten frame = true ->
      accepts (Encoders.metadata encoders) (Field.metadata frame))
  /\ accepts (Encoders.metadataMimeType encoders)
       (Field.metadataMimeType frame)
  /\ accepts (Encoders.resumeToken encoders) (Field.resumeToken frame).

(** One of the two encoders of RSocketEncoding.js. *)
Definition standardEncoder (encoder : Encoder.t) : Prop :=
  encoder = UTF8Encoder \/ encoder = BufferEncoder.

(** The marks of a buffer as the library keeps them. *)
Definition marked (b : ByteBuffer.t) : Prop :=
  0 <= ByteBuffer.offset b <= ByteBuffer.limit b
  /\ ByteBuffer.limit b <= ByteBuffer.capacity b.

(** The buffers among the encodable fields of a frame have their marks
    so. *)
Definition markedValue (value : option Encodable) : Prop :=
  match value with
  | Some (EByteBuffer b) => marked b
  | _ => True
  end.

Definition markedFrame (frame : Frame) : Prop :=
  markedValue (Field.data frame)
  /\ markedValue (Field.dataMimeType frame)
  /\ markedValue (Field.message frame)
  /\ markedValue (Field.metadata frame)
  /\ markedValue (Field.metadataMimeType frame)
  /\ markedValue (Field.resumeToken frame).

(** The bytes of an optional field under the standard encoders: the UTF-8
    form of a string, the bytes of a buffer that [BufferEncoder] copies
    (those in front of its limit), nothing for [null]. *)
Definition standardBytes (value : option Encodable) : list byte :=
  match value with
  | Some (EString str) => encodeUTF8 str
  | Some (EByteBuffer b) =>
      firstn (Z.to_nat (ByteBuffer.limit b)) (ByteBuffer.store b)
  | _ => []
  end.

Definition standardWire (frame : Frame) : Wire.t := {|
  Wire.data := standardBytes (Field.data frame);
  Wire.dataMimeType := standardBytes (Field.dataMimeType frame);
  Wire.message := standardBytes (Field.message frame);
  Wire.metadata := standardBytes (Field.metadata frame);
  Wire.metadataMimeType := standardBytes (Field.metadataMimeType frame);
  Wire.resumeToken := standardBytes (Field.resumeToken frame)
|}.

(** The strings among the encodable fields of a frame are strings of
    Unicode code points. *)
Definition wellFormed (value : option Encodable) : Prop :=
  match value with
  | Some (EString str) => codePoints str
  | _ => True
  end.

Definition wellFormedFrame (frame : Frame) : Prop :=
  wellFormed (Field.data frame)
  /\ wellFormed (Field.dataMimeType frame)
  /\ wellFormed (Field.message frame)
  /\ wellFormed (Field.metadata frame)
  /\ wellFormed (Field.metadataMimeType frame)
  /\ wellFormed (Field.resumeToken frame).

(** The data and the metadata of the frame are [null] or have content. *)
Definition noEmptyPayload (frame : Frame) : Prop :=
  (forall value, Field.data frame = Some value -> isEmpty value = false)
  /\ (forall value, Field.metadata frame = Some value ->
      isEmpty value = false).

(** The fields of the frame fit the width of their length on the wire, as
    the readers take it: 15 bits for the resume token, 8 bits for a MIME
    type, 24 bits for the metadata; and the last received position is an
    exact JavaScript integer. *)
Definition fitsWire (frame : Frame) : Prop :=
  size (standardBytes (Field.resumeToken frame)) < 2^15
  /\ size (standardBytes (Field.metadataMimeType frame)) < 2^8
  /\ size (standardBytes (Field.dataMimeType frame)) < 2^8
  /\ size (standardBytes (Field.metadata frame)) < 2^24
  /\ (forall position, Field.lastReceivedPosition frame = Some position ->
      position < 2^53).

(** * Properties *)

(** A buffer given by its marks and its store. *)
Abbreviation over offset limit store :=
  (ByteBuffer.Build_t store offset limit).

(** The operations of a buffer are those of its store. *)
Ltac on_store :=
  unfold ByteBuffer.readUint8, ByteBuffer.readUint16, ByteBuffer.readInt16,
    ByteBuffer.readUint32, ByteBuffer.readInt32, ByteBuffer.readUint64,
    ByteBuffer.writeUint8, ByteBuffer.writeUint16, ByteBuffer.writeUint32,
    ByteBuffer.writeInt32, ByteBuffer.writeUint64, ByteBuffer.write,
    ByteBuffer.with_store, ByteBuffer.capacity in *;
  cbn [ByteBuffer.store ByteBuffer.offset ByteBuffer.limit] in *.

(** One step of a computation in the error monad. *)
Ltac next := cbn [bind ByteBuffer.store ByteBuffer.offset ByteBuffer.limit].

(** ** Bytes and 32-bit arithmetic *)

Ltac pow2 :=
  change (2^8) with 256 in *; change (2^16) with 65536 in *;
  change (2^24) with 16777216 in *; change (2^31) with 2147483648 in *;
  change (2^32) with 4294967296 in *.

Ltac euclid := pow2; Z.to_euclidean_division_equations; lia.

Lemma Z_of_byte_range b : 0 <= Z_of_byte b < 256.
Proof.
  unfold Z_of_byte. pose proof (Byte.to_N_bounded b). lia.
Qed.

Lemma Z_of_byte_of_Z z : Z_of_byte (byte_of_Z z) = z mod 256.
Proof.
  unfold Z_of_byte, byte_of_Z.
  assert (H : 0 <= z mod 256 < 256) by (apply Z.mod_pos_bound; lia).
  destruct (Byte.of_N (Z.to_N (z mod 256))) as [b|] eqn:E.
  - apply Byte.to_of_N in E. rewrite E. lia.
  - apply Byte.of_N_None_iff in E. lia.
Qed.

Lemma byte_of_Z_of_byte b : byte_of_Z (Z_of_byte b) = b.
Proof.
  unfold byte_of_Z, Z_of_byte.
  pose proof (Byte.to_N_bounded b).
  rewrite Z.mod_small by lia.
  rewrite N2Z.id, Byte.of_to_N. reflexivity.
Qed.

Lemma byte_of_Z_mod a b : a mod 256 = b mod 256 -> byte_of_Z a = byte_of_Z b.
Proof. unfold byte_of_Z. intros ->. reflexivity. Qed.

Lemma ToInt32_small x : - 2^31 <= x < 2^31 -> ToInt32 x = x.
Proof. unfold ToInt32. pow2. intros. rewrite Z.mod_small by lia. lia. Qed.

Lemma ToUint32_small x : 0 <= x < 2^32 -> ToUint32 x = x.
Proof. unfold ToUint32. intros. apply Z.mod_small. lia. Qed.

Lemma ToInt32_range x : - 2^31 <= ToInt32 x < 2^31.
Proof. unfold ToInt32. euclid. Qed.

Lemma land_ones_mod x n : 0 <= n -> Z.land x (2^n - 1) = x mod 2^n.
Proof.
  intros. replace (2^n - 1) with (Z.ones n)
    by (rewrite Z.ones_equiv; lia).
  apply Z.land_ones. lia.
Qed.

Lemma land_shiftl_small a b n :
  0 <= n -> 0 <= b < 2^n -> Z.land (Z.shiftl a n) b = 0.
Proof.
  intros Hn Hb. apply Z.bits_inj'. intros i Hi.
  rewrite Z.land_spec, Z.bits_0.
  destruct (Z.lt_ge_cases i n) as [Hlt|Hge].
  - rewrite Z.shiftl_spec_low by lia. reflexivity.
  - assert (Hbit : Z.testbit b i = false).
    { destruct (Z.eq_dec b 0) as [->|Hnz]; [apply Z.bits_0|].
      apply Z.bits_above_log2; [lia|].
      assert (Z.log2 b < n) by (apply Z.log2_lt_pow2; lia). lia. }
    rewrite Hbit. apply andb_false_r.
Qed.

Lemma lor_shiftl_add a b n :
  0 <= n -> 0 <= b < 2^n -> Z.lor (Z.shiftl a n) b = a * 2^n + b.
Proof.
  intros Hn Hb.
  pose proof (land_shiftl_small a b n Hn Hb) as H0.
  rewrite <- Z.lxor_lor by exact H0.
  rewrite <- Z.add_nocarry_lxor by exact H0.
  rewrite Z.shiftl_mul_pow2 by lia. reflexivity.
Qed.

(** [a * 2^n | b] is [a * 2^n + b] when [b] fits in the low [n] bits. *)
Lemma lor_mul_add a b n :
  0 <= n -> 0 <= b < 2^n -> Z.lor (a * 2^n) b = a * 2^n + b.
Proof.
  intros. rewrite <- lor_shiftl_add by lia.
  rewrite Z.shiftl_mul_pow2 by lia. reflexivity.
Qed.

Lemma js_shl_small a n :
  0 <= n < 32 -> 0 <= a -> a * 2^n < 2^31 -> js_shl a n = a * 2^n.
Proof.
  intros Hn Ha Hlt. unfold js_shl.
  assert (0 < 2^n) by (apply Z.pow_pos_nonneg; lia).
  rewrite (Z.mod_small n) by lia.
  rewrite (ToInt32_small a) by nia.
  rewrite Z.shiftl_mul_pow2 by lia.
  apply ToInt32_small. pow2. nia.
Qed.

Lemma js_or_small a b :
  - 2^31 <= a < 2^31 -> - 2^31 <= b < 2^31 -> js_or a b = Z.lor a b.
Proof. intros. unfold js_or. rewrite !ToInt32_small by lia. reflexivity. Qed.

Lemma js_and_small a b :
  - 2^31 <= a < 2^31 -> - 2^31 <= b < 2^31 -> js_and a b = Z.land a b.
Proof. intros. unfold js_and. rewrite !ToInt32_small by lia. reflexivity. Qed.

Lemma js_and_0xff x : js_and x 0xff = x mod 256.
Proof.
  unfold js_and. rewrite (ToInt32_small 0xff) by (pow2; lia).
  rewrite (land_ones_mod _ 8) by lia. unfold ToInt32. euclid.
Qed.

Lemma js_and_FLAGS_MASK x : js_and x FLAGS_MASK = x mod 1024.
Proof.
  unfold js_and, FLAGS_MASK. rewrite (ToInt32_small 0x3FF) by (pow2; lia).
  rewrite (land_ones_mod _ 10) by lia. unfold ToInt32.
  change (2^10) with 1024. euclid.
Qed.

(** ** Buffers as byte sequences *)

Lemma size_nil : size [] = 0.
Proof. reflexivity. Qed.

Lemma size_cons b rest : size (b :: rest) = 1 + size rest.
Proof. unfold size. simpl length. lia. Qed.

Lemma size_app a b : size (a ++ b) = size a + size b.
Proof. unfold size. rewrite length_app. lia. Qed.

Lemma size_nonneg a : 0 <= size a.
Proof. unfold size. lia. Qed.

Lemma size_repeat n : size (repeat x00 n) = Z.of_nat n.
Proof. unfold size. rewrite repeat_length. reflexivity. Qed.

Lemma size_be16 v : size (be16 v) = 2.
Proof. reflexivity. Qed.

Lemma size_be32 v : size (be32 v) = 4.
Proof. reflexivity. Qed.

Lemma poke_length buffer n b : length (poke buffer n b) = length buffer.
Proof.
  revert n. induction buffer as [|x rest IH]; intros [|n]; simpl; auto.
Qed.

Lemma pokes_length bs : forall buffer n,
  length (pokes buffer n bs) = length buffer.
Proof.
  induction bs as [|b bs IH]; intros; simpl; [reflexivity|].
  rewrite IH. apply poke_length.
Qed.

Lemma poke_app pre x post b :
  poke (pre ++ x :: post) (length pre) b = pre ++ b :: post.
Proof. induction pre as [|p pre IH]; simpl; [reflexivity|]. now rewrite IH. Qed.

Lemma poke_past buffer n b : (length buffer <= n)%nat -> poke buffer n b = buffer.
Proof.
  revert n. induction buffer as [|x rest IH]; intros [|n] H; simpl in *;
    try reflexivity; try lia.
  rewrite IH by lia. reflexivity.
Qed.

(** Overwriting a stretch of the buffer that is entirely inside it. *)
Lemma pokes_app new : forall pre old post,
  length old = length new ->
  pokes (pre ++ old ++ post) (length pre) new = pre ++ new ++ post.
Proof.
  induction new as [|b new IH]; intros pre old post Hlen.
  - destruct old; [reflexivity | discriminate].
  - destruct old as [|o old]; [discriminate|].
    simpl. rewrite poke_app.
    replace (pre ++ b :: old ++ post) with ((pre ++ [b]) ++ old ++ post)
      by (rewrite <- app_assoc; reflexivity).
    replace (S (length pre)) with (length (pre ++ [b]))
      by (rewrite length_app; simpl; lia).
    rewrite IH by (simpl in Hlen; lia).
    rewrite <- app_assoc. reflexivity.
Qed.

Lemma repeat_split (n m : nat) :
  (n <= m)%nat -> repeat x00 m = repeat x00 n ++ repeat x00 (m - n).
Proof.
  intros. rewrite <- repeat_app. f_equal. lia.
Qed.

(** The store does not grow when the bytes to write end inside it. *)
Lemma ensureCapacity_fits store capacity :
  capacity <= size store -> ensureCapacity store capacity = store.
Proof.
  intros H. unfold ensureCapacity.
  replace (size store <? capacity) with false by lia. reflexivity.
Qed.

Lemma ensureCapacity_size store capacity :
  size (ensureCapacity store capacity)
  = (if size store <? capacity then Z.max (2 * size store) capacity
     else size store).
Proof.
  unfold ensureCapacity. destruct (Z.ltb_spec (size store) capacity);
    [|reflexivity].
  rewrite size_app, size_repeat. lia.
Qed.

(** A write into the zeroed tail of a freshly allocated buffer. *)
Lemma write_zeros pre k bs offset :
  offset = size pre -> (length bs <= k)%nat ->
  write (pre ++ repeat x00 k) offset bs
  = Ok ((pre ++ bs) ++ repeat x00 (k - length bs)).
Proof.
  intros -> Hk. unfold write, writable.
  pose proof (size_nonneg pre). pose proof (size_nonneg (repeat x00 k)).
  rewrite ensureCapacity_fits
    by (rewrite size_app, size_repeat; unfold size; lia).
  rewrite size_app.
  replace (0 <=? size pre) with true by (symmetry; apply Z.leb_le; lia).
  replace (size pre <=? size pre + size (repeat x00 k)) with true
    by (symmetry; apply Z.leb_le; lia).
  simpl. f_equal. unfold size. rewrite Nat2Z.id.
  rewrite (repeat_split (length bs) k) by lia.
  rewrite pokes_app by (rewrite repeat_length; reflexivity).
  rewrite <- app_assoc. reflexivity.
Qed.

Lemma write_size buffer offset bs buffer' :
  write buffer offset bs = Ok buffer' ->
  size buffer' = size (ensureCapacity buffer (offset + size bs)).
Proof.
  unfold write. destruct (writable buffer offset); [|discriminate].
  intros [= <-]. unfold size. rewrite pokes_length. reflexivity.
Qed.

Lemma write_writable buffer offset bs :
  writable buffer offset = true ->
  exists buffer', write buffer offset bs = Ok buffer'
                  /\ size buffer'
                     = size (ensureCapacity buffer (offset + size bs)).
Proof.
  intros H. unfold write. rewrite H. eexists. split; [reflexivity|].
  unfold size. rewrite pokes_length. reflexivity.
Qed.

Lemma view_skip c rest offset :
  size c <= offset -> view (c ++ rest) offset = view rest (offset - size c).
Proof.
  intros H. unfold view. f_equal. pose proof (size_nonneg c).
  rewrite app_nth2 by (unfold size in *; lia).
  f_equal. unfold size in *. lia.
Qed.

Lemma readable_skip c rest offset n :
  size c <= offset ->
  readable (c ++ rest) offset n = readable rest (offset - size c) n.
Proof.
  intros H. unfold readable. rewrite size_app.
  pose proof (size_nonneg c). lia.
Qed.

Lemma readUint8_skip c rest offset :
  size c <= offset ->
  readUint8 (c ++ rest) offset = readUint8 rest (offset - size c).
Proof.
  intros. unfold readUint8. rewrite readable_skip, view_skip by lia.
  reflexivity.
Qed.

Lemma readUint16_skip c rest offset :
  size c <= offset ->
  readUint16 (c ++ rest) offset = readUint16 rest (offset - size c).
Proof.
  intros. unfold readUint16. rewrite readable_skip, !view_skip by lia.
  replace (offset + 1 - size c) with (offset - size c + 1) by lia.
  reflexivity.
Qed.

Lemma readInt16_skip c rest offset :
  size c <= offset ->
  readInt16 (c ++ rest) offset = readInt16 rest (offset - size c).
Proof.
  intros. unfold readInt16. rewrite readable_skip, !view_skip by lia.
  replace (offset + 1 - size c) with (offset - size c + 1) by lia.
  reflexivity.
Qed.

Lemma readUint32_skip c rest offset :
  size c <= offset ->
  readUint32 (c ++ rest) offset = readUint32 rest (offset - size c).
Proof.
  intros. unfold readUint32. rewrite readable_skip, !view_skip by lia.
  replace (offset + 1 - size c) with (offset - size c + 1) by lia.
  replace (offset + 2 - size c) with (offset - size c + 2) by lia.
  replace (offset + 3 - size c) with (offset - size c + 3) by lia.
  reflexivity.
Qed.

Lemma readInt32_skip c rest offset :
  size c <= offset ->
  readInt32 (c ++ rest) offset = readInt32 rest (offset - size c).
Proof.
  intros. unfold readInt32. rewrite readUint32_skip by lia. reflexivity.
Qed.

Lemma readUint64_skip c rest offset :
  size c <= offset ->
  readUint64 (c ++ rest) offset = readUint64 rest (offset - size c).
Proof.
  intros. unfold readUint64.
  rewrite readable_skip, !readUint32_skip by lia.
  replace (offset + 4 - size c) with (offset - size c + 4) by lia.
  reflexivity.
Qed.

Lemma readUint24_skip o l c rest offset :
  size c <= offset ->
  readUint24 (over o l (c ++ rest)) offset
  = readUint24 (over o l rest) (offset - size c).
Proof.
  intros. unfold readUint24. on_store. rewrite !readUint8_skip by lia.
  replace (offset + 1 - size c) with (offset - size c + 1) by lia.
  replace (offset + 2 - size c) with (offset - size c + 2) by lia.
  reflexivity.
Qed.

Lemma slice_skip c rest begin end_ :
  size c <= begin ->
  slice (c ++ rest) begin end_ = slice rest (begin - size c) (end_ - size c).
Proof.
  intros H. unfold slice. rewrite size_app.
  pose proof (size_nonneg c).
  replace (0 <=? begin) with true by (symmetry; apply Z.leb_le; lia).
  replace (0 <=? begin - size c) with true by (symmetry; apply Z.leb_le; lia).
  replace (begin - size c <=? end_ - size c) with (begin <=? end_) by lia.
  replace (end_ - size c <=? size rest) with (end_ <=? size c + size rest)
    by lia.
  destruct ((true && (begin <=? end_)) && (end_ <=? size c + size rest));
    [|reflexivity].
  f_equal. replace (end_ - size c - (begin - size c)) with (end_ - begin)
    by lia.
  f_equal. unfold size in *.
  replace (Z.to_nat begin) with (length c + Z.to_nat (begin - Z.of_nat (length c)))%nat
    by lia.
  rewrite skipn_app. rewrite skipn_all2 by lia. simpl.
  f_equal. lia.
Qed.

(** The window that starts at the head of the buffer. *)
Lemma slice_head bs rest end_ :
  end_ = size bs -> slice (bs ++ rest) 0 end_ = Ok bs.
Proof.
  intros ->. unfold slice. rewrite size_app.
  pose proof (size_nonneg bs). pose proof (size_nonneg rest).
  replace (0 <=? size bs) with true by (symmetry; apply Z.leb_le; lia).
  replace (size bs <=? size bs + size rest) with true
    by (symmetry; apply Z.leb_le; lia).
  simpl. rewrite Z.sub_0_r. unfold size. rewrite Nat2Z.id.
  rewrite firstn_app, firstn_all, Nat.sub_diag. simpl.
  rewrite app_nil_r. reflexivity.
Qed.

(** ** The integer readers on explicit bytes *)

Lemma uint24_bytes b0 b1 b2 :
  0 <= b0 < 256 -> 0 <= b1 < 256 -> 0 <= b2 < 256 ->
  js_or (js_or (js_shl b0 16) (js_shl b1 8)) b2
  = b0 * 2^16 + b1 * 2^8 + b2.
Proof.
  intros H0 H1 H2.
  rewrite (js_shl_small b0 16), (js_shl_small b1 8) by (pow2; lia).
  assert (E : js_or (b0 * 2^16) (b1 * 2^8) = b0 * 2^16 + b1 * 2^8).
  { rewrite js_or_small by (pow2; lia). apply lor_mul_add; pow2; lia. }
  rewrite E. rewrite js_or_small by (pow2; lia).
  replace (b0 * 2^16 + b1 * 2^8) with ((b0 * 2^8 + b1) * 2^8) by (pow2; lia).
  apply lor_mul_add; pow2; lia.
Qed.

Lemma readUint8_head b rest : readUint8 (b :: rest) 0 = Ok (Z_of_byte b).
Proof.
  unfold readUint8, readable. rewrite size_cons.
  pose proof (size_nonneg rest).
  replace ((0 <=? 0) && (0 + 1 <=? 1 + size rest)) with true by lia.
  reflexivity.
Qed.

Lemma uint16_bytes b0 b1 :
  0 <= b0 < 256 -> 0 <= b1 < 256 ->
  js_or (js_shl b0 8) b1 = b0 * 2^8 + b1.
Proof.
  intros H0 H1. rewrite js_shl_small by (pow2; lia).
  rewrite js_or_small by (pow2; lia).
  apply lor_mul_add; pow2; lia.
Qed.

Lemma readUint16_head b0 b1 rest :
  readUint16 (b0 :: b1 :: rest) 0
  = Ok (Z_of_byte b0 * 2^8 + Z_of_byte b1).
Proof.
  unfold readUint16, readable. rewrite !size_cons.
  pose proof (size_nonneg rest).
  replace ((0 <=? 0) && (0 + 2 <=? 1 + (1 + size rest))) with true by lia.
  change (view (b0 :: b1 :: rest) 0) with (Z_of_byte b0).
  change (view (b0 :: b1 :: rest) (0 + 1)) with (Z_of_byte b1).
  rewrite uint16_bytes by apply Z_of_byte_range. reflexivity.
Qed.

Lemma readInt16_head b0 b1 rest :
  readInt16 (b0 :: b1 :: rest) 0
  = Ok (int16 (Z_of_byte b0 * 2^8 + Z_of_byte b1)).
Proof.
  unfold readInt16, readable. rewrite !size_cons.
  pose proof (size_nonneg rest).
  replace ((0 <=? 0) && (0 + 2 <=? 1 + (1 + size rest))) with true by lia.
  change (view (b0 :: b1 :: rest) 0) with (Z_of_byte b0).
  change (view (b0 :: b1 :: rest) (0 + 1)) with (Z_of_byte b1).
  pose proof (Z_of_byte_range b0) as H0. pose proof (Z_of_byte_range b1) as H1.
  rewrite uint16_bytes by assumption.
  set (u := Z_of_byte b0 * 2^8 + Z_of_byte b1).
  assert (Hu : 0 <= u < 2^16) by (subst u; pow2; lia).
  f_equal. unfold int16.
  rewrite js_and_small by (pow2; lia).
  change 0x8000 with (2^15).
  assert (Hbit : Z.land u (2^15) = if 2^15 <=? u then 2^15 else 0).
  { replace u with (u / 2^15 * 2^15 + u mod 2^15) at 1
      by (change (2^15) with 32768; Z.to_euclidean_division_equations; lia).
    rewrite <- lor_mul_add
      by (try lia; apply Z.mod_pos_bound; reflexivity).
    rewrite Z.land_lor_distr_l.
    assert (Hlow : Z.land (u mod 2^15) (2^15) = 0).
    { rewrite Z.land_comm. change (2^15) with (Z.shiftl 1 15) at 1.
      apply land_shiftl_small; [lia|]. apply Z.mod_pos_bound. reflexivity. }
    rewrite Hlow, Z.lor_0_r.
    assert (Hq : u / 2^15 = 0 \/ u / 2^15 = 1)
      by (pow2; change (2^15) with 32768; Z.to_euclidean_division_equations; lia).
    destruct Hq as [Hq|Hq]; rewrite Hq;
      destruct (Z.leb_spec (2^15) u); try reflexivity;
      pow2; change (2^15) with 32768 in *;
      Z.to_euclidean_division_equations; lia. }
  rewrite Hbit. destruct (Z.leb_spec (2^15) u).
  - rewrite Z.eqb_refl. pow2. lia.
  - reflexivity.
Qed.

Lemma uint32_bytes b0 b1 b2 b3 :
  0 <= b0 < 256 -> 0 <= b1 < 256 -> 0 <= b2 < 256 -> 0 <= b3 < 256 ->
  js_or (js_or (js_shl b1 16) (js_shl b2 8)) b3
  + js_shru (js_shl b0 24) 0
  = b0 * 2^24 + b1 * 2^16 + b2 * 2^8 + b3.
Proof.
  intros H0 H1 H2 H3.
  rewrite uint24_bytes by assumption.
  assert (E : js_shru (js_shl b0 24) 0 = b0 * 2^24).
  { unfold js_shru, js_shl. rewrite (ToInt32_small b0) by (pow2; lia).
    change (24 mod 32) with 24. change (0 mod 32) with 0.
    rewrite Z.shiftl_mul_pow2, Z.shiftr_0_r by lia.
    unfold ToUint32, ToInt32. euclid. }
  rewrite E. lia.
Qed.

Lemma readUint32_head b0 b1 b2 b3 rest :
  readUint32 (b0 :: b1 :: b2 :: b3 :: rest) 0
  = Ok (Z_of_byte b0 * 2^24 + Z_of_byte b1 * 2^16
        + Z_of_byte b2 * 2^8 + Z_of_byte b3).
Proof.
  unfold readUint32, readable. rewrite !size_cons.
  pose proof (size_nonneg rest).
  replace ((0 <=? 0) && (0 + 4 <=? 1 + (1 + (1 + (1 + size rest)))))
    with true by lia.
  change (view (b0 :: b1 :: b2 :: b3 :: rest) 0) with (Z_of_byte b0).
  change (view (b0 :: b1 :: b2 :: b3 :: rest) (0 + 1)) with (Z_of_byte b1).
  change (view (b0 :: b1 :: b2 :: b3 :: rest) (0 + 2)) with (Z_of_byte b2).
  change (view (b0 :: b1 :: b2 :: b3 :: rest) (0 + 3)) with (Z_of_byte b3).
  cbv zeta. rewrite uint32_bytes by apply Z_of_byte_range. reflexivity.
Qed.

Lemma readInt32_head b0 b1 b2 b3 rest :
  readInt32 (b0 :: b1 :: b2 :: b3 :: rest) 0
  = Ok (ToInt32 (Z_of_byte b0 * 2^24 + Z_of_byte b1 * 2^16
                 + Z_of_byte b2 * 2^8 + Z_of_byte b3)).
Proof.
  unfold readInt32. rewrite readUint32_head. simpl bind.
  unfold js_or. rewrite (ToInt32_small 0) by (pow2; lia).
  rewrite Z.lor_0_r. reflexivity.
Qed.

Lemma readUint24_head o l b0 b1 b2 rest :
  readUint24 (over o l (b0 :: b1 :: b2 :: rest)) 0
  = Ok (Z_of_byte b0 * 2^16 + Z_of_byte b1 * 2^8 + Z_of_byte b2).
Proof.
  assert (R : forall k, 0 <= k < 3 ->
             readable (b0 :: b1 :: b2 :: rest) k 1 = true).
  { intros k Hk. unfold readable. rewrite !size_cons.
    pose proof (size_nonneg rest). lia. }
  unfold readUint24. on_store. unfold readUint8.
  rewrite !R by lia. cbn [bind].
  change (view (b0 :: b1 :: b2 :: rest) 0) with (Z_of_byte b0).
  change (view (b0 :: b1 :: b2 :: rest) (0 + 1)) with (Z_of_byte b1).
  change (view (b0 :: b1 :: b2 :: rest) (0 + 2)) with (Z_of_byte b2).
  cbv zeta.
  pose proof (Z_of_byte_range b0). pose proof (Z_of_byte_range b1).
  pose proof (Z_of_byte_range b2).
  rewrite uint24_bytes by assumption. reflexivity.
Qed.

(** ** Integers written and read back *)

Lemma write_over pre old post bs offset :
  offset = size pre -> length old = length bs ->
  write (pre ++ old ++ post) offset bs = Ok (pre ++ bs ++ post).
Proof.
  intros -> Hlen. unfold write, writable.
  rewrite ensureCapacity_fits
    by (rewrite !size_app; unfold size; rewrite Hlen; lia).
  rewrite size_app.
  pose proof (size_nonneg pre). pose proof (size_nonneg (old ++ post)).
  replace ((0 <=? size pre) && (size pre <=? size pre + size (old ++ post)))
    with true by lia.
  unfold size. rewrite Nat2Z.id, pokes_app by assumption. reflexivity.
Qed.

Lemma writeUint24_bytes value :
  [byte_of_Z (js_shru value 16); byte_of_Z (js_and (js_shru value 8) 0xff);
   byte_of_Z (js_and value 0xff)] = be24 value.
Proof.
  unfold be24. f_equal; [|f_equal; [|f_equal]]; apply byte_of_Z_mod.
  - unfold js_shru, ToUint32. change (16 mod 32) with 16.
    rewrite !Z.shiftr_div_pow2 by lia. euclid.
  - rewrite js_and_0xff. unfold js_shru, ToUint32. change (8 mod 32) with 8.
    rewrite !Z.shiftr_div_pow2 by lia. euclid.
  - rewrite js_and_0xff. euclid.
Qed.

Lemma size_pokes buffer n bs : size (pokes buffer n bs) = size buffer.
Proof. unfold size. rewrite pokes_length. reflexivity. Qed.

(** With room for three bytes, [writeUint24] is one write of three
    bytes. *)
Lemma writeUint24_write buffer value offset :
  0 <= offset -> offset + 3 <= ByteBuffer.capacity buffer ->
  writeUint24 buffer value offset
  = ByteBuffer.write buffer offset (be24 value).
Proof.
  intros H0 H2. rewrite <- writeUint24_bytes.
  destruct buffer as [store o l]. unfold writeUint24. on_store.
  unfold writeUint8, write.
  assert (W : forall b o, 0 <= o <= size store -> size b = size store ->
                          writable b o = true)
    by (intros b o' Ho Hb; unfold writable; rewrite Hb; lia).
  rewrite !(ensureCapacity_fits store)
    by (change (size [_]) with 1; change (size [_; _; _]) with 3; lia).
  rewrite (W store offset) by lia. next.
  rewrite ensureCapacity_fits
    by (rewrite size_pokes; change (size [_]) with 1; lia).
  rewrite W by (try apply size_pokes; lia). next.
  rewrite ensureCapacity_fits
    by (rewrite !size_pokes; change (size [_]) with 1; lia).
  rewrite W by (rewrite ?size_pokes; lia). next.
  replace (Z.to_nat (offset + 1)) with (S (Z.to_nat offset)) by lia.
  replace (Z.to_nat (offset + 2)) with (S (S (Z.to_nat offset))) by lia.
  reflexivity.
Qed.

Lemma writeUint24_over o l pre a b c post value offset :
  offset = size pre ->
  writeUint24 (over o l (pre ++ a :: b :: c :: post)) value offset
  = Ok (over o l (pre ++ be24 value ++ post)).
Proof.
  intros ->. pose proof (size_nonneg pre). pose proof (size_nonneg post).
  rewrite writeUint24_write
    by (on_store; rewrite ?size_app, ?size_cons; lia).
  on_store.
  rewrite (write_over pre [a; b; c] post) by reflexivity. reflexivity.
Qed.

Lemma writeUint24_zeros o l pre k value offset :
  offset = size pre -> (3 <= k)%nat ->
  writeUint24 (over o l (pre ++ repeat x00 k)) value offset
  = Ok (over o l ((pre ++ be24 value) ++ repeat x00 (k - 3))).
Proof.
  intros Hoff Hk. rewrite (repeat_split 3 k) by assumption.
  cbn [repeat app]. rewrite writeUint24_over by assumption.
  rewrite <- app_assoc. reflexivity.
Qed.

Lemma readUint24_be24 o l value rest :
  readUint24 (over o l (be24 value ++ rest)) 0 = Ok (value mod 2^24).
Proof.
  unfold be24. cbn [app]. rewrite readUint24_head, !Z_of_byte_of_Z.
  f_equal. rewrite !Z.shiftr_div_pow2 by lia. euclid.
Qed.

Lemma readUint8_byte value rest :
  readUint8 (byte_of_Z value :: rest) 0 = Ok (value mod 2^8).
Proof. rewrite readUint8_head, Z_of_byte_of_Z. reflexivity. Qed.

Lemma readUint16_be16 value rest :
  readUint16 (be16 value ++ rest) 0 = Ok (value mod 2^16).
Proof.
  unfold be16. cbn [app]. rewrite readUint16_head, !Z_of_byte_of_Z.
  f_equal. rewrite !Z.shiftr_div_pow2 by lia. euclid.
Qed.

Lemma readInt16_be16 value rest :
  readInt16 (be16 value ++ rest) 0 = Ok (int16 (value mod 2^16)).
Proof.
  unfold be16. cbn [app]. rewrite readInt16_head, !Z_of_byte_of_Z.
  do 2 f_equal. rewrite !Z.shiftr_div_pow2 by lia. euclid.
Qed.

Lemma readUint32_be32 value rest :
  readUint32 (be32 value ++ rest) 0 = Ok (value mod 2^32).
Proof.
  unfold be32. cbn [app]. rewrite readUint32_head, !Z_of_byte_of_Z.
  f_equal. rewrite !Z.shiftr_div_pow2 by lia. euclid.
Qed.

Lemma readInt32_be32 value rest :
  readInt32 (be32 value ++ rest) 0 = Ok (ToInt32 value).
Proof.
  unfold readInt32. rewrite readUint32_be32. cbn [bind].
  unfold js_or. rewrite (ToInt32_small 0) by (pow2; lia).
  rewrite Z.lor_0_r. f_equal. unfold ToInt32. euclid.
Qed.

Lemma readUint64_be64 value rest :
  readUint64 (be64 value ++ rest) 0 = Ok (toNumber (value mod 2^64)).
Proof.
  unfold be64, readUint64, readable. rewrite !size_app, !size_be32.
  pose proof (size_nonneg rest).
  replace ((0 <=? 0) && (0 + 8 <=? 4 + 4 + size rest)) with true by lia.
  rewrite <- app_assoc, readUint32_be32. cbn [bind].
  rewrite readUint32_skip by (rewrite size_be32; lia).
  rewrite size_be32. change (0 + 4 - 4) with 0.
  rewrite readUint32_be32. cbn [bind]. do 2 f_equal.
  rewrite Z.shiftr_div_pow2 by lia.
  change (2^64) with 18446744073709551616. euclid.
Qed.

(** ** The 24-bit integers of RSocketBufferUtils *)

Lemma js_and_0xFFFFFF value : js_and value 0xFFFFFF = value mod 2^24.
Proof.
  unfold js_and. rewrite (ToInt32_small 0xFFFFFF) by (pow2; lia).
  rewrite (land_ones_mod _ 24) by lia. unfold ToInt32. euclid.
Qed.

Lemma be24_mod value : be24 (value mod 2^24) = be24 value.
Proof.
  unfold be24. rewrite !Z.shiftr_div_pow2 by lia.
  f_equal; [|f_equal; [|f_equal]]; apply byte_of_Z_mod; euclid.
Qed.

Lemma view_0 x rest : view (x :: rest) 0 = Z_of_byte x.
Proof. reflexivity. Qed.

Lemma view_1 x y rest : view (x :: y :: rest) 1 = Z_of_byte y.
Proof. reflexivity. Qed.

Lemma view_2 x y z rest : view (x :: y :: z :: rest) 2 = Z_of_byte z.
Proof. reflexivity. Qed.

(** C7.  On a buffer with room for three bytes, [writeUint24] at offset 0
    followed by [readUint24] at offset 0 gives back every [n] with
    [0 <= n < 2^24]; the bytes stored are the big-endian digits of [n],
    most significant first; and for an arbitrary value the bytes stored are
    those of [value & 0xFFFFFF], which is what is read back. *)
Theorem writeUint24_readUint24 (buffer : ByteBuffer.t) :
  3 <= ByteBuffer.capacity buffer ->
  (forall n, 0 <= n < 2^24 ->
     exists buffer',
       writeUint24 buffer n 0 = Ok buffer'
       /\ readUint24 buffer' 0 = Ok n
       /\ view (ByteBuffer.store buffer') 0 = n / 2^16
       /\ view (ByteBuffer.store buffer') 1 = (n / 2^8) mod 2^8
       /\ view (ByteBuffer.store buffer') 2 = n mod 2^8
       /\ skipn 3 (ByteBuffer.store buffer')
          = skipn 3 (ByteBuffer.store buffer))
  /\ (forall value,
        exists buffer',
          writeUint24 buffer value 0 = Ok buffer'
          /\ writeUint24 buffer (js_and value 0xFFFFFF) 0 = Ok buffer'
          /\ readUint24 buffer' 0 = Ok (js_and value 0xFFFFFF)).
Proof.
  intros Hlimit. destruct buffer as [store o l]. on_store.
  destruct store as [|a [|b [|c post]]];
    try (rewrite ?size_cons, ?size_nil in Hlimit; lia).
  assert (W : forall value,
             writeUint24 (over o l (a :: b :: c :: post)) value 0
             = Ok (over o l (be24 value ++ post)))
    by (intros value; apply (writeUint24_over o l [] a b c post value 0);
        reflexivity).
  split.
  - intros n Hn. exists (over o l (be24 n ++ post)).
    rewrite W, readUint24_be24.
    rewrite (Z.mod_small n) by lia.
    unfold be24. cbn [app ByteBuffer.store].
    rewrite view_0, view_1, view_2.
    rewrite !Z_of_byte_of_Z, !Z.shiftr_div_pow2 by lia.
    repeat split. euclid.
  - intros value. exists (over o l (be24 value ++ post)).
    rewrite !W, readUint24_be24, js_and_0xFFFFFF, be24_mod.
    repeat split.
Qed.

(** A run of C7 on a six-byte buffer. *)
Lemma writeUint24_readUint24_witness :
  let buffer := ByteBuffer.wrap (repeat x00 6) in
  (forall n, 0 <= n < 2^24 ->
     exists buffer',
       writeUint24 buffer n 0 = Ok buffer'
       /\ readUint24 buffer' 0 = Ok n
       /\ view (ByteBuffer.store buffer') 0 = n / 2^16
       /\ view (ByteBuffer.store buffer') 1 = (n / 2^8) mod 2^8
       /\ view (ByteBuffer.store buffer') 2 = n mod 2^8
       /\ skipn 3 (ByteBuffer.store buffer')
          = skipn 3 (ByteBuffer.store buffer))
  /\ (forall value,
        exists buffer',
          writeUint24 buffer value 0 = Ok buffer'
          /\ writeUint24 buffer (js_and value 0xFFFFFF) 0 = Ok buffer'
          /\ readUint24 buffer' 0 = Ok (js_and value 0xFFFFFF)).
Proof.
  apply (writeUint24_readUint24 (ByteBuffer.wrap (repeat x00 6))).
  vm_compute. discriminate.
Defined.

(** ** The frame header *)

Lemma size_headerBytes frame : size (headerBytes frame) = 6.
Proof. reflexivity. Qed.

Lemma writeHeader_over o l frame old post :
  length old = 6%nat ->
  writeHeader frame (over o l (old ++ post))
  = Ok (over o l (headerBytes frame ++ post), FRAME_HEADER_SIZE).
Proof.
  intros Hlen.
  destruct old as [|o0 [|o1 [|o2 [|o3 [|o4 [|o5 [|]]]]]]]; try discriminate.
  unfold writeHeader. on_store. unfold writeInt32, writeUint16.
  cbn [app].
  rewrite (write_over [] [o0; o1; o2; o3] (o4 :: o5 :: post)) by reflexivity.
  cbn [app]. next.
  rewrite (write_over (be32 _) [o4; o5] post) by reflexivity.
  next. unfold headerBytes. rewrite <- app_assoc. reflexivity.
Qed.

Lemma writeHeader_zeros o l frame k :
  (6 <= k)%nat ->
  writeHeader frame (over o l (repeat x00 k))
  = Ok (over o l (headerBytes frame ++ repeat x00 (k - 6)),
        FRAME_HEADER_SIZE).
Proof.
  intros Hk. rewrite (repeat_split 6 k) by assumption.
  apply writeHeader_over. reflexivity.
Qed.

Lemma header_word type flags :
  0 <= type <= 63 -> 0 <= flags <= 1023 ->
  js_or (js_shl type FRAME_TYPE_OFFFSET) (js_and flags FLAGS_MASK)
  = type * 2^10 + flags.
Proof.
  intros Ht Hf. unfold FRAME_TYPE_OFFFSET.
  rewrite js_and_FLAGS_MASK, (Z.mod_small flags) by lia.
  rewrite js_shl_small by (pow2; lia).
  rewrite js_or_small by (pow2; lia).
  apply lor_mul_add; lia.
Qed.

Lemma js_shru_FRAME_TYPE_OFFFSET word :
  0 <= word < 2^32 -> js_shru word FRAME_TYPE_OFFFSET = word / 2^10.
Proof.
  intros. unfold js_shru, FRAME_TYPE_OFFFSET. change (10 mod 32) with 10.
  rewrite ToUint32_small by assumption. apply Z.shiftr_div_pow2. lia.
Qed.

(** C6.  For a frame whose type is in [0, 63] and whose flags are in
    [0, 1023], [writeHeader] stores at offset 4 the 16-bit big-endian word
    [(type << 10) | flags], and the reader's [word >>> 10] and
    [word & 0x3FF] recover exactly the type and the flags. *)
Theorem writeHeader_packs_type_and_flags (frame : Frame)
    (buffer : ByteBuffer.t) :
  0 <= Field.type frame <= 63 ->
  0 <= Field.flags frame <= 1023 ->
  FRAME_HEADER_SIZE <= ByteBuffer.capacity buffer ->
  let word := js_or (js_shl (Field.type frame) 10) (Field.flags frame) in
  exists buffer',
    writeHeader frame buffer = Ok (buffer', FRAME_HEADER_SIZE)
    /\ view (ByteBuffer.store buffer') 4 = word / 2^8
    /\ view (ByteBuffer.store buffer') 5 = word mod 2^8
    /\ ByteBuffer.readUint16 buffer' 4 = Ok word
    /\ js_shru word FRAME_TYPE_OFFFSET = Field.type frame
    /\ js_and word FLAGS_MASK = Field.flags frame.
Proof.
  intros Ht Hf Hlimit word. destruct buffer as [buffer o l]. on_store.
  assert (Hword : word = Field.type frame * 2^10 + Field.flags frame).
  { subst word. rewrite <- header_word by assumption.
    rewrite js_and_FLAGS_MASK, (Z.mod_small (Field.flags frame)) by lia.
    reflexivity. }
  assert (Hsplit : exists old post,
             buffer = old ++ post /\ length old = 6%nat).
  { exists (firstn 6 buffer), (skipn 6 buffer).
    rewrite firstn_skipn, firstn_length_le;
      [auto | unfold size, FRAME_HEADER_SIZE in Hlimit; lia]. }
  destruct Hsplit as (old & post & -> & Hold).
  exists (over o l (headerBytes frame ++ post)).
  rewrite writeHeader_over by assumption. on_store.
  unfold headerBytes. rewrite header_word, <- Hword by assumption.
  assert (Hrange : 0 <= word < 2^16) by (rewrite Hword; pow2; lia).
  split; [reflexivity|].
  split; [|split; [|split; [|split]]].
  - rewrite <- app_assoc, view_skip by (rewrite size_be32; lia).
    rewrite size_be32. change (4 - 4) with 0. unfold be16. cbn [app].
    rewrite view_0, Z_of_byte_of_Z, Z.shiftr_div_pow2 by lia. euclid.
  - rewrite <- app_assoc, view_skip by (rewrite size_be32; lia).
    rewrite size_be32. change (5 - 4) with 1. unfold be16. cbn [app].
    rewrite view_1, Z_of_byte_of_Z. reflexivity.
  - rewrite <- app_assoc, readUint16_skip by (rewrite size_be32; lia).
    rewrite size_be32. change (4 - 4) with 0.
    rewrite readUint16_be16, Z.mod_small by lia. reflexivity.
  - rewrite js_shru_FRAME_TYPE_OFFFSET by (pow2; lia).
    rewrite Hword. change (2^10) with 1024. Z.to_euclidean_division_equations. lia.
  - rewrite js_and_FLAGS_MASK, Hword. change (2^10) with 1024.
    Z.to_euclidean_division_equations. lia.
Qed.

(** C6 on the header of a REQUEST_N frame of stream 42 with flags 0x155. *)
Lemma writeHeader_packs_type_and_flags_witness :
  let frame := RequestNFrame 0x155 16 42 in
  let word := js_or (js_shl (Field.type frame) 10) (Field.flags frame) in
  exists buffer',
    writeHeader frame (ByteBuffer.wrap (repeat x00 10))
    = Ok (buffer', FRAME_HEADER_SIZE)
    /\ view (ByteBuffer.store buffer') 4 = word / 2^8
    /\ view (ByteBuffer.store buffer') 5 = word mod 2^8
    /\ ByteBuffer.readUint16 buffer' 4 = Ok word
    /\ js_shru word FRAME_TYPE_OFFFSET = Field.type frame
    /\ js_and word FLAGS_MASK = Field.flags frame.
Proof.
  apply (writeHeader_packs_type_and_flags (RequestNFrame 0x155 16 42)
           (ByteBuffer.wrap (repeat x00 10)));
    vm_compute; intuition discriminate.
Defined.

(** ** The two standard encoders *)

Lemma size_encodeCodePoint cp :
  size (encodeCodePoint cp) = calculateCodePoint cp.
Proof.
  unfold encodeCodePoint, calculateCodePoint.
  destruct (cp <? 0x80); [reflexivity|].
  destruct (cp <? 0x800); [reflexivity|].
  destruct (cp <? 0x10000); reflexivity.
Qed.

Lemma size_encodeUTF8 str : size (encodeUTF8 str) = calculateUTF8Bytes str.
Proof.
  induction str as [|cp rest IH]; [reflexivity|].
  cbn [encodeUTF8 calculateUTF8Bytes].
  rewrite size_app, size_encodeCodePoint, IH. reflexivity.
Qed.

Lemma UTF8Encoder_encode s buffer offset :
  Encoder.encode UTF8Encoder (EString s) buffer offset
  = (buffer' <- ByteBuffer.write buffer offset (encodeUTF8 s) ;;
     Ok (buffer', offset + size (encodeUTF8 s))).
Proof.
  cbn [Encoder.encode UTF8Encoder]. unfold ByteBuffer.writeUTF8String.
  destruct (ByteBuffer.write buffer offset (encodeUTF8 s)); cbn [bind];
    [|reflexivity].
  do 2 f_equal. lia.
Qed.

(** The bytes [BufferEncoder] copies: those in front of the limit. *)
Lemma size_firstn_limit b :
  0 <= ByteBuffer.limit b <= ByteBuffer.capacity b ->
  size (firstn (Z.to_nat (ByteBuffer.limit b)) (ByteBuffer.store b))
  = ByteBuffer.limit b.
Proof.
  unfold ByteBuffer.capacity, size. intros H. rewrite length_firstn. lia.
Qed.

Lemma BufferEncoder_encode b buffer offset :
  0 <= ByteBuffer.limit b <= ByteBuffer.capacity b ->
  let bs := firstn (Z.to_nat (ByteBuffer.limit b)) (ByteBuffer.store b) in
  Encoder.encode BufferEncoder (EByteBuffer b) buffer offset
  = (buffer' <- ByteBuffer.write buffer offset bs ;;
     Ok (buffer', offset + size bs)).
Proof.
  intros Hb bs. subst bs. rewrite size_firstn_limit by assumption.
  cbn [Encoder.encode BufferEncoder].
  unfold ByteBuffer.copyTo, copyTo. on_store. unfold write, writable.
  replace ((0 <? 0) || (size (ByteBuffer.store b) <? ByteBuffer.limit b))
    with false by lia.
  rewrite size_firstn_limit by assumption.
  rewrite Z.sub_0_r. cbn [skipn Z.to_nat].
  destruct (Z.ltb_spec offset 0), (Z.leb_spec 0 offset); try lia;
    cbn [orb andb bind]; [reflexivity|].
  destruct (Z.ltb_spec (size (ByteBuffer.store buffer)) offset),
    (Z.leb_spec offset (size (ByteBuffer.store buffer))); try lia;
    reflexivity.
Qed.

(** What a write leaves in the store: the bytes in front of the offset,
    the bytes written, and what follows them in the store, grown when the
    bytes end past it. *)
Lemma write_result store offset bs :
  writable store offset = true ->
  write store offset bs
  = Ok (firstn (Z.to_nat offset) store ++ bs
        ++ skipn (Z.to_nat (offset + size bs))
             (ensureCapacity store (offset + size bs))).
Proof.
  intros Hw. unfold write. rewrite Hw. f_equal.
  unfold writable in Hw.
  assert (Hoff : 0 <= offset <= size store) by lia.
  pose proof (size_nonneg bs) as Hbs.
  set (grown := ensureCapacity store (offset + size bs)).
  assert (Hsize : offset + size bs <= size grown).
  { subst grown. rewrite ensureCapacity_size.
    destruct (Z.ltb_spec (size store) (offset + size bs)); lia. }
  assert (Hpre : firstn (Z.to_nat offset) grown
                 = firstn (Z.to_nat offset) store).
  { subst grown. unfold ensureCapacity.
    destruct (size store <? offset + size bs); [|reflexivity].
    rewrite firstn_app.
    replace (Z.to_nat offset - length store)%nat with 0%nat
      by (unfold size in *; lia).
    cbn [firstn]. apply app_nil_r. }
  rewrite <- Hpre.
  set (pre := firstn (Z.to_nat offset) grown).
  set (old := firstn (length bs) (skipn (Z.to_nat offset) grown)).
  replace (skipn (Z.to_nat (offset + size bs)) grown)
    with (skipn (length bs) (skipn (Z.to_nat offset) grown))
    by (rewrite skipn_skipn; f_equal; unfold size; lia).
  set (post := skipn (length bs) (skipn (Z.to_nat offset) grown)).
  assert (Hgrown : grown = pre ++ old ++ post)
    by (subst pre old post; rewrite !firstn_skipn; reflexivity).
  assert (Hlen : length pre = Z.to_nat offset)
    by (subst pre; unfold size in *; rewrite length_firstn; lia).
  assert (Hold : length old = length bs)
    by (subst old; unfold size in *;
        rewrite length_firstn, length_skipn; lia).
  rewrite Hgrown at 1. rewrite <- Hlen. apply pokes_app. assumption.
Qed.

(** C9.  For the UTF-8 encoder and the buffer encoder, and every value the
    encoder accepts (so that [byteLength] returns some [n]), the value has
    [n] bytes: the UTF-8 form of a string, the bytes of a buffer in front
    of its limit.  At an offset inside the target, [encode] returns that
    offset plus [n] and it has stored exactly these [n] bytes, at the
    offset, whatever the target held: the store of the target is then its
    bytes in front of the offset, the [n] bytes of the value, and what
    followed them (in the store grown by the library when the bytes end
    past it); the marks of the target stay.  At any other offset [encode]
    throws. *)
Theorem encode_writes_byteLength (encoder : Encoder.t) (value : Encodable)
    (buffer : ByteBuffer.t) (offset n : Z) :
  encoder = UTF8Encoder \/ encoder = BufferEncoder ->
  Encoder.byteLength encoder value = Ok n ->
  (forall b, value = EByteBuffer b -> marked b) ->
  let bytes := standardBytes (Some value) in
  size bytes = n
  /\ (writable (ByteBuffer.store buffer) offset = true ->
      exists buffer',
        Encoder.encode encoder value buffer offset
        = Ok (buffer', offset + n)
        /\ ByteBuffer.store buffer'
           = firstn (Z.to_nat offset) (ByteBuffer.store buffer) ++ bytes
             ++ skipn (Z.to_nat (offset + n))
                  (ensureCapacity (ByteBuffer.store buffer) (offset + n))
        /\ slice (ByteBuffer.store buffer') offset (offset + n) = Ok bytes
        /\ ByteBuffer.offset buffer' = ByteBuffer.offset buffer
        /\ ByteBuffer.limit buffer' = ByteBuffer.limit buffer)
  /\ (writable (ByteBuffer.store buffer) offset = false ->
      Encoder.encode encoder value buffer offset = Throw RangeError)
  /\ (forall buffer' offset',
        Encoder.encode encoder value buffer offset = Ok (buffer', offset') ->
        offset' - offset = n).
Proof.
  intros Hencoder Hlen Hmarked bytes.
  assert (Hbytes :
            size bytes = n
            /\ Encoder.encode encoder value buffer offset
               = (buffer' <- ByteBuffer.write buffer offset bytes ;;
                  Ok (buffer', offset + size bytes))).
  { subst bytes. destruct Hencoder as [-> | ->].
    - destruct value as [s| |]; try discriminate.
      cbn [Encoder.byteLength UTF8Encoder] in Hlen. injection Hlen as <-.
      cbn [standardBytes]. split; [apply size_encodeUTF8|].
      apply UTF8Encoder_encode.
    - destruct value as [|b|]; try discriminate.
      cbn [Encoder.byteLength BufferEncoder] in Hlen. injection Hlen as <-.
      destruct (Hmarked b eq_refl) as [Hoffset Hlimit].
      cbn [standardBytes].
      split; [apply size_firstn_limit; lia|].
      apply BufferEncoder_encode. lia. }
  destruct Hbytes as [Hn Hencode]. split; [exact Hn|]. rewrite Hencode.
  destruct buffer as [store o l]. on_store.
  split; [|split].
  - intros Hw. rewrite (write_result store offset bytes Hw), Hn. next.
    eexists. split; [reflexivity|]. cbn [ByteBuffer.store].
    split; [reflexivity|]. split; [|split; reflexivity].
    unfold writable in Hw. pose proof (size_nonneg bytes).
    set (post := skipn _ _).
    assert (Hpre : size (firstn (Z.to_nat offset) store) = offset)
      by (unfold size; rewrite length_firstn; unfold size in Hw; lia).
    rewrite slice_skip by lia. rewrite Hpre, Z.sub_diag.
    apply slice_head. lia.
  - intros Hw. unfold write. rewrite Hw. reflexivity.
  - intros buffer' offset' Hok. unfold write in Hok.
    destruct (writable store offset); cbn [bind] in Hok; [|discriminate].
    injection Hok as _ <-. lia.
Qed.

(** C9 on a buffer value with the bytes 01 02 03 04, offset 1 and limit 3,
    stored at offset 2 of a buffer of six bytes ff: the three bytes in
    front of the limit are stored, and the other bytes of the target
    stay. *)
Lemma encode_writes_byteLength_witness :
  let value :=
    EByteBuffer {| ByteBuffer.store := [x01; x02; x03; x04];
                   ByteBuffer.offset := 1; ByteBuffer.limit := 3 |} in
  exists buffer',
    Encoder.encode BufferEncoder value (ByteBuffer.wrap (repeat xff 6)) 2
    = Ok (buffer', 2 + 3)
    /\ ByteBuffer.store buffer' = [xff; xff; x01; x02; x03; xff].
Proof.
  intros value.
  destruct (encode_writes_byteLength BufferEncoder value
              (ByteBuffer.wrap (repeat xff 6)) 2 3)
    as (_ & Hencode & _).
  - right. reflexivity.
  - reflexivity.
  - intros b [= <-]. vm_compute. intuition discriminate.
  - destruct (Hencode eq_refl) as (buffer' & Hok & Hstore & _).
    exists buffer'. split; [exact Hok | exact Hstore].
Defined.

(** ** Checks of the parser *)

Lemma slice_not_invariant buffer begin end_ :
  slice buffer begin end_ <> Throw InvariantViolation.
Proof.
  unfold slice.
  destruct ((0 <=? begin) && (begin <=? end_) && (end_ <=? size buffer));
    discriminate.
Qed.


Lemma ByteBuffer_slice_not_invariant buffer begin end_ :
  ByteBuffer.slice buffer begin end_ <> Throw InvariantViolation.
Proof.
  unfold ByteBuffer.slice.
  destruct ((0 <=? begin) && (begin <=? end_)
            && (end_ <=? ByteBuffer.capacity buffer));
    discriminate.
Qed.

Lemma toUTF8_not_invariant buffer :
  ByteBuffer.toUTF8 buffer <> Throw InvariantViolation.
Proof.
  unfold ByteBuffer.toUTF8.
  pose proof (slice_not_invariant (ByteBuffer.store buffer)
                (ByteBuffer.offset buffer) (ByteBuffer.limit buffer)).
  destruct (slice _ _ _); cbn [bind]; congruence.
Qed.

Lemma UTF8Encoder_decodeSafe : decodeSafe UTF8Encoder.
Proof.
  intros buffer start end_. cbn [Encoder.decode UTF8Encoder].
  pose proof (ByteBuffer_slice_not_invariant buffer start end_).
  destruct (ByteBuffer.slice buffer start end_) as [window|e]; cbn [bind];
    [|congruence].
  pose proof (toUTF8_not_invariant window).
  destruct (ByteBuffer.toUTF8 window); cbn [bind]; congruence.
Qed.

Lemma BufferEncoder_decodeSafe : decodeSafe BufferEncoder.
Proof.
  intros buffer start end_. cbn [Encoder.decode BufferEncoder].
  pose proof (ByteBuffer_slice_not_invariant buffer start end_).
  destruct (ByteBuffer.slice buffer start end_); cbn [bind]; congruence.
Qed.

Lemma Utf8Encoders_decodersSafe : decodersSafe Utf8Encoders.
Proof. repeat split; apply UTF8Encoder_decodeSafe. Qed.

Lemma BufferEncoders_decodersSafe : decodersSafe BufferEncoders.
Proof.
  repeat split;
    first [apply UTF8Encoder_decodeSafe | apply BufferEncoder_decodeSafe].
Qed.

(** The readers of the buffer library throw [RangeError] only. *)
Lemma readUint8_not_invariant buffer offset :
  readUint8 buffer offset <> Throw InvariantViolation.
Proof. unfold readUint8. destruct (readable buffer offset 1); discriminate. Qed.

Lemma readUint24_not_invariant buffer offset :
  readUint24 buffer offset <> Throw InvariantViolation.
Proof.
  destruct buffer as [buffer o l]. unfold readUint24. on_store.
  unfold readUint8.
  destruct (readable buffer offset 1); cbn [bind]; [|discriminate].
  destruct (readable buffer (offset + 1) 1); cbn [bind]; [|discriminate].
  destruct (readable buffer (offset + 2) 1); discriminate.
Qed.

Lemma readPayload_not_invariant buffer frame encoders offset :
  decodersSafe encoders ->
  readPayload buffer frame encoders offset <> Throw InvariantViolation.
Proof.
  intros (Hdata & _ & _ & Hmeta & _ & _). unfold readPayload.
  assert (Hdata' : forall frame offset,
             (if offset <? ByteBuffer.limit buffer then
                data <- Encoder.decode (Encoders.data encoders) buffer offset
                          (ByteBuffer.limit buffer) ;;
                Ok (Field.set_data frame data)
              else Ok frame) <> Throw InvariantViolation).
  { intros f o. destruct (o <? ByteBuffer.limit buffer); [|discriminate].
    pose proof (Hdata buffer o (ByteBuffer.limit buffer)).
    destruct (Encoder.decode _ buffer o (ByteBuffer.limit buffer)); cbn [bind];
      congruence. }
  destruct (isMetadata (Field.flags frame)); cbn [bind]; [|apply Hdata'].
  pose proof (readUint24_not_invariant buffer offset).
  destruct (readUint24 buffer offset) as [metaLength|e]; cbn [bind];
    [|congruence].
  destruct (0 <? metaLength); cbn [bind]; [|apply Hdata'].
  pose proof (Hmeta buffer (offset + UINT24_SIZE)
                (offset + UINT24_SIZE + metaLength)).
  destruct (Encoder.decode _ buffer _ _); cbn [bind]; [apply Hdata'|].
  congruence.
Qed.

(** Decide the comparisons between frame type constants in the goal. *)
Ltac decide_types :=
  repeat match goal with
    | |- context [?a =? ?b] =>
        let v := eval vm_compute in (a =? b) in
        match v with
        | true => change (a =? b) with true
        | false => change (a =? b) with false
        end
    end;
  cbn [orb andb]; cbv iota.

Lemma invariant_false : invariant false = Throw InvariantViolation.
Proof. reflexivity. Qed.

Lemma invariant_true : invariant true = Ok tt.
Proof. reflexivity. Qed.

(** C8.  For a REQUEST_STREAM, REQUEST_CHANNEL or REQUEST_N frame whose
    requestN, read as a signed 32-bit big-endian integer at offset 6, is
    not positive, parsing throws an invariant violation; when requestN and
    the stream id are both positive no invariant violation is thrown (and
    a REQUEST_N frame is returned as such). *)
Theorem requestN_must_be_positive (buffer : ByteBuffer.t)
    (encoders : option Encoders.t) (streamId typeAndFlags requestN : Z) :
  ByteBuffer.readInt32 buffer 0 = Ok streamId ->
  ByteBuffer.readUint16 buffer 4 = Ok typeAndFlags ->
  In (js_shru typeAndFlags FRAME_TYPE_OFFFSET)
     [FRAME_TYPES.REQUEST_STREAM; FRAME_TYPES.REQUEST_CHANNEL;
      FRAME_TYPES.REQUEST_N] ->
  ByteBuffer.readInt32 buffer FRAME_HEADER_SIZE = Ok requestN ->
  decodersSafe (orUtf8Encoders encoders) ->
  (requestN <= 0 ->
   deserializeFrame buffer encoders = Throw InvariantViolation)
  /\ (0 < requestN -> 0 < streamId ->
      deserializeFrame buffer encoders <> Throw InvariantViolation
      /\ (js_shru typeAndFlags FRAME_TYPE_OFFFSET = FRAME_TYPES.REQUEST_N ->
          deserializeFrame buffer encoders
          = Ok (RequestNFrame (js_and typeAndFlags FLAGS_MASK) requestN
                  streamId))).
Proof.
  intros Hsid Hword Htype Hn Hsafe.
  unfold deserializeFrame. rewrite Hsid. cbn [bind]. change (0 + 4) with 4.
  rewrite Hword.
  set (flags := js_and typeAndFlags FLAGS_MASK).
  split.
  - intros Hle.
    destruct (Z.leb_spec 0 streamId) as [Hs|Hs]; [|reflexivity].
    cbn [invariant bind].
    destruct Htype as [<- | [<- | [<- | []]]]; decide_types;
      unfold deserializeRequestStreamFrame, deserializeRequestChannelFrame,
        deserializeRequestNFrame;
      (destruct (Z.ltb_spec 0 streamId); [|reflexivity]);
      cbn [invariant bind]; rewrite Hn; cbn [bind];
      (destruct (Z.ltb_spec 0 requestN); [lia | reflexivity]).
  - intros Hpos Hspos.
    replace (0 <=? streamId) with true by lia. cbn [invariant bind].
    split.
    + destruct Htype as [<- | [<- | [<- | []]]]; decide_types;
        unfold deserializeRequestStreamFrame, deserializeRequestChannelFrame,
          deserializeRequestNFrame;
        replace (0 <? streamId) with true by lia;
        cbn [invariant bind]; rewrite Hn; cbn [bind];
        replace (0 <? requestN) with true by lia; cbn [invariant bind];
        try discriminate; apply readPayload_not_invariant; assumption.
    + intros ->. decide_types. unfold deserializeRequestNFrame.
      replace (0 <? streamId) with true by lia.
      cbn [invariant bind]. rewrite Hn. cbn [bind].
      replace (0 <? requestN) with true by lia. reflexivity.
Qed.

(** C8 on two REQUEST_N frames of stream 42: requestN = 0 is rejected,
    requestN = 16 is read. *)
Lemma requestN_must_be_positive_witness :
  deserializeFrame (ByteBuffer.wrap [x00; x00; x00; x2a; x20; x00; x00; x00; x00; x00]) None
  = Throw InvariantViolation
  /\ deserializeFrame (ByteBuffer.wrap [x00; x00; x00; x2a; x20; x00; x00; x00; x00; x10]) None
     = Ok (RequestNFrame 0 16 42).
Proof.
  split.
  - apply (requestN_must_be_positive
             (ByteBuffer.wrap [x00; x00; x00; x2a; x20; x00; x00; x00; x00; x00])
             None 42 0x2000 0); try reflexivity.
    + right. right. left. reflexivity.
    + apply Utf8Encoders_decodersSafe.
  - apply (requestN_must_be_positive
             (ByteBuffer.wrap [x00; x00; x00; x2a; x20; x00; x00; x00; x00; x10])
             None 42 0x2000 16); try reflexivity.
    + right. right. left. reflexivity.
    + apply Utf8Encoders_decodersSafe.
Defined.

Lemma bind_not_invariant {A B : Type} (c : result A) (k : A -> result B) :
  c <> Throw InvariantViolation ->
  (forall a, k a <> Throw InvariantViolation) ->
  bind c k <> Throw InvariantViolation.
Proof. intros Hc Hk. destruct c; cbn [bind]; [apply Hk | congruence]. Qed.

Lemma readUint16_not_invariant buffer offset :
  readUint16 buffer offset <> Throw InvariantViolation.
Proof.
  unfold readUint16. destruct (readable buffer offset 2); discriminate.
Qed.

Lemma readUint32_not_invariant buffer offset :
  readUint32 buffer offset <> Throw InvariantViolation.
Proof.
  unfold readUint32. destruct (readable buffer offset 4); discriminate.
Qed.

Lemma readUint32_readable buffer offset value :
  readUint32 buffer offset = Ok value -> readable buffer offset 4 = true.
Proof.
  unfold readUint32. destruct (readable buffer offset 4);
    [reflexivity | discriminate].
Qed.

Lemma readInt32_readable buffer offset value :
  readInt32 buffer offset = Ok value -> readable buffer offset 4 = true.
Proof.
  unfold readInt32. intros H.
  destruct (readUint32 buffer offset) eqn:E; [|discriminate].
  eapply readUint32_readable. eassumption.
Qed.

Lemma readUint16_readable buffer offset :
  readable buffer offset 2 = true ->
  exists value, readUint16 buffer offset = Ok value.
Proof. intros H. unfold readUint16. rewrite H. eexists. reflexivity. Qed.

(** C4.  For a SETUP frame long enough to hold its fixed fields, parsing
    throws an invariant violation exactly when one of these fails: the
    stream id is 0; the keepAlive and the lifetime (signed 32-bit values at
    offsets 10 and 14) lie between 0 and MAX_KEEPALIVE, MAX_LIFETIME; the
    resume token length (the signed 16-bit value at offset 18) lies between
    0 and MAX_RESUME_LENGTH. *)
Theorem setup_parse_checks (buffer : ByteBuffer.t)
    (encoders : option Encoders.t)
    (streamId typeAndFlags keepAlive lifetime resumeTokenLength : Z) :
  ByteBuffer.readInt32 buffer 0 = Ok streamId ->
  ByteBuffer.readUint16 buffer 4 = Ok typeAndFlags ->
  js_shru typeAndFlags FRAME_TYPE_OFFFSET = FRAME_TYPES.SETUP ->
  ByteBuffer.readInt32 buffer 10 = Ok keepAlive ->
  ByteBuffer.readInt32 buffer 14 = Ok lifetime ->
  ByteBuffer.readInt16 buffer 18 = Ok resumeTokenLength ->
  decodersSafe (orUtf8Encoders encoders) ->
  deserializeFrame buffer encoders = Throw InvariantViolation
  <-> ~ (streamId = 0
         /\ 0 <= keepAlive <= MAX_KEEPALIVE
         /\ 0 <= lifetime <= MAX_LIFETIME
         /\ 0 <= resumeTokenLength <= MAX_RESUME_LENGTH).
Proof.
  intros Hsid Hword Htype Hka Hlt Hrt Hsafe.
  unfold deserializeFrame. rewrite Hsid. cbn [bind]. change (0 + 4) with 4.
  rewrite Hword.
  destruct (Z.leb_spec 0 streamId); cbn [invariant bind];
    [|split; [lia | reflexivity]].
  rewrite Htype. decide_types.
  pose proof (readInt32_readable _ _ _ Hka) as Hlen.
  assert (R6 : readable (ByteBuffer.store buffer) 6 2 = true)
    by (unfold readable in *; lia).
  assert (R8 : readable (ByteBuffer.store buffer) 8 2 = true)
    by (unfold readable in *; lia).
  destruct (readUint16_readable _ _ R6) as (majorVersion & Hmaj).
  destruct (readUint16_readable _ _ R8) as (minorVersion & Hmin).
  fold (ByteBuffer.readUint16 buffer 6) in Hmaj.
  fold (ByteBuffer.readUint16 buffer 8) in Hmin.
  unfold deserializeSetupFrame, FRAME_HEADER_SIZE.
  change (6 + 2) with 8. change (8 + 2) with 10. change (10 + 4) with 14.
  change (14 + 4) with 18.
  rewrite Hmaj, Hmin, Hka, Hlt, Hrt.
  unfold MAX_KEEPALIVE, MAX_LIFETIME, MAX_RESUME_LENGTH.
  destruct (Z.eqb_spec streamId 0); cbn [invariant bind];
    [|split; [lia | reflexivity]].
  destruct (Z.leb_spec 0 keepAlive); cbn [andb invariant bind];
    [|split; [lia | reflexivity]].
  destruct (Z.leb_spec keepAlive 0x7FFFFFFF); cbn [invariant bind];
    [|split; [lia | reflexivity]].
  destruct (Z.leb_spec 0 lifetime); cbn [andb invariant bind];
    [|split; [lia | reflexivity]].
  destruct (Z.leb_spec lifetime 0x7FFFFFFF); cbn [invariant bind];
    [|split; [lia | reflexivity]].
  destruct (Z.leb_spec 0 resumeTokenLength); cbn [andb invariant bind];
    [|split; [lia | reflexivity]].
  destruct (Z.leb_spec resumeTokenLength 0xFFFF); cbn [invariant bind];
    [|split; [lia | reflexivity]].
  destruct Hsafe as (Hd & Hdm & Hm & Hmd & Hmm & Hr).
  split; [|lia].
  intros Hthrow. exfalso. revert Hthrow.
  apply bind_not_invariant; [apply Hr | intros resumeToken].
  apply bind_not_invariant; [apply readUint8_not_invariant | intros mmLen].
  apply bind_not_invariant; [apply Hmm | intros metadataMimeType].
  apply bind_not_invariant; [apply readUint8_not_invariant | intros dmLen].
  apply bind_not_invariant; [apply Hdm | intros dataMimeType].
  apply readPayload_not_invariant. repeat split; assumption.
Qed.

(** C4 on two SETUP frames (version 1.0, lifetime 180000 ms, no resume
    token, empty MIME types): keepAlive = 60000 passes the checks,
    keepAlive = -1 is rejected. *)
Lemma setup_parse_checks_witness :
  deserializeFrame
    (ByteBuffer.wrap [x00; x00; x00; x00; x04; x00; x00; x01; x00; x00; x00; x00; xea; x60;
     x00; x02; xbf; x20; x00; x00; x00; x00]) None
  <> Throw InvariantViolation
  /\ deserializeFrame
       (ByteBuffer.wrap [x00; x00; x00; x00; x04; x00; x00; x01; x00; x00; xff; xff; xff; xff;
        x00; x02; xbf; x20; x00; x00; x00; x00]) None
     = Throw InvariantViolation.
Proof.
  split.
  - intros Hthrow.
    apply (setup_parse_checks
             (ByteBuffer.wrap [x00; x00; x00; x00; x04; x00; x00; x01; x00; x00; x00; x00;
              xea; x60; x00; x02; xbf; x20; x00; x00; x00; x00])
             None 0 0x0400 60000 180000 0) in Hthrow;
      try reflexivity; [|apply Utf8Encoders_decodersSafe].
    apply Hthrow. vm_compute. intuition discriminate.
  - apply (setup_parse_checks
             (ByteBuffer.wrap [x00; x00; x00; x00; x04; x00; x00; x01; x00; x00; xff; xff;
              xff; xff; x00; x02; xbf; x20; x00; x00; x00; x00])
             None 0 0x0400 (-1) 180000 0);
      try reflexivity; [apply Utf8Encoders_decodersSafe|].
    vm_compute. intuition.
Defined.

(** ** Stream id 0 *)

(** C2, as the code has it.  With stream id 0 in the header, the REQUEST_*,
    PAYLOAD and CANCEL readers throw an invariant violation.  The ERROR
    reader has no check on the stream id: it checks the code only, and
    with a code between 0 and MAX_CODE it builds an ERROR frame of
    stream 0. *)
Theorem zero_stream_id_parse (buffer : ByteBuffer.t)
    (encoders : option Encoders.t) (typeAndFlags : Z) :
  ByteBuffer.readInt32 buffer 0 = Ok 0 ->
  ByteBuffer.readUint16 buffer 4 = Ok typeAndFlags ->
  decodersSafe (orUtf8Encoders encoders) ->
  let type := js_shru typeAndFlags FRAME_TYPE_OFFFSET in
  let flags := js_and typeAndFlags FLAGS_MASK in
  (In type [FRAME_TYPES.REQUEST_FNF; FRAME_TYPES.REQUEST_RESPONSE;
            FRAME_TYPES.REQUEST_STREAM; FRAME_TYPES.REQUEST_CHANNEL;
            FRAME_TYPES.REQUEST_N; FRAME_TYPES.CANCEL;
            FRAME_TYPES.PAYLOAD] ->
   deserializeFrame buffer encoders = Throw InvariantViolation)
  /\ (type = FRAME_TYPES.ERROR ->
      forall code,
        ByteBuffer.readInt32 buffer FRAME_HEADER_SIZE = Ok code ->
        0 <= code <= MAX_CODE ->
        deserializeFrame buffer encoders
        = (message <-
             (if 0 <? ByteBuffer.limit buffer - 10 then
                Encoder.decode
                  (Encoders.message (orUtf8Encoders encoders)) buffer 10
                  (10 + (ByteBuffer.limit buffer - 10))
              else Ok (EString [])) ;;
           Ok (ErrorFrame code flags (Some message) 0))
        /\ deserializeFrame buffer encoders <> Throw InvariantViolation).
Proof.
  intros Hsid Hword Hsafe type flags.
  unfold deserializeFrame. rewrite Hsid. cbn [bind]. change (0 + 4) with 4.
  rewrite Hword. change (0 <=? 0) with true. cbn [invariant bind].
  fold type. fold flags.
  split.
  - intros Htype.
    destruct Htype as [<- | [<- | [<- | [<- | [<- | [<- | [<- | []]]]]]]];
      decide_types; reflexivity.
  - intros -> code Hcode Hrange. decide_types.
    unfold deserializeErrorFrame. rewrite Hcode. cbn [bind].
    unfold MAX_CODE in *.
    replace ((0 <=? code) && (code <=? 0x7FFFFFFF)) with true by lia.
    cbn [invariant bind]. unfold FRAME_HEADER_SIZE. change (6 + 4) with 10.
    split; [reflexivity|].
    apply bind_not_invariant; [|discriminate].
    destruct (0 <? ByteBuffer.limit buffer - 10); [|discriminate].
    apply Hsafe.
Qed.

(** C2 on a CANCEL frame and an ERROR frame (code 1) of stream 0. *)
Lemma zero_stream_id_parse_witness :
  deserializeFrame (ByteBuffer.wrap [x00; x00; x00; x00; x24; x00]) None
  = Throw InvariantViolation
  /\ deserializeFrame
       (ByteBuffer.wrap [x00; x00; x00; x00; x2c; x00; x00; x00; x00; x01]) None
     <> Throw InvariantViolation.
Proof.
  split.
  - apply (zero_stream_id_parse (ByteBuffer.wrap [x00; x00; x00; x00; x24; x00]) None 0x2400);
      try reflexivity; [apply Utf8Encoders_decodersSafe|].
    do 5 right. left. reflexivity.
  - apply (zero_stream_id_parse
             (ByteBuffer.wrap [x00; x00; x00; x00; x2c; x00; x00; x00; x00; x01]) None 0x2c00)
      with (code := 1);
      try reflexivity; [apply Utf8Encoders_decodersSafe|].
    vm_compute. intuition discriminate.
Defined.

(** C2 does not hold for the ERROR frame of stream 0 with code 1: it is
    read without any error. *)
Lemma error_frame_of_stream_zero_is_read :
  deserializeFrame (ByteBuffer.wrap [x00; x00; x00; x00; x2c; x00; x00; x00; x00; x01]) None
  = Ok (ErrorFrame 1 0 (Some (EString [])) 0)
  /\ deserializeFrame (ByteBuffer.wrap [x00; x00; x00; x00; x2c; x00; x00; x00; x00; x01]) None
     <> Throw InvariantViolation.
Proof. split; [reflexivity | discriminate]. Qed.

(** ** Encoders and the bytes of a value *)

Lemma length_be16 v : length (be16 v) = 2%nat.
Proof. reflexivity. Qed.

Lemma length_be24 v : length (be24 v) = 3%nat.
Proof. reflexivity. Qed.

Lemma length_be32 v : length (be32 v) = 4%nat.
Proof. reflexivity. Qed.

Lemma length_be64 v : length (be64 v) = 8%nat.
Proof. reflexivity. Qed.

Lemma length_headerBytes frame : length (headerBytes frame) = 6%nat.
Proof. reflexivity. Qed.

Create Rewrite HintDb lens.
#[local] Hint Rewrite @length_app length_be16 length_be24 length_be32
  length_be64 length_headerBytes @repeat_length @length_cons @length_nil : lens.

(** Side conditions on offsets and lengths. *)
Ltac side :=
  unfold FRAME_HEADER_SIZE, UINT24_SIZE, SETUP_FIXED_SIZE, ERROR_FIXED_SIZE,
    KEEPALIVE_FIXED_SIZE, LEASE_FIXED_SIZE, REQUEST_MANY_HEADER,
    REQUEST_N_HEADER, size in *;
  autorewrite with lens in *; lia.

(** Equal buffers up to the count of trailing zeros. *)
Ltac zeros_eq :=
  repeat match goal with
    | |- Ok _ = Ok _ => f_equal
    | |- (_, _) = (_, _) => f_equal
    | |- ByteBuffer.Build_t _ _ _ = ByteBuffer.Build_t _ _ _ => f_equal
    | |- _ ++ _ = _ ++ _ => f_equal
    | |- repeat _ _ = repeat _ _ => f_equal
    end;
  try side.

(** A freshly allocated buffer: zeros, offset 0, and the capacity as its
    limit. *)
Lemma allocate_zeros n :
  0 <= n ->
  ByteBuffer.allocate n = Ok (over 0 n ([] ++ repeat x00 (Z.to_nat n))).
Proof.
  intros. unfold ByteBuffer.allocate, allocate, ByteBuffer.wrap.
  replace (n <? 0) with false by lia. cbn [bind app].
  rewrite size_repeat. do 2 f_equal. lia.
Qed.

Lemma encode_over o l encoder value bs pre old post offset :
  Encodes encoder value bs ->
  offset = size pre -> length old = length bs ->
  Encoder.encode encoder value (over o l (pre ++ old ++ post)) offset
  = Ok (over o l (pre ++ bs ++ post), offset + size bs).
Proof.
  intros [_ Henc] Hoff Hlen. rewrite Henc. on_store.
  rewrite write_over by assumption. reflexivity.
Qed.

Lemma encode_zeros o l encoder value bs pre k offset :
  Encodes encoder value bs ->
  offset = size pre -> (length bs <= k)%nat ->
  Encoder.encode encoder value (over o l (pre ++ repeat x00 k)) offset
  = Ok (over o l ((pre ++ bs) ++ repeat x00 (k - length bs)),
        size (pre ++ bs)).
Proof.
  intros [_ Henc] Hoff Hk. rewrite Henc. on_store.
  rewrite write_zeros by assumption.
  next. rewrite size_app, Hoff. reflexivity.
Qed.

Lemma size_payloadBytes flags w :
  size (payloadBytes flags w)
  = (if isMetadata flags then size (Wire.data w) + 3
                              + size (Wire.metadata w)
     else size (Wire.data w)).
Proof.
  unfold payloadBytes. destruct (isMetadata flags); [|reflexivity].
  side.
Qed.

Lemma getPayloadLength_bytes encoders frame w :
  EncodesOpt (Encoders.data encoders) (Field.data frame) (Wire.data w) ->
  (isMetadata (Field.flags frame) = true ->
   EncodesOpt (Encoders.metadata encoders) (Field.metadata frame)
     (Wire.metadata w)) ->
  getPayloadLength frame encoders
  = Ok (size (payloadBytes (Field.flags frame) w)).
Proof.
  intros Hd Hm. rewrite size_payloadBytes. unfold getPayloadLength.
  assert (E : match Field.data frame with
              | Some data =>
                  n <- Encoder.byteLength (Encoders.data encoders) data ;;
                  Ok (0 + n)
              | None => Ok 0
              end = Ok (size (Wire.data w))).
  { unfold EncodesOpt in Hd. destruct (Field.data frame).
    - destruct Hd as [-> _]. reflexivity.
    - rewrite Hd. reflexivity. }
  rewrite E. next.
  destruct (isMetadata (Field.flags frame)); [|reflexivity].
  specialize (Hm eq_refl). unfold EncodesOpt in Hm.
  destruct (Field.metadata frame).
  - destruct Hm as [-> _]. next. reflexivity.
  - rewrite Hm. f_equal. side.
Qed.

(** Split a stretch of bytes at a given length. *)
Lemma split_at {A : Type} (n : nat) (old : list A) :
  (n <= length old)%nat ->
  exists front back,
    old = front ++ back /\ length front = n
    /\ length back = (length old - n)%nat.
Proof.
  intros H. exists (firstn n old), (skipn n old).
  rewrite firstn_skipn, length_firstn, length_skipn.
  repeat split; lia.
Qed.

(** The payload section replaces as many bytes as it has, whatever they
    were, and no other byte. *)
Lemma writePayload_over o l encoders frame w pre old post offset :
  EncodesOpt (Encoders.data encoders) (Field.data frame) (Wire.data w) ->
  (isMetadata (Field.flags frame) = true ->
   EncodesOpt (Encoders.metadata encoders) (Field.metadata frame)
     (Wire.metadata w)) ->
  offset = size pre ->
  length old = length (payloadBytes (Field.flags frame) w) ->
  writePayload frame (over o l (pre ++ old ++ post)) encoders offset
  = Ok (over o l (pre ++ payloadBytes (Field.flags frame) w ++ post)).
Proof.
  intros Hd Hm Hoff Hlen. unfold writePayload, payloadBytes in *.
  assert (Hdata : forall pre' old' offset',
             offset' = size pre' -> length old' = length (Wire.data w) ->
             match Field.data frame with
             | Some data =>
                 ' (buffer, _) <-
                   Encoder.encode (Encoders.data encoders) data
                     (over o l (pre' ++ old' ++ post)) offset' ;;
                 Ok buffer
             | None => Ok (over o l (pre' ++ old' ++ post))
             end
             = Ok (over o l (pre' ++ Wire.data w ++ post))).
  { intros pre' old' offset' Hoff' Hlen'. unfold EncodesOpt in Hd.
    destruct (Field.data frame).
    - rewrite (encode_over _ _ _ _ _ _ _ _ _ Hd) by assumption.
      reflexivity.
    - rewrite Hd in *. destruct old'; [reflexivity | discriminate]. }
  destruct (isMetadata (Field.flags frame)).
  - specialize (Hm eq_refl).
    destruct (split_at 3 old) as (o3 & rest & -> & Ho3 & Hrest);
      [autorewrite with lens in Hlen; lia|].
    destruct o3 as [|a [|b [|c [|]]]]; try discriminate.
    destruct (split_at (length (Wire.metadata w)) rest)
      as (om & od & -> & Hom & Hod);
      [autorewrite with lens in Hlen; cbn [length] in Hlen; lia|].
    assert (Hod' : length od = length (Wire.data w))
      by (autorewrite with lens in Hlen; cbn [length] in Hlen; lia).
    cbn [app]. rewrite <- !app_assoc.
    unfold EncodesOpt in Hm. destruct (Field.metadata frame).
    + pose proof Hm as [Hbytes _]. rewrite Hbytes. next.
      rewrite writeUint24_over by assumption. next.
      replace (pre ++ be24 (size (Wire.metadata w)) ++ om ++ od ++ post)
        with ((pre ++ be24 (size (Wire.metadata w))) ++ om ++ od ++ post)
        by (rewrite <- app_assoc; reflexivity).
      rewrite (encode_over _ _ _ _ _ _ _ _ _ Hm) by side. next.
      replace ((pre ++ be24 (size (Wire.metadata w)))
               ++ Wire.metadata w ++ od ++ post)
        with (((pre ++ be24 (size (Wire.metadata w))) ++ Wire.metadata w)
              ++ od ++ post)
        by (rewrite <- !app_assoc; reflexivity).
      rewrite Hdata by side.
      rewrite <- !app_assoc. reflexivity.
    + rewrite Hm in *. destruct om; [|discriminate].
      change (size []) with 0 in *. cbn [app].
      rewrite writeUint24_over by assumption. next.
      replace (pre ++ be24 0 ++ od ++ post)
        with ((pre ++ be24 0) ++ od ++ post)
        by (rewrite <- app_assoc; reflexivity).
      rewrite Hdata by side.
      rewrite <- !app_assoc. reflexivity.
  - cbn [bind app] in *. apply Hdata; assumption.
Qed.

Lemma writePayload_zeros o l encoders frame w pre k offset :
  EncodesOpt (Encoders.data encoders) (Field.data frame) (Wire.data w) ->
  (isMetadata (Field.flags frame) = true ->
   EncodesOpt (Encoders.metadata encoders) (Field.metadata frame)
     (Wire.metadata w)) ->
  offset = size pre ->
  (length (payloadBytes (Field.flags frame) w) <= k)%nat ->
  writePayload frame (over o l (pre ++ repeat x00 k)) encoders offset
  = Ok (over o l
          ((pre ++ payloadBytes (Field.flags frame) w)
           ++ repeat x00
                (k - length (payloadBytes (Field.flags frame) w)))).
Proof.
  intros Hd Hm Hoff Hk.
  rewrite (repeat_split (length (payloadBytes (Field.flags frame) w)) k)
    by assumption.
  rewrite (writePayload_over o l encoders frame w) by
    (try assumption; apply repeat_length).
  rewrite <- app_assoc. reflexivity.
Qed.

(** ** The bytes the writers produce *)

Lemma optLength_bytes encoder value bs :
  EncodesOpt encoder value bs ->
  match value with
  | Some v => Encoder.byteLength encoder v
  | None => Ok 0
  end = Ok (size bs).
Proof.
  unfold EncodesOpt. destruct value.
  - intros [-> _]. reflexivity.
  - intros ->. reflexivity.
Qed.

Lemma optEncode_zeros o l encoder value bs pre k offset :
  EncodesOpt encoder value bs ->
  offset = size pre -> (length bs <= k)%nat ->
  match value with
  | Some v => Encoder.encode encoder v (over o l (pre ++ repeat x00 k)) offset
  | None => Ok (over o l (pre ++ repeat x00 k), offset)
  end
  = Ok (over o l ((pre ++ bs) ++ repeat x00 (k - length bs)),
        size (pre ++ bs)).
Proof.
  unfold EncodesOpt. destruct value; intros H Hoff Hk.
  - apply encode_zeros; assumption.
  - subst bs. rewrite app_nil_r. cbn [length]. rewrite Nat.sub_0_r, Hoff.
    reflexivity.
Qed.

Lemma optEncodeLast_zeros o l encoder value bs pre k offset :
  EncodesOpt encoder value bs ->
  offset = size pre -> (length bs <= k)%nat ->
  match value with
  | Some v =>
      ' (buffer, _) <-
        Encoder.encode encoder v (over o l (pre ++ repeat x00 k)) offset ;;
      Ok buffer
  | None => Ok (over o l (pre ++ repeat x00 k))
  end
  = Ok (over o l ((pre ++ bs) ++ repeat x00 (k - length bs))).
Proof.
  unfold EncodesOpt. destruct value; intros H Hoff Hk.
  - rewrite (encode_zeros _ _ _ _ _ _ _ _ H) by assumption. reflexivity.
  - subst bs. rewrite app_nil_r. cbn [length]. rewrite Nat.sub_0_r.
    reflexivity.
Qed.

(** The allocated buffer is filled exactly. *)
Ltac filled :=
  repeat match goal with frame := _ : Frame |- _ => subst frame end;
  unfold ByteBuffer.wrap, frameBytes; cbn [Field.flags];
  rewrite <- ?app_assoc;
  match goal with
  | |- context [repeat x00 ?n] => replace n with 0%nat by side
  end;
  cbn [repeat]; rewrite ?app_nil_r;
  apply f_equal; apply f_equal; side.

Lemma serializeSetupFrame_bytes encoders w
    data dataMimeType flags keepAlive lifetime majorVersion metadata
    metadataMimeType minorVersion resumeToken streamId :
  let frame :=
    SetupFrame data dataMimeType flags keepAlive lifetime majorVersion
      metadata metadataMimeType minorVersion resumeToken streamId in
  Encoded encoders frame w ->
  serializeSetupFrame frame encoders = Ok (ByteBuffer.wrap (frameBytes frame w)).
Proof.
  intros frame (Hd & Hdm & _ & Hm & Hmm & Hrt).
  unfold serializeSetupFrame.
  rewrite (optLength_bytes _ _ _ Hrt), (optLength_bytes _ _ _ Hmm),
    (optLength_bytes _ _ _ Hdm).
  rewrite (getPayloadLength_bytes encoders frame w Hd Hm).
  next.
  rewrite allocate_zeros by side. cbn [bind app].
  rewrite writeHeader_zeros by side. next.
  cbn [Field.majorVersion Field.minorVersion Field.keepAlive Field.lifetime
         Field.number frame bind].
  on_store. unfold writeUint16, writeUint32, writeUint8.
  rewrite write_zeros by side. next.
  rewrite write_zeros by side. next.
  rewrite write_zeros by side. next.
  rewrite write_zeros by side. next.
  rewrite write_zeros by side. next.
  rewrite (optEncode_zeros _ _ _ _ _ _ _ _ Hrt) by side. next.
  rewrite write_zeros by side. next.
  rewrite (optEncode_zeros _ _ _ _ _ _ _ _ Hmm) by side. next.
  rewrite write_zeros by side. next.
  rewrite (optEncode_zeros _ _ _ _ _ _ _ _ Hdm) by side. next.
  rewrite (writePayload_zeros _ _ encoders frame w) by (try assumption; side).
  unfold frameBytes. cbn [Field.flags frame]. filled.
Qed.

Lemma serializeErrorFrame_bytes encoders w code flags message streamId :
  let frame := ErrorFrame code flags message streamId in
  Encoded encoders frame w ->
  serializeErrorFrame frame encoders = Ok (ByteBuffer.wrap (frameBytes frame w)).
Proof.
  intros frame (_ & _ & Hmsg & _).
  unfold serializeErrorFrame.
  rewrite (optLength_bytes _ _ _ Hmsg). next.
  rewrite allocate_zeros by side. cbn [bind app].
  rewrite writeHeader_zeros by side.
  cbn [Field.code Field.number frame bind]. on_store. unfold writeUint32.
  rewrite write_zeros by side. next.
  rewrite (optEncodeLast_zeros _ _ _ _ _ _ _ _ Hmsg) by side.
  unfold frameBytes. filled.
Qed.

Lemma serializeKeepAliveFrame_bytes encoders w
    data flags lastReceivedPosition streamId :
  let frame := KeepAliveFrame data flags lastReceivedPosition streamId in
  Encoded encoders frame w ->
  serializeKeepAliveFrame frame encoders = Ok (ByteBuffer.wrap (frameBytes frame w)).
Proof.
  intros frame (Hd & _).
  unfold serializeKeepAliveFrame.
  rewrite (optLength_bytes _ _ _ Hd). next.
  rewrite allocate_zeros by side. cbn [bind app].
  rewrite writeHeader_zeros by side.
  cbn [Field.lastReceivedPosition Field.number frame bind].
  on_store. unfold writeUint64. cbv zeta.
  rewrite write_zeros by side. next.
  rewrite (optEncodeLast_zeros _ _ _ _ _ _ _ _ Hd) by side.
  unfold frameBytes. filled.
Qed.

Lemma serializeLeaseFrame_bytes encoders w
    flags metadata requestCount streamId ttl :
  let frame := LeaseFrame flags metadata requestCount streamId ttl in
  Encoded encoders frame w ->
  serializeLeaseFrame frame encoders = Ok (ByteBuffer.wrap (frameBytes frame w)).
Proof.
  intros frame (_ & _ & _ & Hm & _). specialize (Hm eq_refl).
  unfold serializeLeaseFrame.
  rewrite (optLength_bytes _ _ _ Hm). next.
  rewrite allocate_zeros by side. cbn [bind app].
  rewrite writeHeader_zeros by side.
  cbn [Field.ttl Field.requestCount Field.number frame bind].
  on_store. unfold writeUint32.
  rewrite write_zeros by side. next.
  rewrite write_zeros by side. next.
  rewrite (optEncodeLast_zeros _ _ _ _ _ _ _ _ Hm) by side.
  unfold frameBytes. filled.
Qed.

(** REQUEST_FNF, REQUEST_RESPONSE and PAYLOAD: header, then payload. *)
Lemma serializeRequestFrame_bytes encoders w frame :
  Encoded encoders frame w ->
  metadataWritten frame = isMetadata (Field.flags frame) ->
  serializeRequestFrame frame encoders
  = Ok (ByteBuffer.wrap
          (headerBytes frame ++ payloadBytes (Field.flags frame) w)).
Proof.
  intros (Hd & _ & _ & Hm & _) Hflag. rewrite Hflag in Hm.
  unfold serializeRequestFrame.
  rewrite (getPayloadLength_bytes encoders frame w Hd Hm). next.
  rewrite allocate_zeros by side. cbn [bind app].
  rewrite writeHeader_zeros by side. next.
  rewrite (writePayload_zeros _ _ encoders frame w) by (try assumption; side).
  filled.
Qed.

Lemma serializePayloadFrame_bytes encoders w frame :
  Encoded encoders frame w ->
  metadataWritten frame = isMetadata (Field.flags frame) ->
  serializePayloadFrame frame encoders
  = Ok (ByteBuffer.wrap
          (headerBytes frame ++ payloadBytes (Field.flags frame) w)).
Proof. apply serializeRequestFrame_bytes. Qed.

(** REQUEST_STREAM and REQUEST_CHANNEL: header, requestN, then payload. *)
Lemma serializeRequestManyFrame_bytes encoders w frame requestN :
  Encoded encoders frame w ->
  metadataWritten frame = isMetadata (Field.flags frame) ->
  Field.requestN frame = Some requestN ->
  serializeRequestManyFrame frame encoders
  = Ok (ByteBuffer.wrap
          (headerBytes frame ++ be32 requestN
           ++ payloadBytes (Field.flags frame) w)).
Proof.
  intros (Hd & _ & _ & Hm & _) Hflag Hn. rewrite Hflag in Hm.
  unfold serializeRequestManyFrame.
  rewrite (getPayloadLength_bytes encoders frame w Hd Hm). next.
  rewrite allocate_zeros by side. cbn [bind app].
  rewrite writeHeader_zeros by side. rewrite Hn.
  cbn [Field.number bind]. on_store. unfold writeUint32.
  rewrite write_zeros by side. next.
  rewrite (writePayload_zeros _ _ encoders frame w) by (try assumption; side).
  filled.
Qed.

Lemma serializeRequestNFrame_bytes encoders w flags requestN streamId :
  let frame := RequestNFrame flags requestN streamId in
  serializeRequestNFrame frame encoders = Ok (ByteBuffer.wrap (frameBytes frame w)).
Proof.
  intros frame. unfold serializeRequestNFrame.
  rewrite allocate_zeros by side. cbn [bind app].
  rewrite writeHeader_zeros by side.
  cbn [Field.requestN Field.number frame bind]. on_store.
  unfold writeUint32.
  rewrite write_zeros by side. next.
  unfold frameBytes. filled.
Qed.

Lemma serializeCancelFrame_bytes encoders w flags streamId :
  let frame := CancelFrame flags streamId in
  serializeCancelFrame frame encoders = Ok (ByteBuffer.wrap (frameBytes frame w)).
Proof.
  intros frame. unfold serializeCancelFrame.
  rewrite allocate_zeros by side. cbn [bind app].
  rewrite writeHeader_zeros by side. next.
  unfold frameBytes. replace (Z.to_nat FRAME_HEADER_SIZE - 6)%nat with 0%nat
    by side.
  reflexivity.
Qed.

(** The writers produce the layout of section 4.4. *)
Lemma serializeFrame_bytes frame encoders w :
  supported frame -> Encoded (orUtf8Encoders encoders) frame w ->
  serializeFrame frame encoders = Ok (ByteBuffer.wrap (frameBytes frame w)).
Proof.
  intros Hsup Henc. unfold serializeFrame.
  destruct frame; try contradiction; cbn [Field.type]; decide_types.
  - apply serializeSetupFrame_bytes. assumption.
  - apply serializeErrorFrame_bytes. assumption.
  - apply serializeKeepAliveFrame_bytes. assumption.
  - apply serializeLeaseFrame_bytes. assumption.
  - apply serializeRequestFrame_bytes; [assumption | reflexivity].
  - apply serializeRequestFrame_bytes; [assumption | reflexivity].
  - apply serializeRequestManyFrame_bytes;
      [assumption | reflexivity | reflexivity].
  - apply serializeRequestManyFrame_bytes;
      [assumption | reflexivity | reflexivity].
  - apply serializeRequestNFrame_bytes.
  - apply serializeCancelFrame_bytes.
  - apply serializePayloadFrame_bytes; [assumption | reflexivity].
Qed.

Lemma UTF8Encoder_Encodes s : Encodes UTF8Encoder (EString s) (encodeUTF8 s).
Proof.
  split.
  - cbn [Encoder.byteLength UTF8Encoder]. rewrite size_encodeUTF8.
    reflexivity.
  - intros. apply UTF8Encoder_encode.
Qed.

Lemma BufferEncoder_Encodes b :
  0 <= ByteBuffer.limit b <= ByteBuffer.capacity b ->
  Encodes BufferEncoder (EByteBuffer b) (standardBytes (Some (EByteBuffer b))).
Proof.
  intros Hb. cbn [standardBytes]. split.
  - cbn [Encoder.byteLength BufferEncoder].
    rewrite size_firstn_limit by assumption. reflexivity.
  - intros. apply BufferEncoder_encode. assumption.
Qed.

Lemma UTF8Encoder_EncodesOpt value :
  isText value -> EncodesOpt UTF8Encoder value (textBytes value).
Proof.
  destruct value as [[str| |]|]; cbn [isText EncodesOpt textBytes];
    intros Htext; try contradiction; [apply UTF8Encoder_Encodes | reflexivity].
Qed.

(** The default encoders accept every frame whose encodable fields are
    strings or [null]. *)
Lemma Utf8Encoders_Encoded frame :
  textFrame frame -> Encoded Utf8Encoders frame (textWire frame).
Proof.
  intros (Hdata & HdataMime & Hmessage & Hmetadata & HmetadataMime & Htoken).
  unfold Encoded, textWire, Utf8Encoders.
  cbn [Encoders.data Encoders.dataMimeType Encoders.message Encoders.metadata
       Encoders.metadataMimeType Encoders.resumeToken
       Wire.data Wire.dataMimeType Wire.message Wire.metadata
       Wire.metadataMimeType Wire.resumeToken].
  repeat split; intros; apply UTF8Encoder_EncodesOpt; assumption.
Qed.

(** Every frame of strings, whatever its numbers, is written with the
    default encoders. *)
Lemma serializeFrame_textFrame frame :
  supported frame -> textFrame frame ->
  serializeFrame frame None
  = Ok (ByteBuffer.wrap (frameBytes frame (textWire frame))).
Proof.
  intros Hsupported Htext. apply serializeFrame_bytes; [assumption|].
  apply Utf8Encoders_Encoded. assumption.
Qed.

(** ** The payload section *)

(** C5.  The length [getPayloadLength] computes is the data's byteLength,
    plus 3 and the metadata's byteLength when the METADATA flag is set, an
    absent field counting for 0.  [writePayload] stores exactly that many
    bytes at the offset it is given, in place of the bytes that were there,
    whatever they were, and touches no other byte: with the flag clear the
    data alone, whatever the metadata field holds; with the flag set the
    24-bit length and the metadata first, three zero bytes when the
    metadata field is absent. *)
Theorem payload_section (frame : Frame) (encoders : Encoders.t)
    (w : Wire.t) (buffer : ByteBuffer.t) (pre old post : list byte) :
  EncodesOpt (Encoders.data encoders) (Field.data frame) (Wire.data w) ->
  (isMetadata (Field.flags frame) = true ->
   EncodesOpt (Encoders.metadata encoders) (Field.metadata frame)
     (Wire.metadata w)) ->
  let section := payloadBytes (Field.flags frame) w in
  ByteBuffer.store buffer = pre ++ old ++ post ->
  length old = length section ->
  getPayloadLength frame encoders
  = (dataLength <-
       optByteLength (Encoders.data encoders) (Field.data frame) ;;
     if isMetadata (Field.flags frame) then
       metadataLength <-
         optByteLength (Encoders.metadata encoders) (Field.metadata frame) ;;
       Ok (dataLength + 3 + metadataLength)
     else Ok dataLength)
  /\ getPayloadLength frame encoders = Ok (size section)
  /\ writePayload frame buffer encoders (size pre)
     = Ok (ByteBuffer.with_store buffer (pre ++ section ++ post))
  /\ (isMetadata (Field.flags frame) = false -> section = Wire.data w)
  /\ (isMetadata (Field.flags frame) = true ->
      Field.metadata frame = None ->
      section = [x00; x00; x00] ++ Wire.data w).
Proof.
  intros Hd Hm section Hstore Hold.
  split; [|split; [|split; [|split]]].
  - unfold getPayloadLength, optByteLength.
    destruct (Field.data frame) as [d|]; next.
    + destruct (Encoder.byteLength (Encoders.data encoders) d) as [n|e];
        next; [|reflexivity].
      destruct (isMetadata (Field.flags frame)); [|reflexivity].
      destruct (Field.metadata frame) as [m|]; next; [|f_equal; side].
      destruct (Encoder.byteLength (Encoders.metadata encoders) m);
        reflexivity.
    + destruct (isMetadata (Field.flags frame)); [|reflexivity].
      destruct (Field.metadata frame) as [m|]; next; [|reflexivity].
      destruct (Encoder.byteLength (Encoders.metadata encoders) m);
        reflexivity.
  - apply getPayloadLength_bytes; assumption.
  - destruct buffer as [store o l]. cbn [ByteBuffer.store] in Hstore.
    subst store. unfold ByteBuffer.with_store.
    cbn [ByteBuffer.offset ByteBuffer.limit].
    apply writePayload_over; try assumption. reflexivity.
  - intros Hflag. subst section. unfold payloadBytes. rewrite Hflag.
    reflexivity.
  - intros Hflag Hnone. subst section. unfold payloadBytes.
    rewrite Hflag. specialize (Hm Hflag). rewrite Hnone in Hm.
    cbn [EncodesOpt] in Hm. rewrite Hm. reflexivity.
Qed.

(** C5 on three PAYLOAD frames of stream 1 with data "abc" under the UTF-8
    encoders, written at offset 1 of a buffer that holds 2a, then bytes ff,
    then ee.  With flags 0x160 (METADATA, NEXT, COMPLETE) and no metadata
    the section is 00 00 00 61 62 63: the three zero bytes replace three
    bytes ff.  With the same flags and metadata "hi" it is
    00 00 02 68 69 61 62 63.  With flags 0x60 and metadata "hi" the
    metadata is left out: 61 62 63.  The bytes 2a and ee stay. *)
Lemma payload_section_witness :
  let metadata := Some (EString [0x68; 0x69]) in
  let data := Some (EString [0x61; 0x62; 0x63]) in
  (getPayloadLength (PayloadFrame data 0x160 None 1) Utf8Encoders = Ok 6
   /\ writePayload (PayloadFrame data 0x160 None 1)
        (ByteBuffer.wrap [x2a; xff; xff; xff; xff; xff; xff; xee])
        Utf8Encoders 1
      = Ok (ByteBuffer.wrap [x2a; x00; x00; x00; x61; x62; x63; xee]))
  /\ (getPayloadLength (PayloadFrame data 0x160 metadata 1) Utf8Encoders
      = Ok 8
      /\ writePayload (PayloadFrame data 0x160 metadata 1)
           (ByteBuffer.wrap
              [x2a; xff; xff; xff; xff; xff; xff; xff; xff; xee])
           Utf8Encoders 1
         = Ok (ByteBuffer.wrap
                 [x2a; x00; x00; x02; x68; x69; x61; x62; x63; xee]))
  /\ (getPayloadLength (PayloadFrame data 0x60 metadata 1) Utf8Encoders
      = Ok 3
      /\ writePayload (PayloadFrame data 0x60 metadata 1)
           (ByteBuffer.wrap [x2a; xff; xff; xff; xee]) Utf8Encoders 1
         = Ok (ByteBuffer.wrap [x2a; x61; x62; x63; xee])).
Proof.
  intros metadata data.
  pose (w := {| Wire.data := encodeUTF8 [0x61; 0x62; 0x63];
                Wire.dataMimeType := []; Wire.message := [];
                Wire.metadata := encodeUTF8 [0x68; 0x69];
                Wire.metadataMimeType := []; Wire.resumeToken := [] |}).
  pose (w0 := {| Wire.data := encodeUTF8 [0x61; 0x62; 0x63];
                 Wire.dataMimeType := []; Wire.message := [];
                 Wire.metadata := [];
                 Wire.metadataMimeType := []; Wire.resumeToken := [] |}).
  split; [|split].
  - destruct (payload_section (PayloadFrame data 0x160 None 1)
                Utf8Encoders w0
                (ByteBuffer.wrap [x2a; xff; xff; xff; xff; xff; xff; xee])
                [x2a] [xff; xff; xff; xff; xff; xff] [xee])
      as (_ & Hlen & Hwrite & _).
    + apply UTF8Encoder_Encodes.
    + intros _. reflexivity.
    + reflexivity.
    + reflexivity.
    + split; [exact Hlen | exact Hwrite].
  - destruct (payload_section (PayloadFrame data 0x160 metadata 1)
                Utf8Encoders w
                (ByteBuffer.wrap
                   [x2a; xff; xff; xff; xff; xff; xff; xff; xff; xee])
                [x2a] [xff; xff; xff; xff; xff; xff; xff; xff] [xee])
      as (_ & Hlen & Hwrite & _).
    + apply UTF8Encoder_Encodes.
    + intros _. apply UTF8Encoder_Encodes.
    + reflexivity.
    + reflexivity.
    + split; [exact Hlen | exact Hwrite].
  - destruct (payload_section (PayloadFrame data 0x60 metadata 1)
                Utf8Encoders w
                (ByteBuffer.wrap [x2a; xff; xff; xff; xee])
                [x2a] [xff; xff; xff] [xee])
      as (_ & Hlen & Hwrite & _).
    + apply UTF8Encoder_Encodes.
    + intros Hflag. vm_compute in Hflag. discriminate.
    + reflexivity.
    + reflexivity.
    + split; [exact Hlen | exact Hwrite].
Defined.

(** ** Emission never validates *)

(** C10.  For a frame of one of the eleven kinds, whatever the values of
    its stream id, flags and other numeric fields, and whatever the length
    of its resume token, [serializeFrame] returns a buffer (the layout of
    the frame) as soon as the encoders accept the frame's encodable fields;
    a frame with any other type tag is refused with an invariant
    violation. *)
Theorem serializeFrame_does_not_validate (frame : Frame)
    (encoders : option Encoders.t) (w : Wire.t) :
  supported frame ->
  Encoded (orUtf8Encoders encoders) frame w ->
  (exists buffer,
     serializeFrame frame encoders = Ok buffer
     /\ buffer = ByteBuffer.wrap (frameBytes frame w))
  /\ In (Field.type frame) supportedTypes
  /\ (forall flags streamId type,
        ~ In type supportedTypes ->
        serializeFrame (UnsupportedFrame flags streamId type) encoders
        = Throw InvariantViolation).
Proof.
  intros Hsup Henc. split; [|split].
  - exists (ByteBuffer.wrap (frameBytes frame w)). split; [|reflexivity].
    apply serializeFrame_bytes; assumption.
  - destruct frame; try contradiction; cbn [Field.type supportedTypes In];
      tauto.
  - intros flags streamId type Hnot. unfold serializeFrame.
    cbn [Field.type]. unfold supportedTypes in Hnot. cbn [In] in Hnot.
    repeat match goal with
      | |- context [type =? ?c] =>
          destruct (Z.eqb_spec type c);
          [exfalso; apply Hnot; subst type; tauto|]
      end.
    reflexivity.
Qed.

(** C10 on a SETUP frame that breaks every rule of the data model: stream
    id 7, keepAlive -1, lifetime 2^40 and a resume token of 70000 bytes,
    under the buffer encoders. *)
Lemma serializeFrame_does_not_validate_witness :
  let token := ByteBuffer.wrap (repeat x00 (Z.to_nat 70000)) in
  let frame :=
    SetupFrame None (Some (EString [0x61])) 0 (-1) (2^40) 1 None
      (Some (EString [0x62])) 0 (Some (EByteBuffer token)) 7 in
  exists buffer, serializeFrame frame (Some BufferEncoders) = Ok buffer.
Proof.
  intros token frame.
  pose (w := {| Wire.data := [];
                Wire.dataMimeType := encodeUTF8 [0x61];
                Wire.message := [];
                Wire.metadata := [];
                Wire.metadataMimeType := encodeUTF8 [0x62];
                Wire.resumeToken :=
                  standardBytes (Some (EByteBuffer token)) |}).
  destruct (serializeFrame_does_not_validate frame (Some BufferEncoders) w)
    as ((buffer & Hbuffer & _) & _).
  - exact I.
  - split; [reflexivity|]. split; [apply UTF8Encoder_Encodes|].
    split; [reflexivity|]. split; [intros Hflag; discriminate Hflag|].
    split; [apply UTF8Encoder_Encodes|].
    apply BufferEncoder_Encodes. vm_compute. intuition discriminate.
  - exists buffer. exact Hbuffer.
Defined.

(** ** Reading the bytes of a frame back *)

Lemma size_be24 v : size (be24 v) = 3.
Proof. reflexivity. Qed.

Lemma size_be64 v : size (be64 v) = 8.
Proof. reflexivity. Qed.

Lemma readUint8_here value rest offset :
  offset = 0 ->
  readUint8 ([byte_of_Z value] ++ rest) offset = Ok (value mod 2^8).
Proof. intros ->. apply readUint8_byte. Qed.

Lemma readUint16_here value rest offset :
  offset = 0 -> readUint16 (be16 value ++ rest) offset = Ok (value mod 2^16).
Proof. intros ->. apply readUint16_be16. Qed.

Lemma readInt16_here value rest offset :
  offset = 0 ->
  readInt16 (be16 value ++ rest) offset = Ok (int16 (value mod 2^16)).
Proof. intros ->. apply readInt16_be16. Qed.

Lemma readUint24_here o l value rest offset :
  offset = 0 ->
  readUint24 (over o l (be24 value ++ rest)) offset = Ok (value mod 2^24).
Proof. intros ->. apply readUint24_be24. Qed.

Lemma readUint32_here value rest offset :
  offset = 0 -> readUint32 (be32 value ++ rest) offset = Ok (value mod 2^32).
Proof. intros ->. apply readUint32_be32. Qed.

Lemma readInt32_here value rest offset :
  offset = 0 -> readInt32 (be32 value ++ rest) offset = Ok (ToInt32 value).
Proof. intros ->. apply readInt32_be32. Qed.

Lemma readUint64_here value rest offset :
  offset = 0 ->
  readUint64 (be64 value ++ rest) offset
  = Ok (toNumber (value mod 2^64)).
Proof. intros ->. apply readUint64_be64. Qed.

Lemma slice_here bs rest begin end_ :
  begin = 0 -> end_ = size bs -> slice (bs ++ rest) begin end_ = Ok bs.
Proof. intros -> ->. apply slice_head. reflexivity. Qed.

(** Below 2^53 a 64-bit value is an exact JavaScript number. *)
Lemma toNumber_small x : x < 2^53 -> toNumber x = x.
Proof. intros H. unfold toNumber. replace (x <? 2^53) with true by lia. reflexivity. Qed.

(** The window of a chunk inside a buffer given as a concatenation. *)
Ltac slice_chunk :=
  cbn [ByteBuffer.store];
  repeat rewrite slice_skip by side;
  apply slice_here; side.

Lemma nonempty_size (bs : list byte) : bs <> [] -> 0 < size bs.
Proof. destruct bs; [congruence|]. rewrite size_cons. pose proof (size_nonneg bs). lia. Qed.

Lemma readPayload_bytes encoders frame pre w data metadata offset :
  payloadCanonical encoders (Field.flags frame) data metadata w ->
  offset = size pre ->
  readPayload
    (ByteBuffer.wrap (pre ++ payloadBytes (Field.flags frame) w ++ []))
    frame encoders offset
  = Ok (setOpt Field.set_data (setOpt Field.set_metadata frame metadata)
          data).
Proof.
  intros [Hd Hm] Hoff. unfold readPayload, payloadBytes, ByteBuffer.wrap.
  on_store.
  assert (Hdata : forall pre' frame' offset',
             offset' = size pre' ->
             (if offset' <? size (pre' ++ Wire.data w ++ []) then
                v <- Encoder.decode (Encoders.data encoders)
                       (over 0 (size (pre' ++ Wire.data w ++ []))
                          (pre' ++ Wire.data w ++ [])) offset'
                       (size (pre' ++ Wire.data w ++ [])) ;;
                Ok (Field.set_data frame' v)
              else Ok frame')
             = Ok (setOpt Field.set_data frame' data)).
  { intros pre' frame' offset' ->. rewrite !size_app, size_nil.
    destruct data as [v|].
    - destruct Hd as [Hdec Hne]. apply nonempty_size in Hne.
      replace (size pre' <? size pre' + (size (Wire.data w) + 0))
        with true by lia.
      rewrite (Hdec _ _ _) by slice_chunk. reflexivity.
    - rewrite Hd. change (size []) with 0.
      replace (size pre' <? size pre' + (0 + 0)) with false by lia.
      reflexivity. }
  destruct (isMetadata (Field.flags frame)).
  - destruct Hm as [Hlt Hm].
    rewrite readUint24_skip by side.
    rewrite <- !app_assoc.
    rewrite readUint24_here by side. next.
    pose proof (size_nonneg (Wire.metadata w)).
    rewrite Z.mod_small by lia.
    destruct metadata as [v|].
    + destruct Hm as [Hdec Hne]. apply nonempty_size in Hne.
      replace (0 <? size (Wire.metadata w)) with true by lia.
      rewrite (Hdec _ _ _) by slice_chunk. next.
      rewrite !app_assoc. rewrite <- (app_assoc _ (Wire.data w) []).
      apply Hdata. side.
    + rewrite Hm. change (size []) with 0. change (0 <? 0) with false.
      cbn [bind app setOpt].
      rewrite !app_assoc. rewrite <- (app_assoc _ (Wire.data w) []).
      apply Hdata. side.
  - subst metadata. cbn [bind app setOpt]. apply Hdata. assumption.
Qed.

Create Rewrite HintDb sizes.
#[local] Hint Rewrite size_app size_be16 size_be24 size_be32
  size_be64 size_headerBytes size_cons size_nil : sizes.

Lemma header_read frame rest :
  0 <= Field.streamId frame < 2^31 ->
  0 <= Field.flags frame < 2^10 ->
  0 <= Field.type frame <= 63 ->
  let buffer := headerBytes frame ++ rest in
  let word := Field.type frame * 2^10 + Field.flags frame in
  readInt32 buffer 0 = Ok (Field.streamId frame)
  /\ readUint16 buffer 4 = Ok word
  /\ js_shru word FRAME_TYPE_OFFFSET = Field.type frame
  /\ js_and word FLAGS_MASK = Field.flags frame.
Proof.
  intros Hs Hf Ht buffer word. subst buffer. unfold headerBytes.
  rewrite header_word by (change (2^10) with 1024 in Hf; lia). fold word.
  rewrite <- app_assoc.
  assert (Hw : 0 <= word < 2^16)
    by (subst word; change (2^10) with 1024 in *; pow2; lia).
  split; [|split; [|split]].
  - rewrite readInt32_be32, ToInt32_small by (pow2; lia). reflexivity.
  - rewrite readUint16_skip by (rewrite size_be32; lia).
    rewrite readUint16_here by (rewrite size_be32; lia).
    rewrite Z.mod_small by assumption. reflexivity.
  - rewrite js_shru_FRAME_TYPE_OFFFSET by (pow2; lia).
    subst word. change (2^10) with 1024 in *.
    Z.to_euclidean_division_equations. lia.
  - rewrite js_and_FLAGS_MASK. subst word. change (2^10) with 1024 in *.
    Z.to_euclidean_division_equations. lia.
Qed.

(** Read the next field of a buffer given as a concatenation of chunks. *)
Ltac read_field :=
  lazymatch goal with
  | |- bind (readUint8 _ _) _ = _ =>
      repeat rewrite readUint8_skip by side; rewrite readUint8_here by side
  | |- bind (readUint16 _ _) _ = _ =>
      repeat rewrite readUint16_skip by side; rewrite readUint16_here by side
  | |- bind (readInt16 _ _) _ = _ =>
      repeat rewrite readInt16_skip by side; rewrite readInt16_here by side
  | |- bind (readUint24 _ _) _ = _ =>
      repeat rewrite readUint24_skip by side; rewrite readUint24_here by side
  | |- bind (readUint32 _ _) _ = _ =>
      repeat rewrite readUint32_skip by side; rewrite readUint32_here by side
  | |- bind (readInt32 _ _) _ = _ =>
      repeat rewrite readInt32_skip by side; rewrite readInt32_here by side
  | |- bind (readUint64 _ _) _ = _ =>
      repeat rewrite readUint64_skip by side; rewrite readUint64_here by side
  end;
  next.

(** An invariant that holds. *)
Ltac passes :=
  match goal with
  | |- context [invariant ?c] =>
      replace c with true
        by (unfold MAX_KEEPALIVE, MAX_LIFETIME, MAX_RESUME_LENGTH, MAX_CODE,
              int16 in *; pow2; lia)
  end;
  cbn [invariant bind].
Lemma deserializeSetupFrame_bytes encoders w
    data dataMimeType flags keepAlive lifetime majorVersion metadata
    metadataMimeType minorVersion resumeToken streamId :
  let frame :=
    SetupFrame data dataMimeType flags keepAlive lifetime majorVersion
      metadata metadataMimeType minorVersion resumeToken streamId in
  Canonical encoders frame w ->
  deserializeSetupFrame (ByteBuffer.wrap (frameBytes frame w ++ []))
    streamId flags encoders = Ok frame.
Proof.
  intros frame (Hs & Hf & -> & Hmaj & Hmin & Hka & Hlt & Hrt & Hrtl & Hmm
                & Hmml & Hdm & Hdml & Hp).
  unfold deserializeSetupFrame, ByteBuffer.wrap. on_store.
  subst frame. unfold frameBytes.
  cbv beta iota.
  set (frame := SetupFrame _ _ _ _ _ _ _ _ _ _ _).
  rewrite <- !app_assoc.
  change (0 =? 0) with true. cbn [invariant bind].
  read_field. read_field. read_field.
  rewrite ToInt32_small by (unfold MAX_KEEPALIVE in *; pow2; lia).
  passes.
  read_field.
  rewrite ToInt32_small by (unfold MAX_LIFETIME in *; pow2; lia).
  passes.
  read_field.
  pose proof (size_nonneg (Wire.resumeToken w)).
  pose proof (size_nonneg (Wire.metadataMimeType w)).
  pose proof (size_nonneg (Wire.dataMimeType w)).
  rewrite (Z.mod_small (size (Wire.resumeToken w))) by (pow2; change (2^15) with 32768 in *; lia).
  replace (int16 (size (Wire.resumeToken w))) with (size (Wire.resumeToken w))
    by (unfold int16; replace (2^15 <=? size (Wire.resumeToken w)) with false by lia; reflexivity).
  passes.
  destruct resumeToken as [rt|]; [|contradiction].
  destruct metadataMimeType as [mm|]; [|contradiction].
  destruct dataMimeType as [dm|]; [|contradiction].
  cbn [decodedField] in *.
  rewrite (Hrt _ _ _) by slice_chunk. next.
  read_field.
  rewrite (Z.mod_small (size (Wire.metadataMimeType w))) by (pow2; lia).
  rewrite (Hmm _ _ _) by slice_chunk. next.
  read_field.
  rewrite (Z.mod_small (size (Wire.dataMimeType w))) by (pow2; lia).
  rewrite (Hdm _ _ _) by slice_chunk. next.
  rewrite (Z.mod_small majorVersion), (Z.mod_small minorVersion) by assumption.
  rewrite !app_assoc. rewrite <- (app_assoc _ (payloadBytes flags w) []).
  match goal with
  | |- readPayload (over 0 _ (?pre ++ ?rest)) ?f _ _ = _ =>
      change (over 0 (size (pre ++ rest)) (pre ++ rest))
        with (ByteBuffer.wrap (pre ++ rest));
      rewrite (readPayload_bytes encoders f pre w data metadata _ Hp) by side
  end.
  destruct data, metadata; reflexivity.
Qed.

Lemma deserializeErrorFrame_bytes encoders w code flags message streamId :
  let frame := ErrorFrame code flags message streamId in
  Canonical encoders frame w ->
  deserializeErrorFrame (ByteBuffer.wrap (frameBytes frame w ++ []))
    streamId flags encoders
  = Ok frame.
Proof.
  intros frame (Hs & Hf & Hcode & Hmsg).
  unfold deserializeErrorFrame, ByteBuffer.wrap. on_store.
  subst frame. unfold frameBytes.
  cbv beta iota.
  set (frame := ErrorFrame _ _ _ _).
  rewrite <- !app_assoc.
  read_field.
  rewrite ToInt32_small by (unfold MAX_CODE in *; pow2; lia).
  passes.
  destruct message as [v|]; [|contradiction]. destruct Hmsg as [Hempty Hdec].
  autorewrite with sizes. unfold FRAME_HEADER_SIZE.
  destruct (Wire.message w) as [|b bs] eqn:Ew.
  - change (size []) with 0. change (0 <? 6 + (4 + (0 + 0)) - (6 + 4))
      with false.
    next. subst frame. rewrite (Hempty eq_refl). reflexivity.
  - pose proof (size_nonneg bs).
    replace (0 <? 6 + (4 + (size (b :: bs) + 0)) - (6 + 4)) with true
      by (rewrite size_cons; lia).
    rewrite (Hdec ltac:(discriminate) _ _ _) by slice_chunk.
    reflexivity.
Qed.

Lemma deserializeKeepAliveFrame_bytes encoders w
    data flags lastReceivedPosition streamId :
  let frame := KeepAliveFrame data flags lastReceivedPosition streamId in
  Canonical encoders frame w ->
  deserializeKeepAliveFrame (ByteBuffer.wrap (frameBytes frame w ++ []))
    streamId flags encoders
  = Ok frame.
Proof.
  intros frame (Hs & Hf & -> & Hpos & Hd).
  unfold deserializeKeepAliveFrame, ByteBuffer.wrap. on_store.
  subst frame. unfold frameBytes.
  cbv beta iota.
  set (frame := KeepAliveFrame _ _ _ _).
  change (0 =? 0) with true. cbn [invariant bind].
  assert (El : Long_fromNumber lastReceivedPosition = lastReceivedPosition).
  { unfold Long_fromNumber.
    change (2^53) with 9007199254740992 in Hpos.
    destruct (Z.leb_spec lastReceivedPosition (- 2^63));
      [change (2^63) with 9223372036854775808 in *; lia|].
    destruct (Z.leb_spec (2^63) (lastReceivedPosition + 1));
      [change (2^63) with 9223372036854775808 in *; lia | reflexivity]. }
  rewrite El.
  rewrite <- !app_assoc.
  read_field.
  rewrite Z.mod_small
    by (change (2^53) with 9007199254740992 in Hpos;
        change (2^64) with 18446744073709551616; lia).
  rewrite toNumber_small by lia.
  autorewrite with sizes. unfold FRAME_HEADER_SIZE.
  unfold trailingField in Hd. destruct data as [v|].
  - destruct Hd as [Hdec Hne]. apply nonempty_size in Hne.
    replace (6 + 8 <? 6 + (8 + (size (Wire.data w) + 0))) with true
      by lia.
    rewrite (Hdec _ _ _) by slice_chunk. reflexivity.
  - rewrite Hd. reflexivity.
Qed.

Lemma deserializeLeaseFrame_bytes encoders w
    flags metadata requestCount streamId ttl :
  let frame := LeaseFrame flags metadata requestCount streamId ttl in
  Canonical encoders frame w ->
  deserializeLeaseFrame (ByteBuffer.wrap (frameBytes frame w ++ []))
    streamId flags encoders
  = Ok frame.
Proof.
  intros frame (Hs & Hf & -> & Httl & Hrc & Hm).
  unfold deserializeLeaseFrame, ByteBuffer.wrap. on_store.
  subst frame. unfold frameBytes.
  cbv beta iota.
  set (frame := LeaseFrame _ _ _ _ _).
  change (0 =? 0) with true. cbn [invariant bind].
  rewrite <- !app_assoc.
  read_field. read_field.
  rewrite !Z.mod_small by assumption.
  autorewrite with sizes. unfold FRAME_HEADER_SIZE.
  unfold trailingField in Hm. destruct metadata as [v|].
  - destruct Hm as [Hdec Hne]. apply nonempty_size in Hne.
    replace (6 + 4 + 4 <? 6 + (4 + (4 + (size (Wire.metadata w) + 0))))
      with true by lia.
    rewrite (Hdec _ _ _) by slice_chunk. reflexivity.
  - rewrite Hm. reflexivity.
Qed.

(** The three readers of REQUEST_FNF, REQUEST_RESPONSE and PAYLOAD. *)
Lemma readPayloadFrame_bytes encoders w frame0 frame data metadata :
  Field.flags frame0 = Field.flags frame ->
  payloadCanonical encoders (Field.flags frame) data metadata w ->
  readPayload
    (ByteBuffer.wrap
       ((headerBytes frame ++ payloadBytes (Field.flags frame) w) ++ []))
    frame0 encoders FRAME_HEADER_SIZE
  = Ok (setOpt Field.set_data (setOpt Field.set_metadata frame0 metadata)
          data).
Proof.
  intros Hflags Hp. rewrite <- app_assoc. rewrite <- Hflags in *.
  apply readPayload_bytes; [assumption | reflexivity].
Qed.

(** The two readers of REQUEST_STREAM and REQUEST_CHANNEL, after the
    stream id check. *)
Lemma readRequestManyFrame_bytes encoders w (mk : Z -> Frame) frame
    requestN data metadata :
  0 < requestN < 2^31 ->
  (forall n, Field.flags (mk n) = Field.flags frame) ->
  payloadCanonical encoders (Field.flags frame) data metadata w ->
  (requestN' <-
     ByteBuffer.readInt32
       (ByteBuffer.wrap
          ((headerBytes frame ++ be32 requestN
            ++ payloadBytes (Field.flags frame) w) ++ []))
       FRAME_HEADER_SIZE ;;
   _ <- invariant (0 <? requestN') ;;
   readPayload
     (ByteBuffer.wrap
        ((headerBytes frame ++ be32 requestN
          ++ payloadBytes (Field.flags frame) w) ++ []))
     (mk requestN') encoders (FRAME_HEADER_SIZE + 4))
  = Ok (setOpt Field.set_data
          (setOpt Field.set_metadata (mk requestN) metadata) data).
Proof.
  intros Hn Hflags Hp.
  rewrite <- !app_assoc.
  change (ByteBuffer.readInt32 (ByteBuffer.wrap ?b) ?o)
    with (readInt32 b o).
  read_field.
  rewrite ToInt32_small by (pow2; lia).
  passes.
  rewrite <- (Hflags requestN) in *.
  rewrite (app_assoc (headerBytes frame)).
  apply readPayload_bytes; [assumption | side].
Qed.

(** The readers give back the frame whose layout they are given. *)
Lemma deserializeFrame_bytes frame encoders w :
  Canonical (orUtf8Encoders encoders) frame w ->
  deserializeFrame (ByteBuffer.wrap (frameBytes frame w)) encoders
  = Ok frame.
Proof.
  intros Hcanon.
  assert (Ht : 0 <= Field.type frame <= 63).
  { destruct Hcanon as (_ & _ & Hk).
    destruct frame; try contradiction; cbn [Field.type];
      unfold FRAME_TYPES.SETUP, FRAME_TYPES.ERROR, FRAME_TYPES.KEEPALIVE,
        FRAME_TYPES.LEASE, FRAME_TYPES.REQUEST_FNF,
        FRAME_TYPES.REQUEST_RESPONSE, FRAME_TYPES.REQUEST_STREAM,
        FRAME_TYPES.REQUEST_CHANNEL, FRAME_TYPES.REQUEST_N,
        FRAME_TYPES.CANCEL, FRAME_TYPES.PAYLOAD; lia. }
  pose proof Hcanon as (Hs & Hf & Hk).
  rewrite <- (app_nil_r (frameBytes frame w)).
  unfold deserializeFrame.
  assert (Hhead : exists body,
             frameBytes frame w ++ [] = headerBytes frame ++ body).
  { unfold frameBytes. rewrite <- app_assoc. eexists. reflexivity. }
  destruct Hhead as (body & Hbody).
  destruct (header_read frame body Hs Hf Ht) as (R1 & R2 & R3 & R4).
  rewrite <- Hbody in R1, R2.
  change (readInt32 ?b ?o)
    with (ByteBuffer.readInt32 (ByteBuffer.wrap b) o) in R1.
  change (readUint16 ?b ?o)
    with (ByteBuffer.readUint16 (ByteBuffer.wrap b) o) in R2.
  rewrite R1. next. change (0 + 4) with 4.
  replace (0 <=? Field.streamId frame) with true by lia.
  cbn [invariant bind]. rewrite R2. next. rewrite R3, R4.
  clear R1 R2 R3 R4 Hbody body.
  destruct frame; try contradiction; cbn [Field.type Field.streamId
                                            Field.flags] in *;
    decide_types.
  - apply deserializeSetupFrame_bytes. assumption.
  - apply deserializeErrorFrame_bytes. assumption.
  - apply deserializeKeepAliveFrame_bytes. assumption.
  - apply deserializeLeaseFrame_bytes. assumption.
  - destruct Hk as (Hpos & Hp). unfold deserializeRequestFnfFrame.
    replace (0 <? streamId) with true by lia. cbn [invariant bind].
    unfold frameBytes.
    etransitivity;
      [exact (readPayloadFrame_bytes _ w
               (RequestFnfFrame None flags None streamId)
               (RequestFnfFrame data flags metadata streamId)
               data metadata eq_refl Hp)|].
    destruct data, metadata; reflexivity.
  - destruct Hk as (Hpos & Hp). unfold deserializeRequestResponseFrame.
    replace (0 <? streamId) with true by lia. cbn [invariant bind].
    unfold frameBytes.
    etransitivity;
      [exact (readPayloadFrame_bytes _ w
               (RequestResponseFrame None flags None streamId)
               (RequestResponseFrame data flags metadata streamId)
               data metadata eq_refl Hp)|].
    destruct data, metadata; reflexivity.
  - destruct Hk as (Hpos & Hn & Hp). unfold deserializeRequestStreamFrame.
    replace (0 <? streamId) with true by lia. cbn [invariant bind].
    unfold frameBytes.
    etransitivity;
      [exact (readRequestManyFrame_bytes _ w
               (fun n => RequestStreamFrame None flags None n streamId)
               (RequestStreamFrame data flags metadata requestN streamId)
               requestN data metadata Hn (fun _ => eq_refl) Hp)|].
    destruct data, metadata; reflexivity.
  - destruct Hk as (Hpos & Hn & Hp). unfold deserializeRequestChannelFrame.
    replace (0 <? streamId) with true by lia. cbn [invariant bind].
    unfold frameBytes.
    etransitivity;
      [exact (readRequestManyFrame_bytes _ w
               (fun n => RequestChannelFrame None flags None n streamId)
               (RequestChannelFrame data flags metadata requestN streamId)
               requestN data metadata Hn (fun _ => eq_refl) Hp)|].
    destruct data, metadata; reflexivity.
  - destruct Hk as (Hpos & Hn). unfold deserializeRequestNFrame.
    replace (0 <? streamId) with true by lia. cbn [invariant bind].
    unfold frameBytes. rewrite <- !app_assoc.
    change (ByteBuffer.readInt32 (ByteBuffer.wrap ?b) ?o)
      with (readInt32 b o).
    read_field. rewrite ToInt32_small by (pow2; lia). passes.
    reflexivity.
  - unfold deserializeCancelFrame.
    replace (0 <? streamId) with true by lia. reflexivity.
  - destruct Hk as (Hpos & Hp). unfold deserializePayloadFrame.
    replace (0 <? streamId) with true by lia. cbn [invariant bind].
    unfold frameBytes.
    etransitivity;
      [exact (readPayloadFrame_bytes _ w
               (PayloadFrame None flags None streamId)
               (PayloadFrame data flags metadata streamId)
               data metadata eq_refl Hp)|].
    destruct data, metadata; reflexivity.
Qed.

(** ** Round trip *)

(** The UTF-8 decoder reads the bytes between the two offsets: the slice
    it takes has them as its offset and its limit. *)
Lemma UTF8Encoder_decode buffer start end_ bs :
  slice (ByteBuffer.store buffer) start end_ = Ok bs ->
  Encoder.decode UTF8Encoder buffer start end_ = Ok (EString (decodeUTF8 bs)).
Proof.
  intros Hslice. cbn [Encoder.decode UTF8Encoder].
  unfold ByteBuffer.slice, ByteBuffer.capacity.
  assert (Hcheck : (0 <=? start) && (start <=? end_)
                   && (end_ <=? size (ByteBuffer.store buffer)) = true).
  { unfold slice in Hslice.
    destruct ((0 <=? start) && (start <=? end_)
              && (end_ <=? size (ByteBuffer.store buffer)));
      [reflexivity | discriminate]. }
  rewrite Hcheck. next. unfold ByteBuffer.toUTF8.
  cbn [ByteBuffer.store ByteBuffer.offset ByteBuffer.limit].
  rewrite Hslice. reflexivity.
Qed.

Lemma UTF8Encoder_Decodes s :
  decodeUTF8 (encodeUTF8 s) = s ->
  Decodes UTF8Encoder (EString s) (encodeUTF8 s).
Proof.
  intros Hs buffer start end_ Hslice.
  rewrite (UTF8Encoder_decode buffer start end_ _ Hslice), Hs.
  reflexivity.
Qed.



(** The bytes of that frame (scenario 3 of the spec). *)
Example payload_frame_bytes :
  serializeFrame
    (PayloadFrame (Some (EString [0x61; 0x62; 0x63])) 0x160
       (Some (EString [0x68; 0x69])) 1) None
  = Ok (ByteBuffer.wrap
          [x00; x00; x00; x01; x29; x60; x00; x00; x02; x68; x69; x61; x62;
           x63]).
Proof. reflexivity. Qed.


(** Other frames of the data model that come back changed: an ERROR frame
    without message gets the empty string; metadata given without the
    METADATA flag is lost; KEEPALIVE data that is present but empty comes
    back as [null]. *)
Example error_without_message_comes_back_changed :
  exists buffer,
    serializeFrame (ErrorFrame 0x201 0 None 1) None = Ok buffer
    /\ deserializeFrame buffer None
       = Ok (ErrorFrame 0x201 0 (Some (EString [])) 1).
Proof. eexists. split; reflexivity. Qed.

Example metadata_without_flag_is_lost :
  exists buffer,
    serializeFrame
      (PayloadFrame (Some (EString [0x61])) 0x20 (Some (EString [0x68])) 1)
      None = Ok buffer
    /\ deserializeFrame buffer None
       = Ok (PayloadFrame (Some (EString [0x61])) 0x20 None 1).
Proof. eexists. split; reflexivity. Qed.

Example empty_keepalive_data_comes_back_null :
  exists buffer,
    serializeFrame (KeepAliveFrame (Some (EString [])) 0 5 0) None = Ok buffer
    /\ deserializeFrame buffer None = Ok (KeepAliveFrame None 0 5 0).
Proof. eexists. split; reflexivity. Qed.

(** ** UTF-8 read back *)

Lemma byte_cases (P : Z -> Prop) :
  (forall b : byte, P (Z_of_byte b)) -> forall a, 0 <= a < 256 -> P a.
Proof.
  intros H a Ha. rewrite <- (Z.mod_small a 256), <- Z_of_byte_of_Z by lia.
  apply H.
Qed.

Lemma land_mask x mask n :
  mask = 2^n - 1 -> 0 <= n -> Z.land x mask = x mod 2^n.
Proof. intros -> Hn. apply land_ones_mod. assumption. Qed.

Lemma lor_tag y c tag n :
  c = tag * 2^n -> 0 <= n -> 0 <= y < 2^n -> Z.lor y c = c + y.
Proof. intros -> Hn Hy. rewrite Z.lor_comm. apply lor_mul_add; assumption. Qed.

(** A continuation byte: [(x & 0x3F) | 0x80]. *)
Lemma continuation_byte x :
  Z_of_byte (byte_of_Z (Z.lor (Z.land x 0x3F) 0x80)) = 128 + x mod 64.
Proof.
  rewrite (land_mask x 0x3F 6) by (reflexivity || lia).
  rewrite (lor_tag _ 0x80 2 6)
    by (try reflexivity; try lia; apply Z.mod_pos_bound; reflexivity).
  rewrite Z_of_byte_of_Z. change (2^6) with 64.
  Z.to_euclidean_division_equations. lia.
Qed.

Lemma continuation_payload x :
  Z.land (128 + x mod 64) 0x3F = x mod 64.
Proof.
  rewrite (land_mask _ 0x3F 6) by (reflexivity || lia). change (2^6) with 64.
  Z.to_euclidean_division_equations. lia.
Qed.

(** One step of the decoder on a continuation byte that lies between the
    two bounds. *)
Lemma decodeUTF8_continuation x rest acc needed lower upper :
  0 < needed -> lower <= 128 + x mod 64 <= upper ->
  decodeUTF8_from (byte_of_Z (Z.lor (Z.land x 0x3F) 0x80) :: rest)
    acc needed lower upper
  = if needed =? 1
    then (acc * 64 + x mod 64) :: decodeUTF8_from rest 0 0 0x80 0xBF
    else decodeUTF8_from rest (acc * 64 + x mod 64) (needed - 1) 0x80 0xBF.
Proof.
  intros Hn Hb. cbn [decodeUTF8_from]. rewrite continuation_byte. cbv zeta.
  replace (needed =? 0) with false by lia.
  replace ((128 + x mod 64 <? lower) || (upper <? 128 + x mod 64))
    with false by lia.
  cbv iota.
  rewrite continuation_payload.
  rewrite lor_shiftl_add by (try lia; apply Z.mod_pos_bound; reflexivity).
  reflexivity.
Qed.

(** A leading byte: [(x & mask) | tag]. *)
Lemma leading_byte x mask tag n k :
  mask = 2^n - 1 -> tag = k * 2^n -> 0 <= n ->
  Z.lor (Z.land x mask) tag = tag + x mod 2^n.
Proof.
  intros -> Htag Hn. rewrite land_ones_mod by assumption.
  apply (lor_tag _ tag k n); try assumption.
  apply Z.mod_pos_bound. lia.
Qed.

(** The step of the decoder on a first byte, by the length it announces. *)
Lemma decodeUTF8_lead1 a rest lower upper :
  0 <= a <= 0x7F ->
  decodeUTF8_from (byte_of_Z a :: rest) 0 0 lower upper
  = a :: decodeUTF8_from rest 0 0 0x80 0xBF.
Proof.
  intros Ha. cbn [decodeUTF8_from].
  rewrite Z_of_byte_of_Z, Z.mod_small by lia. cbv zeta.
  change (0 =? 0) with true. cbv iota.
  replace (a <=? 0x7F) with true by lia. reflexivity.
Qed.

Lemma decodeUTF8_lead2 a rest lower upper :
  0xC2 <= a <= 0xDF ->
  decodeUTF8_from (byte_of_Z a :: rest) 0 0 lower upper
  = decodeUTF8_from rest (Z.land a 0x1F) 1 0x80 0xBF.
Proof.
  intros Ha. cbn [decodeUTF8_from].
  rewrite Z_of_byte_of_Z, Z.mod_small by lia. cbv zeta.
  change (0 =? 0) with true. cbv iota.
  replace (a <=? 0x7F) with false by lia.
  replace ((0xC2 <=? a) && (a <=? 0xDF)) with true by lia. reflexivity.
Qed.

Lemma decodeUTF8_lead3 a rest lower upper :
  0xE0 <= a <= 0xEF ->
  decodeUTF8_from (byte_of_Z a :: rest) 0 0 lower upper
  = decodeUTF8_from rest (Z.land a 0x0F) 2
      (if a =? 0xE0 then 0xA0 else 0x80) (if a =? 0xED then 0x9F else 0xBF).
Proof.
  intros Ha. cbn [decodeUTF8_from].
  rewrite Z_of_byte_of_Z, Z.mod_small by lia. cbv zeta.
  change (0 =? 0) with true. cbv iota.
  replace (a <=? 0x7F) with false by lia.
  replace ((0xC2 <=? a) && (a <=? 0xDF)) with false by lia.
  replace ((0xE0 <=? a) && (a <=? 0xEF)) with true by lia. reflexivity.
Qed.

Lemma decodeUTF8_lead4 a rest lower upper :
  0xF0 <= a <= 0xF4 ->
  decodeUTF8_from (byte_of_Z a :: rest) 0 0 lower upper
  = decodeUTF8_from rest (Z.land a 0x07) 3
      (if a =? 0xF0 then 0x90 else 0x80) (if a =? 0xF4 then 0x8F else 0xBF).
Proof.
  intros Ha. cbn [decodeUTF8_from].
  rewrite Z_of_byte_of_Z, Z.mod_small by lia. cbv zeta.
  change (0 =? 0) with true. cbv iota.
  replace (a <=? 0x7F) with false by lia.
  replace ((0xC2 <=? a) && (a <=? 0xDF)) with false by lia.
  replace ((0xE0 <=? a) && (a <=? 0xEF)) with false by lia.
  replace ((0xF0 <=? a) && (a <=? 0xF4)) with true by lia. reflexivity.
Qed.

(** The decoder reads the UTF-8 form of a code point back. *)
Lemma decodeUTF8_encodeCodePoint cp rest :
  0 <= cp < 0xD800 \/ 0xDFFF < cp <= 0x10FFFF ->
  decodeUTF8_from (encodeCodePoint cp ++ rest) 0 0 0x80 0xBF
  = cp :: decodeUTF8_from rest 0 0 0x80 0xBF.
Proof.
  intros Hcp. unfold encodeCodePoint.
  destruct (Z.ltb_spec cp 0x80) as [H1|H1].
  { (* one byte *)
    cbn [app]. rewrite (land_mask cp 0x7F 7) by (reflexivity || lia).
    change (2^7) with 128. rewrite Z.mod_small by lia.
    apply decodeUTF8_lead1. lia. }
  destruct (Z.ltb_spec cp 0x800) as [H2|H2].
  { (* two bytes *)
    cbn [app]. rewrite Z.shiftr_div_pow2 by lia. change (2^6) with 64.
    rewrite (leading_byte _ 0x1F 0xC0 5 6) by (reflexivity || lia).
    change (2^5) with 32.
    set (a := 192 + cp / 64 mod 32).
    assert (Ha : a = 192 + cp / 64)
      by (subst a; Z.to_euclidean_division_equations; lia).
    assert (Hrange : 194 <= a <= 223)
      by (rewrite Ha; Z.to_euclidean_division_equations; lia).
    clearbody a. rewrite decodeUTF8_lead2 by lia.
    rewrite (land_mask a 0x1F 5) by (reflexivity || lia).
    change (2^5) with 32.
    rewrite decodeUTF8_continuation
      by (try lia; Z.to_euclidean_division_equations; lia).
    change (1 =? 1) with true. cbv iota. f_equal.
    Z.to_euclidean_division_equations. lia. }
  destruct (Z.ltb_spec cp 0x10000) as [H3|H3].
  { (* three bytes *)
    cbn [app]. rewrite !Z.shiftr_div_pow2 by lia.
    change (2^6) with 64. change (2^12) with 4096.
    rewrite (leading_byte _ 0x0F 0xE0 4 14) by (reflexivity || lia).
    change (2^4) with 16.
    set (a := 224 + cp / 4096 mod 16).
    assert (Ha : a = 224 + cp / 4096)
      by (subst a; Z.to_euclidean_division_equations; lia).
    assert (Hrange : 224 <= a <= 239)
      by (rewrite Ha; Z.to_euclidean_division_equations; lia).
    clearbody a. rewrite decodeUTF8_lead3 by lia.
    rewrite (land_mask a 0x0F 4) by (reflexivity || lia).
    change (2^4) with 16.
    rewrite decodeUTF8_continuation;
      [|lia
       |destruct (Z.eqb_spec a 0xE0), (Z.eqb_spec a 0xED);
        Z.to_euclidean_division_equations; lia].
    change (2 =? 1) with false. cbv iota. change (2 - 1) with 1.
    rewrite decodeUTF8_continuation
      by (try lia; Z.to_euclidean_division_equations; lia).
    change (1 =? 1) with true. cbv iota. f_equal.
    Z.to_euclidean_division_equations. lia. }
  (* four bytes *)
  cbn [app]. rewrite !Z.shiftr_div_pow2 by lia.
  change (2^6) with 64. change (2^12) with 4096. change (2^18) with 262144.
  rewrite (leading_byte _ 0x07 0xF0 3 30) by (reflexivity || lia).
  change (2^3) with 8.
  set (a := 240 + cp / 262144 mod 8).
  assert (Ha : a = 240 + cp / 262144)
    by (subst a; Z.to_euclidean_division_equations; lia).
  assert (Hrange : 240 <= a <= 244)
    by (rewrite Ha; Z.to_euclidean_division_equations; lia).
  clearbody a. rewrite decodeUTF8_lead4 by lia.
  rewrite (land_mask a 0x07 3) by (reflexivity || lia).
  change (2^3) with 8.
  rewrite decodeUTF8_continuation;
    [|lia
     |destruct (Z.eqb_spec a 0xF0), (Z.eqb_spec a 0xF4);
      Z.to_euclidean_division_equations; lia].
  change (3 =? 1) with false. cbv iota. change (3 - 1) with 2.
  rewrite decodeUTF8_continuation
    by (try lia; Z.to_euclidean_division_equations; lia).
  change (2 =? 1) with false. cbv iota. change (2 - 1) with 1.
  rewrite decodeUTF8_continuation
    by (try lia; Z.to_euclidean_division_equations; lia).
  change (1 =? 1) with true. cbv iota. f_equal.
  Z.to_euclidean_division_equations. lia.
Qed.

Lemma decodeUTF8_encodeUTF8 str :
  codePoints str -> decodeUTF8 (encodeUTF8 str) = str.
Proof.
  unfold decodeUTF8.
  induction 1 as [|cp rest Hcp _ IH]; [reflexivity|].
  cbn [encodeUTF8]. rewrite decodeUTF8_encodeCodePoint by assumption.
  rewrite IH. reflexivity.
Qed.

(** The decoder gives at least one character for at least one byte, and
    for a sequence cut short. *)
Lemma decodeUTF8_from_nonempty bs : forall cp needed lower upper,
  bs <> [] \/ needed <> 0 ->
  decodeUTF8_from bs cp needed lower upper <> [].
Proof.
  induction bs as [|b rest IH]; intros cp needed lower upper Hsome.
  - destruct Hsome as [Hbs|Hneeded]; [congruence|].
    cbn [decodeUTF8_from]. destruct (Z.eqb_spec needed 0); [lia|].
    discriminate.
  - cbn [decodeUTF8_from]. cbv zeta.
    assert (Hfirst :
              (if Z_of_byte b <=? 0x7F
               then Z_of_byte b :: decodeUTF8_from rest 0 0 0x80 0xBF
               else if (0xC2 <=? Z_of_byte b) && (Z_of_byte b <=? 0xDF)
               then decodeUTF8_from rest (Z.land (Z_of_byte b) 0x1F) 1
                      0x80 0xBF
               else if (0xE0 <=? Z_of_byte b) && (Z_of_byte b <=? 0xEF)
               then decodeUTF8_from rest (Z.land (Z_of_byte b) 0x0F) 2
                      (if Z_of_byte b =? 0xE0 then 0xA0 else 0x80)
                      (if Z_of_byte b =? 0xED then 0x9F else 0xBF)
               else if (0xF0 <=? Z_of_byte b) && (Z_of_byte b <=? 0xF4)
               then decodeUTF8_from rest (Z.land (Z_of_byte b) 0x07) 3
                      (if Z_of_byte b =? 0xF0 then 0x90 else 0x80)
                      (if Z_of_byte b =? 0xF4 then 0x8F else 0xBF)
               else REPLACEMENT :: decodeUTF8_from rest 0 0 0x80 0xBF)
              <> []).
    { destruct (Z_of_byte b <=? 0x7F); [discriminate|].
      destruct ((0xC2 <=? Z_of_byte b) && (Z_of_byte b <=? 0xDF));
        [apply IH; right; lia|].
      destruct ((0xE0 <=? Z_of_byte b) && (Z_of_byte b <=? 0xEF));
        [apply IH; right; lia|].
      destruct ((0xF0 <=? Z_of_byte b) && (Z_of_byte b <=? 0xF4));
        [apply IH; right; lia | discriminate]. }
    destruct (Z.eqb_spec needed 0); [exact Hfirst|].
    destruct ((Z_of_byte b <? lower) || (upper <? Z_of_byte b));
      [discriminate|].
    destruct (Z.eqb_spec needed 1); [discriminate|].
    apply IH. right. lia.
Qed.

Lemma decodeUTF8_nonempty bs : bs <> [] -> decodeUTF8 bs <> [].
Proof. intros H. apply decodeUTF8_from_nonempty. left. assumption. Qed.

Lemma encodeUTF8_nonempty str : str <> [] -> encodeUTF8 str <> [].
Proof.
  destruct str as [|cp rest]; [congruence|]. intros _ Hnil.
  apply (f_equal size) in Hnil.
  rewrite size_encodeUTF8 in Hnil. cbn [calculateUTF8Bytes] in Hnil.
  change (size []) with 0 in Hnil.
  pose proof (size_nonneg (encodeUTF8 rest)) as Hrest.
  rewrite size_encodeUTF8 in Hrest.
  unfold calculateCodePoint in Hnil.
  destruct (cp <? 0x80), (cp <? 0x800), (cp <? 0x10000); lia.
Qed.

Lemma UTF8Encoder_reads_back str :
  codePoints str -> Decodes UTF8Encoder (EString str) (encodeUTF8 str).
Proof.
  intros Hstr. apply UTF8Encoder_Decodes. apply decodeUTF8_encodeUTF8.
  assumption.
Qed.

(** Round trip of a PAYLOAD frame with text metadata and data under the
    default encoders. *)
Corollary payload_frame_round_trip data metadata flags streamId :
  0 < streamId < 2^31 -> 0 <= flags < 2^10 -> isMetadata flags = true ->
  codePoints data -> data <> [] ->
  codePoints metadata -> metadata <> [] ->
  calculateUTF8Bytes metadata < 2^24 ->
  let frame :=
    PayloadFrame (Some (EString data)) flags (Some (EString metadata))
      streamId in
  exists buffer,
    serializeFrame frame None = Ok buffer
    /\ deserializeFrame buffer None = Ok frame.
Proof.
  intros Hs Hf Hflag Hdata Hdne Hmeta Hmne Hlen frame.
  pose (w := {| Wire.data := encodeUTF8 data;
                Wire.dataMimeType := []; Wire.message := [];
                Wire.metadata := encodeUTF8 metadata;
                Wire.metadataMimeType := []; Wire.resumeToken := [] |}).
  exists (ByteBuffer.wrap (frameBytes frame w)). split.
  - apply serializeFrame_bytes; [exact I|].
    split; [exact (UTF8Encoder_Encodes data)|].
    split; [reflexivity|]. split; [reflexivity|].
    split; [intros _; exact (UTF8Encoder_Encodes metadata)|].
    split; reflexivity.
  - apply deserializeFrame_bytes.
    split; [cbn [Field.streamId frame]; lia|].
    split; [assumption|].
    split; [lia|]. split.
    + split; [apply UTF8Encoder_reads_back; assumption|].
      apply encodeUTF8_nonempty. assumption.
    + rewrite Hflag. cbn [Wire.metadata w]. rewrite size_encodeUTF8.
      split; [assumption|]. split.
      * apply UTF8Encoder_reads_back. assumption.
      * apply encodeUTF8_nonempty. assumption.
Qed.

(** ** The resume token length *)

Lemma deserializeFrame_setup frame body encoders :
  Field.type frame = FRAME_TYPES.SETUP ->
  0 <= Field.streamId frame < 2^31 ->
  0 <= Field.flags frame < 2^10 ->
  deserializeFrame (ByteBuffer.wrap (headerBytes frame ++ body)) encoders
  = deserializeSetupFrame (ByteBuffer.wrap (headerBytes frame ++ body))
      (Field.streamId frame) (Field.flags frame) (orUtf8Encoders encoders).
Proof.
  intros Htype Hs Hf.
  assert (Ht : 0 <= Field.type frame <= 63)
    by (rewrite Htype; unfold FRAME_TYPES.SETUP; lia).
  destruct (header_read frame body Hs Hf Ht) as (R1 & R2 & R3 & R4).
  unfold deserializeFrame.
  change (readInt32 ?b ?o)
    with (ByteBuffer.readInt32 (ByteBuffer.wrap b) o) in R1.
  change (readUint16 ?b ?o)
    with (ByteBuffer.readUint16 (ByteBuffer.wrap b) o) in R2.
  rewrite R1. next. change (0 + 4) with 4.
  replace (0 <=? Field.streamId frame) with true by lia.
  cbn [invariant bind]. rewrite R2. next. rewrite R3, R4, Htype.
  decide_types. reflexivity.
Qed.

(** X24.  The writer stores the length of the resume token as an unsigned
    16-bit integer and the reader reads it as a signed one: a SETUP frame
    whose resume token has between 32768 and 65535 bytes, within
    MAX_RESUME_LENGTH, is written and then refused by the reader. *)
Lemma long_resume_token_is_refused encoders w
    data dataMimeType flags keepAlive lifetime majorVersion metadata
    metadataMimeType minorVersion resumeToken :
  let frame :=
    SetupFrame data dataMimeType flags keepAlive lifetime majorVersion
      metadata metadataMimeType minorVersion resumeToken 0 in
  Encoded (orUtf8Encoders encoders) frame w ->
  0 <= flags < 2^10 ->
  0 <= keepAlive <= MAX_KEEPALIVE -> 0 <= lifetime <= MAX_LIFETIME ->
  2^15 <= size (Wire.resumeToken w) <= MAX_RESUME_LENGTH ->
  exists buffer,
    serializeFrame frame encoders = Ok buffer
    /\ deserializeFrame buffer encoders = Throw InvariantViolation.
Proof.
  intros frame Henc Hf Hka Hlt Hrt.
  exists (ByteBuffer.wrap (frameBytes frame w)). split.
  - apply serializeFrame_bytes; [exact I | assumption].
  - rewrite <- (app_nil_r (frameBytes frame w)).
    unfold frameBytes. rewrite <- app_assoc.
    rewrite deserializeFrame_setup
      by (try reflexivity; cbn [Field.streamId Field.flags frame];
          pow2; lia).
    cbn [Field.streamId Field.flags frame].
    unfold deserializeSetupFrame, ByteBuffer.wrap. on_store.
    cbv beta iota.
    rewrite <- !app_assoc.
    change (0 =? 0) with true. cbn [invariant bind].
    read_field. read_field. read_field.
    rewrite ToInt32_small by (unfold MAX_KEEPALIVE in *; pow2; lia).
    passes.
    read_field.
    rewrite ToInt32_small by (unfold MAX_LIFETIME in *; pow2; lia).
    passes.
    read_field.
    unfold MAX_RESUME_LENGTH in *. change (2^15) with 32768 in *.
    rewrite (Z.mod_small (size (Wire.resumeToken w))) by (pow2; lia).
    unfold int16. change (2^15) with 32768. change (2^16) with 65536.
    replace (32768 <=? size (Wire.resumeToken w)) with true by lia.
    replace ((0 <=? size (Wire.resumeToken w) - 65536)
             && (size (Wire.resumeToken w) - 65536 <=? 65535))
      with false by lia.
    reflexivity.
Qed.

(** X24 on a SETUP frame under the buffer encoders whose resume token has
    32768 bytes. *)
Lemma long_resume_token_is_refused_witness :
  let token := ByteBuffer.wrap (repeat x00 (Z.to_nat 32768)) in
  let frame :=
    SetupFrame None (Some (EString [])) 0 60000 180000 1 None
      (Some (EString [])) 0 (Some (EByteBuffer token)) 0 in
  exists buffer,
    serializeFrame frame (Some BufferEncoders) = Ok buffer
    /\ deserializeFrame buffer (Some BufferEncoders)
       = Throw InvariantViolation.
Proof.
  intros token.
  apply (long_resume_token_is_refused (Some BufferEncoders)
           {| Wire.data := []; Wire.dataMimeType := [];
              Wire.message := []; Wire.metadata := [];
              Wire.metadataMimeType := [];
              Wire.resumeToken :=
                standardBytes (Some (EByteBuffer token)) |}).
  - split; [reflexivity|].
    split; [exact (UTF8Encoder_Encodes [])|].
    split; [reflexivity|].
    split; [intros _; reflexivity|].
    split; [exact (UTF8Encoder_Encodes [])|].
    apply BufferEncoder_Encodes. vm_compute. intuition discriminate.
  - vm_compute. intuition discriminate.
  - vm_compute. intuition discriminate.
  - vm_compute. intuition discriminate.
  - vm_compute. intuition discriminate.
Defined.

(** ** The stream framer *)

(** [source.copyTo(target, targetOffset, 0, source.limit)] writes the bytes
    of the source in front of its limit. *)
Lemma copyTo_write source target targetOffset :
  0 <= ByteBuffer.limit source <= ByteBuffer.capacity source ->
  ByteBuffer.copyTo source target targetOffset 0 (ByteBuffer.limit source)
  = ByteBuffer.write target targetOffset
      (firstn (Z.to_nat (ByteBuffer.limit source)) (ByteBuffer.store source)).
Proof.
  intros Hsource. unfold ByteBuffer.copyTo, copyTo. on_store.
  unfold write, writable.
  replace ((0 <? 0)
           || (size (ByteBuffer.store source) <? ByteBuffer.limit source))
    with false by lia.
  rewrite size_firstn_limit by assumption.
  rewrite Z.sub_0_r. cbn [skipn Z.to_nat].
  destruct (Z.ltb_spec targetOffset 0), (Z.leb_spec 0 targetOffset);
    try lia; cbn [orb andb]; [reflexivity|].
  destruct (Z.ltb_spec (size (ByteBuffer.store target)) targetOffset),
    (Z.leb_spec targetOffset (size (ByteBuffer.store target)));
    try lia; reflexivity.
Qed.

(** The length-prefixed form of a serialized frame: the bytes in front of
    the limit of the buffer that [serializeFrame] returns, after that limit
    as a 24-bit integer. *)
Lemma serializeFrameWithLength_marked frame encoders buffer :
  serializeFrame frame encoders = Ok buffer ->
  0 <= ByteBuffer.limit buffer <= ByteBuffer.capacity buffer ->
  serializeFrameWithLength frame encoders
  = Ok (ByteBuffer.wrap
          (be24 (ByteBuffer.limit buffer)
           ++ firstn (Z.to_nat (ByteBuffer.limit buffer))
                (ByteBuffer.store buffer))).
Proof.
  intros Hser Hmarks. unfold serializeFrameWithLength. rewrite Hser.
  cbn [bind]. rewrite allocate_zeros by (unfold UINT24_SIZE; lia).
  cbn [bind]. rewrite writeUint24_zeros by side. cbn [bind].
  rewrite copyTo_write by assumption. on_store.
  pose proof (size_firstn_limit buffer Hmarks) as Hsize.
  rewrite write_zeros by (unfold size in Hsize; side). cbn [bind].
  unfold ByteBuffer.wrap. cbn [app].
  match goal with
  | |- context [repeat x00 ?n] =>
      replace n with 0%nat by (unfold size in Hsize; side)
  end.
  cbn [repeat]. rewrite app_nil_r. do 2 f_equal.
  change (be24 ?v ++ ?l) with ([] ++ be24 v ++ l).
  rewrite !size_app, size_be24, Hsize. unfold UINT24_SIZE.
  change (size []) with 0. lia.
Qed.

(** A buffer whose limit lies past its capacity cannot be copied. *)
Lemma serializeFrameWithLength_past_capacity frame encoders buffer :
  serializeFrame frame encoders = Ok buffer ->
  ByteBuffer.capacity buffer < ByteBuffer.limit buffer ->
  serializeFrameWithLength frame encoders = Throw RangeError.
Proof.
  intros Hser Hmarks. unfold serializeFrameWithLength. rewrite Hser.
  pose proof (size_nonneg (ByteBuffer.store buffer)) as Hsize.
  unfold ByteBuffer.capacity in Hmarks.
  cbn [bind]. rewrite allocate_zeros by (unfold UINT24_SIZE; lia).
  cbn [bind]. rewrite writeUint24_zeros by side. cbn [bind].
  unfold ByteBuffer.copyTo, copyTo. on_store.
  rewrite !size_app, size_be24, size_repeat. change (size []) with 0.
  unfold UINT24_SIZE.
  change (3 <? 0) with false. cbn [orb].
  match goal with
  | |- context [?a <? 3] => destruct (Z.ltb_spec a 3); [lia|]
  end.
  destruct (Z.ltb_spec (size (ByteBuffer.store buffer))
              (ByteBuffer.limit buffer)); [|lia].
  reflexivity.
Qed.

Lemma serializeFrameWithLength_bytes frame encoders bytes :
  serializeFrame frame encoders = Ok (ByteBuffer.wrap bytes) ->
  serializeFrameWithLength frame encoders
  = Ok (ByteBuffer.wrap (lengthPrefixed bytes)).
Proof.
  intros Hser.
  rewrite (serializeFrameWithLength_marked _ _ _ Hser)
    by (unfold ByteBuffer.capacity; cbn [ByteBuffer.wrap ByteBuffer.limit
          ByteBuffer.store]; pose proof (size_nonneg bytes); lia).
  cbn [ByteBuffer.wrap ByteBuffer.limit ByteBuffer.store].
  unfold size at 2. rewrite Nat2Z.id, firstn_all. reflexivity.
Qed.

Lemma size_frameBytes frame w : 6 <= size (frameBytes frame w).
Proof.
  unfold frameBytes. rewrite size_app, size_headerBytes.
  match goal with |- 6 <= 6 + size ?body => pose proof (size_nonneg body) end.
  lia.
Qed.

(** The frame type 0 is none of those [deserializeFrame] has a reader
    for. *)
Lemma no_reader_for_type_0 buffer streamId typeAndFlags encoders :
  ByteBuffer.readInt32 buffer 0 = Ok streamId ->
  ByteBuffer.readUint16 buffer 4 = Ok typeAndFlags ->
  0 <= typeAndFlags < 2^10 ->
  deserializeFrame buffer encoders = Throw InvariantViolation.
Proof.
  intros Hsid Hword Hrange. unfold deserializeFrame.
  rewrite Hsid. cbn [bind]. change (0 + 4) with 4.
  destruct (0 <=? streamId); cbn [invariant bind]; [|reflexivity].
  rewrite Hword. cbn [bind].
  rewrite js_shru_FRAME_TYPE_OFFFSET by (pow2; change (2^10) with 1024 in *; lia).
  rewrite Z.div_small by assumption.
  decide_types. reflexivity.
Qed.

(** The first six bytes of a length-prefixed frame of a stream below 2^18,
    read as a frame header: the stream id is made of the frame length and
    the first byte of the stream id, the type of the next bits of the
    stream id, which are zeros. *)
Lemma prefix_read_as_header o l frame w rest encoders :
  0 <= Field.streamId frame < 2^18 ->
  deserializeFrame
    (over o l (lengthPrefixed (frameBytes frame w) ++ rest)) encoders
  = Throw InvariantViolation.
Proof.
  intros Hs. unfold lengthPrefixed, frameBytes, headerBytes.
  set (word := js_or _ _). set (n := size _).
  set (body := match frame with SetupFrame _ _ _ _ _ _ _ _ _ _ _ => _
                           | _ => _ end).
  clearbody word n body.
  unfold be24, be32, be16. cbn [app].
  change (2^18) with 262144 in Hs.
  eapply no_reader_for_type_0.
  - on_store. apply readInt32_head.
  - on_store.
    match goal with
    | |- readUint16 (?a :: ?b :: ?c :: ?d :: ?r) 4 = _ =>
        change (readUint16 (a :: b :: c :: d :: r) 4)
          with (readUint16 ([a; b; c; d] ++ r) 4)
    end.
    rewrite readUint16_skip by (rewrite !size_cons, size_nil; lia).
    rewrite !size_cons, size_nil. change (4 - (1 + (1 + (1 + (1 + 0)))))
      with 0.
    apply readUint16_head.
  - rewrite !Z_of_byte_of_Z, !Z.shiftr_div_pow2 by lia.
    change (2^16) with 65536. change (2^8) with 256.
    change (2^10) with 1024.
    Z.to_euclidean_division_equations. lia.
Qed.

(** C3.  The property does not hold of the code.  [deserializeFrames]
    hands [deserializeFrame] a slice of the buffer, which shares the bytes
    of the buffer and only has the start and the end of the frame as its
    offset and its limit; the readers use explicit offsets, which count
    from the first byte of the buffer, so the header of every frame is read
    from the first six bytes of the buffer: the length prefix and the
    first three bytes of the first stream id.  Hence, for a frame of a
    stream below 2^18 that the encoders accept, the buffer that
    [serializeFrameWithLength] returns, whatever follows it, makes
    [deserializeFrames] throw an invariant violation (frame type 0), where
    the claim has it return the frame. *)
Theorem deserializeFrames_refuses_serialized_frames (frame : Frame)
    (encoders : option Encoders.t) (w : Wire.t) (rest : list byte) :
  supported frame ->
  Encoded (orUtf8Encoders encoders) frame w ->
  0 <= Field.streamId frame < 2^18 ->
  exists buffer,
    serializeFrameWithLength frame encoders = Ok buffer
    /\ buffer = ByteBuffer.wrap (lengthPrefixed (frameBytes frame w))
    /\ deserializeFrames buffer encoders = Throw InvariantViolation
    /\ deserializeFrames (ByteBuffer.wrap (ByteBuffer.store buffer ++ rest))
         encoders
       = Throw InvariantViolation.
Proof.
  intros Hsupported Hencoded Hstream.
  exists (ByteBuffer.wrap (lengthPrefixed (frameBytes frame w))).
  split; [|split; [reflexivity|]].
  { apply serializeFrameWithLength_bytes, serializeFrame_bytes; assumption. }
  assert (Hthrows : forall rest,
            deserializeFrames
              (ByteBuffer.wrap (lengthPrefixed (frameBytes frame w) ++ rest))
              encoders
            = Throw InvariantViolation).
  { clear rest. intros rest. unfold deserializeFrames, ByteBuffer.wrap.
    cbn [ByteBuffer.limit].
    pose proof (size_frameBytes frame w) as Hsize.
    pose proof (size_nonneg rest) as Hrest.
    set (bytes := frameBytes frame w) in *.
    assert (Hlimit : size (lengthPrefixed bytes ++ rest)
                     = 3 + size bytes + size rest)
      by (unfold lengthPrefixed; rewrite !size_app, size_be24; lia).
    destruct (Z.to_nat (size (lengthPrefixed bytes ++ rest)))
      as [|fuel] eqn:Hfuel; [lia|].
    cbn [deserializeFrames_loop ByteBuffer.limit]. unfold UINT24_SIZE.
    replace (0 + 3 <? size (lengthPrefixed bytes ++ rest)) with true by lia.
    assert (Hread : forall o l,
               readUint24 (over o l (lengthPrefixed bytes ++ rest)) 0
               = Ok (size bytes mod 2^24))
      by (intros o l; unfold lengthPrefixed; rewrite <- app_assoc;
          apply readUint24_be24).
    rewrite Hread. cbn [bind].
    assert (Hmod : 0 <= size bytes mod 2^24 <= size bytes)
      by (pow2; Z.to_euclidean_division_equations; lia).
    replace (size (lengthPrefixed bytes ++ rest)
             <? 0 + 3 + size bytes mod 2^24) with false by lia.
    unfold ByteBuffer.slice, ByteBuffer.capacity. cbn [ByteBuffer.store].
    replace ((0 <=? 0 + 3) && (0 + 3 <=? 0 + 3 + size bytes mod 2^24)
             && (0 + 3 + size bytes mod 2^24
                 <=? size (lengthPrefixed bytes ++ rest)))
      with true by lia.
    cbn [bind].
    subst bytes. rewrite prefix_read_as_header by assumption.
    reflexivity. }
  split.
  - rewrite <- (app_nil_r (lengthPrefixed (frameBytes frame w))).
    apply Hthrows.
  - apply Hthrows.
Qed.

(** C3 on the CANCEL frame of stream 7, whose length-prefixed form is
    00 00 06 00 00 00 07 24 00, alone and followed by the length-prefixed
    REQUEST_N frame of stream 42. *)
Lemma deserializeFrames_refuses_serialized_frames_witness :
  serializeFrameWithLength (CancelFrame 0 7) None
  = Ok (ByteBuffer.wrap [x00; x00; x06; x00; x00; x00; x07; x24; x00])
  /\ deserializeFrames
       (ByteBuffer.wrap [x00; x00; x06; x00; x00; x00; x07; x24; x00]) None
     = Throw InvariantViolation
  /\ deserializeFrames
       (ByteBuffer.wrap
          ([x00; x00; x06; x00; x00; x00; x07; x24; x00]
           ++ [x00; x00; x0a; x00; x00; x00; x2a; x20; x00; x00; x00; x00;
               x10])) None
     = Throw InvariantViolation.
Proof.
  pose (w := {| Wire.data := []; Wire.dataMimeType := []; Wire.message := [];
                Wire.metadata := []; Wire.metadataMimeType := [];
                Wire.resumeToken := [] |}).
  destruct (deserializeFrames_refuses_serialized_frames (CancelFrame 0 7)
              None w
              [x00; x00; x0a; x00; x00; x00; x2a; x20; x00; x00; x00; x00;
               x10])
    as (buffer & Hserialize & Hbuffer & Halone & Hfollowed).
  - exact I.
  - repeat split; reflexivity.
  - vm_compute. intuition discriminate.
  - rewrite Hbuffer in *. split; [exact Hserialize|].
    split; [exact Halone | exact Hfollowed].
Defined.

(** ** What the parser refuses *)

Lemma readInt32_range buffer offset value :
  readInt32 buffer offset = Ok value -> - 2^31 <= value < 2^31.
Proof.
  unfold readInt32. destruct (readUint32 buffer offset) as [u|e];
    cbn [bind]; [|discriminate].
  intros H. injection H as <-. unfold js_or.
  change (ToInt32 0) with 0. rewrite Z.lor_0_r. apply ToInt32_range.
Qed.

Lemma readUint64_not_invariant buffer offset :
  readUint64 buffer offset <> Throw InvariantViolation.
Proof.
  unfold readUint64. destruct (readable buffer offset 8); [|discriminate].
  apply bind_not_invariant; [apply readUint32_not_invariant | intros hi].
  apply bind_not_invariant; [apply readUint32_not_invariant | discriminate].
Qed.

Lemma not_supported_type type :
  ~ In type supportedTypes ->
  (type =? FRAME_TYPES.SETUP) = false
  /\ (type =? FRAME_TYPES.PAYLOAD) = false
  /\ (type =? FRAME_TYPES.ERROR) = false
  /\ (type =? FRAME_TYPES.KEEPALIVE) = false
  /\ (type =? FRAME_TYPES.REQUEST_FNF) = false
  /\ (type =? FRAME_TYPES.REQUEST_RESPONSE) = false
  /\ (type =? FRAME_TYPES.REQUEST_STREAM) = false
  /\ (type =? FRAME_TYPES.REQUEST_CHANNEL) = false
  /\ (type =? FRAME_TYPES.REQUEST_N) = false
  /\ (type =? FRAME_TYPES.CANCEL) = false
  /\ (type =? FRAME_TYPES.LEASE) = false.
Proof.
  intros Hnot.
  repeat split; apply Z.eqb_neq; intros ->; apply Hnot; cbn [supportedTypes In];
    tauto.
Qed.

(** X1.  A frame whose first byte has its high bit set carries a negative
    stream id: [deserializeFrame] refuses it with an invariant violation
    before it looks at the type, whatever follows the four bytes of the
    stream id and even when nothing does. *)
Theorem negative_stream_id_is_refused (buffer : ByteBuffer.t)
    (b0 b1 b2 b3 : byte) (rest : list byte) (encoders : option Encoders.t) :
  ByteBuffer.store buffer = b0 :: b1 :: b2 :: b3 :: rest ->
  0x80 <= Z_of_byte b0 ->
  exists streamId,
    ByteBuffer.readInt32 buffer 0 = Ok streamId
    /\ streamId < 0
    /\ deserializeFrame buffer encoders = Throw InvariantViolation.
Proof.
  intros Hstore Hhigh. destruct buffer as [store o l].
  cbn [ByteBuffer.store] in Hstore. subst store. on_store.
  pose proof (Z_of_byte_range b0). pose proof (Z_of_byte_range b1).
  pose proof (Z_of_byte_range b2). pose proof (Z_of_byte_range b3).
  eexists. split; [apply readInt32_head|].
  assert (Hneg : ToInt32 (Z_of_byte b0 * 2^24 + Z_of_byte b1 * 2^16
                          + Z_of_byte b2 * 2^8 + Z_of_byte b3) < 0).
  { unfold ToInt32. euclid. }
  split; [exact Hneg|].
  unfold deserializeFrame. on_store. rewrite readInt32_head. cbn [bind].
  replace (0 <=? _) with false by lia. reflexivity.
Qed.

(** X1 on the four bytes FF FF FF FE, with no type behind them. *)
Lemma negative_stream_id_is_refused_witness :
  exists streamId,
    ByteBuffer.readInt32 (ByteBuffer.wrap [xff; xff; xff; xfe]) 0
    = Ok streamId
    /\ streamId < 0
    /\ deserializeFrame (ByteBuffer.wrap [xff; xff; xff; xfe]) None
       = Throw InvariantViolation.
Proof.
  apply (negative_stream_id_is_refused (ByteBuffer.wrap [xff; xff; xff; xfe])
           xff xff xff xfe [] None).
  - reflexivity.
  - vm_compute. discriminate.
Defined.

(** X2.  [deserializeFrame] has a case for eleven frame types only: a
    header with any other type in its high six bits (0, METADATA_PUSH,
    RESUME, RESUME_OK, EXT, ...) is refused with an invariant violation,
    whatever the stream id and the rest of the buffer. *)
Theorem unsupported_type_is_refused (buffer : ByteBuffer.t)
    (encoders : option Encoders.t) (streamId typeAndFlags : Z) :
  ByteBuffer.readInt32 buffer 0 = Ok streamId ->
  ByteBuffer.readUint16 buffer 4 = Ok typeAndFlags ->
  ~ In (js_shru typeAndFlags FRAME_TYPE_OFFFSET) supportedTypes ->
  deserializeFrame buffer encoders = Throw InvariantViolation.
Proof.
  intros Hsid Hword Htype.
  unfold deserializeFrame. rewrite Hsid. cbn [bind]. change (0 + 4) with 4.
  destruct (0 <=? streamId); cbn [invariant bind]; [|reflexivity].
  rewrite Hword. cbn [bind].
  destruct (not_supported_type _ Htype)
    as (-> & -> & -> & -> & -> & -> & -> & -> & -> & -> & ->).
  reflexivity.
Qed.

(** X2 on a header of type 0x0C (METADATA_PUSH) on stream 0. *)
Lemma unsupported_type_is_refused_witness :
  deserializeFrame (ByteBuffer.wrap [x00; x00; x00; x00; x30; x00; x00; x00]) None
  = Throw InvariantViolation.
Proof.
  apply (unsupported_type_is_refused
           (ByteBuffer.wrap [x00; x00; x00; x00; x30; x00; x00; x00]) None 0 0x3000);
    try reflexivity.
  vm_compute. intuition discriminate.
Defined.

(** X3.  SETUP, KEEPALIVE and LEASE frames belong to stream 0: with any
    other stream id in the header their readers throw an invariant
    violation.  The KEEPALIVE and LEASE readers check nothing else: on
    stream 0 they never report an invariant violation, whatever the
    position, the time to live and the request count are. *)
Theorem connection_frames_need_stream_zero (buffer : ByteBuffer.t)
    (encoders : option Encoders.t) (streamId typeAndFlags : Z) :
  ByteBuffer.readInt32 buffer 0 = Ok streamId ->
  ByteBuffer.readUint16 buffer 4 = Ok typeAndFlags ->
  let type := js_shru typeAndFlags FRAME_TYPE_OFFFSET in
  (In type [FRAME_TYPES.SETUP; FRAME_TYPES.KEEPALIVE; FRAME_TYPES.LEASE] ->
   streamId <> 0 ->
   deserializeFrame buffer encoders = Throw InvariantViolation)
  /\ (In type [FRAME_TYPES.KEEPALIVE; FRAME_TYPES.LEASE] ->
      streamId = 0 ->
      decodersSafe (orUtf8Encoders encoders) ->
      deserializeFrame buffer encoders <> Throw InvariantViolation).
Proof.
  intros Hsid Hword type.
  unfold deserializeFrame. rewrite Hsid. cbn [bind]. change (0 + 4) with 4.
  split.
  - intros Htype Hnonzero.
    destruct (0 <=? streamId); cbn [invariant bind]; [|reflexivity].
    rewrite Hword. cbn [bind]. fold type.
    destruct Htype as [<- | [<- | [<- | []]]]; decide_types;
      unfold deserializeSetupFrame, deserializeKeepAliveFrame,
        deserializeLeaseFrame;
      replace (streamId =? 0) with false by lia; reflexivity.
  - intros Htype -> (Hdata & _ & _ & Hmeta & _ & _).
    change (0 <=? 0) with true. cbn [invariant bind].
    rewrite Hword. cbn [bind]. fold type.
    destruct Htype as [<- | [<- | []]]; decide_types;
      unfold deserializeKeepAliveFrame, deserializeLeaseFrame;
      change (0 =? 0) with true; cbn [invariant bind].
    + apply bind_not_invariant; [apply readUint64_not_invariant | intros p].
      apply bind_not_invariant; [|discriminate].
      destruct (_ <? ByteBuffer.limit buffer); [|discriminate].
      apply bind_not_invariant; [apply Hdata | discriminate].
    + apply bind_not_invariant; [apply readUint32_not_invariant | intros ttl].
      apply bind_not_invariant; [apply readUint32_not_invariant | intros n].
      apply bind_not_invariant; [|discriminate].
      destruct (_ <? ByteBuffer.limit buffer); [|discriminate].
      apply bind_not_invariant; [apply Hmeta | discriminate].
Qed.

(** X3 on a KEEPALIVE frame of stream 1 and on a LEASE frame of stream 0
    whose time to live and request count are 2^32 - 1. *)
Lemma connection_frames_need_stream_zero_witness :
  deserializeFrame
    (ByteBuffer.wrap [x00; x00; x00; x01; x0c; x00; x00; x00; x00; x00; x00; x00; x00; x00])
    None
  = Throw InvariantViolation
  /\ deserializeFrame
       (ByteBuffer.wrap [x00; x00; x00; x00; x08; x00; xff; xff; xff; xff; xff; xff; xff; xff])
       None
     <> Throw InvariantViolation.
Proof.
  split.
  - apply (connection_frames_need_stream_zero
             (ByteBuffer.wrap [x00; x00; x00; x01; x0c; x00; x00; x00; x00; x00; x00; x00;
              x00; x00]) None 1 0x0c00); try reflexivity.
    + right. left. reflexivity.
    + discriminate.
  - apply (connection_frames_need_stream_zero
             (ByteBuffer.wrap [x00; x00; x00; x00; x08; x00; xff; xff; xff; xff; xff; xff;
              xff; xff]) None 0 0x0800); try reflexivity.
    + right. left. reflexivity.
    + apply Utf8Encoders_decodersSafe.
Defined.

(** X4.  The ERROR reader takes the code as a signed 32-bit integer, so the
    upper bound MAX_CODE of its check always holds: an ERROR frame with a
    non-negative stream id is refused with an invariant violation exactly
    when the high bit of its code is set. *)
Theorem error_code_check (buffer : ByteBuffer.t)
    (encoders : option Encoders.t) (streamId typeAndFlags code : Z) :
  ByteBuffer.readInt32 buffer 0 = Ok streamId ->
  0 <= streamId ->
  ByteBuffer.readUint16 buffer 4 = Ok typeAndFlags ->
  js_shru typeAndFlags FRAME_TYPE_OFFFSET = FRAME_TYPES.ERROR ->
  ByteBuffer.readInt32 buffer FRAME_HEADER_SIZE = Ok code ->
  decodersSafe (orUtf8Encoders encoders) ->
  code <= MAX_CODE
  /\ (deserializeFrame buffer encoders = Throw InvariantViolation
      <-> code < 0).
Proof.
  intros Hsid Hpos Hword Htype Hcode Hsafe.
  pose proof (readInt32_range _ _ _ Hcode) as Hrange.
  unfold MAX_CODE. split; [pow2; lia|].
  unfold deserializeFrame. rewrite Hsid. cbn [bind]. change (0 + 4) with 4.
  rewrite Hword. replace (0 <=? streamId) with true by lia.
  cbn [invariant bind]. rewrite Htype. decide_types.
  unfold deserializeErrorFrame. rewrite Hcode. cbn [bind]. unfold MAX_CODE.
  destruct (Z.leb_spec 0 code); cbn [andb invariant bind];
    [|split; [lia | reflexivity]].
  replace (code <=? 0x7FFFFFFF) with true by (pow2; lia).
  cbn [invariant bind]. split; [|lia].
  intros Hthrow. exfalso. revert Hthrow.
  apply bind_not_invariant; [|discriminate].
  destruct (0 <? _); [|discriminate]. apply Hsafe.
Qed.

(** X4 on an ERROR frame of stream 1 whose code is FF FF FF FF. *)
Lemma error_code_check_witness :
  deserializeFrame (ByteBuffer.wrap [x00; x00; x00; x01; x2c; x00; xff; xff; xff; xff]) None
  = Throw InvariantViolation.
Proof.
  apply (error_code_check
           (ByteBuffer.wrap [x00; x00; x00; x01; x2c; x00; xff; xff; xff; xff]) None 1 0x2c00
           (-1)); try reflexivity.
  - discriminate.
  - apply Utf8Encoders_decodersSafe.
Defined.

(** ** What the parser returns *)

(** Take apart a hypothesis saying that a sequence of reads and checks
    returned. *)
Ltac ok_inv H :=
  repeat match type of H with
    | bind (invariant ?c) _ = Ok _ =>
        let E := fresh "Hcheck" in
        destruct c eqn:E; cbn [invariant bind] in H; [|discriminate H]
    | bind ?c _ = Ok _ =>
        let E := fresh "Hread" in
        destruct c eqn:E; cbn [bind] in H; [|discriminate H]
    end.

Lemma view_range buffer i : 0 <= view buffer i < 256.
Proof. unfold view. apply Z_of_byte_range. Qed.

Lemma readUint16_range buffer offset value :
  readUint16 buffer offset = Ok value -> 0 <= value < 2^16.
Proof.
  unfold readUint16. destruct (readable buffer offset 2); [|discriminate].
  intros H. injection H as <-.
  pose proof (view_range buffer offset).
  pose proof (view_range buffer (offset + 1)).
  rewrite uint16_bytes by assumption. pow2. lia.
Qed.

Lemma readUint32_range buffer offset value :
  readUint32 buffer offset = Ok value -> 0 <= value < 2^32.
Proof.
  unfold readUint32. destruct (readable buffer offset 4); [|discriminate].
  intros H. injection H as <-.
  pose proof (view_range buffer offset).
  pose proof (view_range buffer (offset + 1)).
  pose proof (view_range buffer (offset + 2)).
  pose proof (view_range buffer (offset + 3)).
  rewrite uint32_bytes by assumption. pow2. lia.
Qed.

(** The number that stands for a 64-bit value is not negative. *)
Lemma toNumber_nonneg x : 0 <= x -> 0 <= toNumber x.
Proof.
  intros Hx. unfold toNumber. destruct (x <? 2^53); [assumption|].
  set (ulp := 2 ^ (Z.log2 x - 52)).
  assert (Hulp : 0 <= ulp) by (subst ulp; apply Z.pow_nonneg; lia).
  assert (Hq : 0 <= x / ulp) by (apply Z_div_nonneg_nonneg; assumption).
  cbv zeta.
  destruct (2 * (x mod ulp) <? ulp); [nia|].
  destruct (ulp <? 2 * (x mod ulp)); [nia|].
  destruct (Z.even (x / ulp)); nia.
Qed.

Lemma readUint64_range buffer offset value :
  readUint64 buffer offset = Ok value -> 0 <= value.
Proof.
  unfold readUint64. destruct (readable buffer offset 8); [|discriminate].
  intros H. ok_inv H. injection H as <-.
  match goal with
  | H1 : readUint32 _ offset = Ok _, H2 : readUint32 _ (offset + 4) = Ok _
    |- _ =>
      apply readUint32_range in H1; apply readUint32_range in H2
  end.
  apply toNumber_nonneg. pow2. nia.
Qed.

Lemma flags_range word : 0 <= js_and word FLAGS_MASK < 2^10.
Proof. rewrite js_and_FLAGS_MASK. change (2^10) with 1024. euclid. Qed.

Lemma readPayload_preserves (P : Frame -> Prop) :
  (forall frame value, P frame -> P (Field.set_data frame value)) ->
  (forall frame value, P frame -> P (Field.set_metadata frame value)) ->
  forall buffer frame encoders offset frame',
    readPayload buffer frame encoders offset = Ok frame' ->
    P frame -> P frame'.
Proof.
  intros Hdata Hmeta buffer frame encoders offset frame' Hread HP.
  unfold readPayload in Hread.
  assert (Hlast : forall frame0 offset0,
             P frame0 ->
             (if offset0 <? ByteBuffer.limit buffer then
                data <- Encoder.decode (Encoders.data encoders) buffer
                          offset0 (ByteBuffer.limit buffer) ;;
                Ok (Field.set_data frame0 data)
              else Ok frame0) = Ok frame' -> P frame').
  { intros frame0 offset0 HP0 H.
    destruct (offset0 <? ByteBuffer.limit buffer).
    - ok_inv H. injection H as <-. apply Hdata. assumption.
    - injection H as <-. assumption. }
  destruct (isMetadata (Field.flags frame)); cbn [bind] in Hread;
    [|eapply Hlast; eassumption].
  destruct (readUint24 buffer offset) as [metaLength|e]; cbn [bind] in Hread;
    [|discriminate].
  destruct (0 <? metaLength); cbn [bind] in Hread;
    [|eapply Hlast; eassumption].
  destruct (Encoder.decode _ buffer _ _) as [metadata|e]; cbn [bind] in Hread;
    [|discriminate].
  eapply Hlast; [|eassumption]. apply Hmeta. assumption.
Qed.

Lemma set_data_checked frame value :
  checked frame -> checked (Field.set_data frame value).
Proof. destruct frame; exact (fun H => H). Qed.

Lemma set_metadata_checked frame value :
  checked frame -> checked (Field.set_metadata frame value).
Proof. destruct frame; exact (fun H => H). Qed.

Lemma readPayload_checked buffer frame encoders offset frame' :
  readPayload buffer frame encoders offset = Ok frame' ->
  checked frame -> checked frame'.
Proof.
  apply (readPayload_preserves checked);
    [apply set_data_checked | apply set_metadata_checked].
Qed.

(** X5.  Whatever the bytes and the encoders, a frame that
    [deserializeFrame] returns is of one of the eleven kinds and satisfies
    the numeric constraints of the data model: a stream id in 0..2^31-1
    that is 0 for SETUP, KEEPALIVE and LEASE and positive for the REQUEST_*,
    PAYLOAD and CANCEL kinds, ten flag bits, a positive requestN, and
    keepAlive, lifetime and code within their bounds. *)
Theorem deserializeFrame_checked (buffer : ByteBuffer.t)
    (encoders : option Encoders.t) (frame : Frame) :
  deserializeFrame buffer encoders = Ok frame -> checked frame.
Proof.
  unfold deserializeFrame. intros H.
  destruct (ByteBuffer.readInt32 buffer 0) as [streamId|e] eqn:Hsid; cbn [bind] in H;
    [|discriminate].
  pose proof (readInt32_range _ _ _ Hsid) as Hsid_range.
  destruct (Z.leb_spec 0 streamId) as [Hsid_pos|_];
    cbn [invariant bind] in H; [|discriminate].
  destruct (ByteBuffer.readUint16 buffer (0 + 4)) as [typeAndFlags|e];
    cbn [bind] in H; [|discriminate].
  pose proof (flags_range typeAndFlags) as Hflags.
  set (flags := js_and typeAndFlags FLAGS_MASK) in *. clearbody flags.
  repeat match type of H with
    | (if ?c then _ else _) = Ok _ => destruct c
    end; try discriminate;
    unfold deserializeSetupFrame, deserializePayloadFrame,
      deserializeErrorFrame, deserializeKeepAliveFrame,
      deserializeRequestFnfFrame, deserializeRequestResponseFrame,
      deserializeRequestStreamFrame, deserializeRequestChannelFrame,
      deserializeRequestNFrame, deserializeCancelFrame,
      deserializeLeaseFrame in H;
    ok_inv H;
    repeat match goal with
      | E : ByteBuffer.readInt32 _ _ = Ok _ |- _ => apply readInt32_range in E
      | E : ByteBuffer.readUint16 _ _ = Ok _ |- _ => apply readUint16_range in E
      | E : ByteBuffer.readUint32 _ _ = Ok _ |- _ => apply readUint32_range in E
      | E : ByteBuffer.readUint64 _ _ = Ok _ |- _ => apply readUint64_range in E
      end;
    try (apply readPayload_checked in H; [exact H|]);
    try (injection H as <-);
    unfold checked, MAX_KEEPALIVE, MAX_LIFETIME, MAX_CODE in *;
    cbn [Field.streamId Field.flags]; pow2; lia.
Qed.

(** X5 on a REQUEST_N frame of stream 42. *)
Lemma deserializeFrame_checked_witness :
  checked (RequestNFrame 0 16 42).
Proof.
  apply (deserializeFrame_checked
           (ByteBuffer.wrap
              [x00; x00; x00; x2a; x20; x00; x00; x00; x00; x10]) None).
  reflexivity.
Defined.

Lemma readPayload_fields buffer frame0 encoders offset frame :
  readPayload buffer frame0 encoders offset = Ok frame ->
  exists metadata data,
    frame = setOpt Field.set_data
              (setOpt Field.set_metadata frame0 metadata) data
    /\ (isMetadata (Field.flags frame0) = false -> metadata = None)
    /\ (forall value, metadata = Some value ->
        exists start end_,
          start < end_
          /\ Encoder.decode (Encoders.metadata encoders) buffer start end_
             = Ok value)
    /\ (forall value, data = Some value ->
        exists start,
          start < ByteBuffer.limit buffer
          /\ Encoder.decode (Encoders.data encoders) buffer start
               (ByteBuffer.limit buffer) = Ok value).
Proof.
  unfold readPayload. intros H.
  assert (Hlast : forall metadata offset0,
             (if offset0 <? ByteBuffer.limit buffer then
                data <- Encoder.decode (Encoders.data encoders) buffer
                          offset0 (ByteBuffer.limit buffer) ;;
                Ok (Field.set_data
                      (setOpt Field.set_metadata frame0 metadata) data)
              else Ok (setOpt Field.set_metadata frame0 metadata))
             = Ok frame ->
             exists data,
               frame = setOpt Field.set_data
                         (setOpt Field.set_metadata frame0 metadata) data
               /\ (forall value, data = Some value ->
                   exists start,
                     start < ByteBuffer.limit buffer
                     /\ Encoder.decode (Encoders.data encoders) buffer start
                          (ByteBuffer.limit buffer) = Ok value)).
  { intros metadata offset0 H0.
    destruct (Z.ltb_spec offset0 (ByteBuffer.limit buffer)).
    - destruct (Encoder.decode _ buffer offset0 _) as [data|e] eqn:Hdec;
        cbn [bind] in H0; [|discriminate].
      injection H0 as <-. exists (Some data). split; [reflexivity|].
      intros value Hv. injection Hv as <-. exists offset0. split; assumption.
    - injection H0 as <-. exists None. split; [reflexivity|]. discriminate. }
  destruct (isMetadata (Field.flags frame0)); cbn [bind] in H.
  - destruct (readUint24 buffer offset) as [metaLength|e]; cbn [bind] in H;
      [|discriminate].
    destruct (Z.ltb_spec 0 metaLength); cbn [bind] in H.
    + destruct (Encoder.decode _ buffer _ _) as [metadata|e] eqn:Hdec;
        cbn [bind] in H; [|discriminate].
      destruct (Hlast (Some metadata) _ H) as (data & -> & Hdata).
      exists (Some metadata), data.
      split; [reflexivity|]. split; [discriminate|]. split; [|exact Hdata].
      intros value Hv. injection Hv as <-.
      exists (offset + UINT24_SIZE), (offset + UINT24_SIZE + metaLength).
      split; [lia | assumption].
    + destruct (Hlast None _ H) as (data & -> & Hdata).
      exists None, data. split; [reflexivity|]. split; [reflexivity|].
      split; [discriminate | exact Hdata].
  - destruct (Hlast None _ H) as (data & -> & Hdata).
    exists None, data. split; [reflexivity|]. split; [reflexivity|].
    split; [discriminate | exact Hdata].
Qed.

(** X6.  Whatever the bytes and the encoders, the frame that
    [deserializeFrame] returns has its optional fields in one form: a SETUP
    frame always has a resume token and both MIME types, an ERROR frame
    always has a message, and a SETUP, REQUEST_* or PAYLOAD frame has
    metadata only when its METADATA flag is set. *)
Theorem deserializeFrame_normalised (buffer : ByteBuffer.t)
    (encoders : option Encoders.t) (frame : Frame) :
  deserializeFrame buffer encoders = Ok frame -> normalised frame.
Proof.
  unfold deserializeFrame. intros H. ok_inv H.
  repeat match type of H with
    | (if ?c then _ else _) = Ok _ => destruct c
    end; try discriminate;
    unfold deserializeSetupFrame, deserializePayloadFrame,
      deserializeErrorFrame, deserializeKeepAliveFrame,
      deserializeRequestFnfFrame, deserializeRequestResponseFrame,
      deserializeRequestStreamFrame, deserializeRequestChannelFrame,
      deserializeRequestNFrame, deserializeCancelFrame,
      deserializeLeaseFrame in H;
    ok_inv H;
    try (apply readPayload_fields in H;
         destruct H as (metadata & data & -> & Hflag & _);
         cbn [Field.flags] in Hflag;
         destruct metadata, data; cbn [setOpt Field.set_data
           Field.set_metadata normalised];
         repeat split; try discriminate; exact Hflag);
    injection H as <-; cbn [normalised]; try exact I; discriminate.
Qed.

(** X6 on an ERROR frame that ends after its code: the message is the
    empty string, not [null]. *)
Lemma deserializeFrame_normalised_witness :
  normalised (ErrorFrame 1 0 (Some (EString [])) 0).
Proof.
  apply (deserializeFrame_normalised
           (ByteBuffer.wrap
              [x00; x00; x00; x00; x2c; x00; x00; x00; x00; x01]) None).
  reflexivity.
Defined.

Lemma slice_size buffer begin end_ window :
  slice buffer begin end_ = Ok window -> size window = end_ - begin.
Proof.
  unfold slice.
  destruct ((0 <=? begin) && (begin <=? end_) && (end_ <=? size buffer))
    eqn:Hrange; [|discriminate].
  intros H. injection H as <-. unfold size in *.
  rewrite length_firstn, length_skipn. lia.
Qed.

(** What [buffer.slice(begin, end)] returns. *)
Lemma ByteBuffer_slice_inv buffer begin end_ window :
  ByteBuffer.slice buffer begin end_ = Ok window ->
  window = over begin end_ (ByteBuffer.store buffer)
  /\ 0 <= begin <= end_ /\ end_ <= ByteBuffer.capacity buffer.
Proof.
  unfold ByteBuffer.slice.
  destruct (Z.leb_spec 0 begin), (Z.leb_spec begin end_),
    (Z.leb_spec end_ (ByteBuffer.capacity buffer));
    cbn [andb]; try discriminate.
  intros Hok. injection Hok as <-. repeat split; assumption.
Qed.

Lemma UTF8Encoder_decodesContent : decodesContent UTF8Encoder.
Proof.
  intros buffer start end_ value Hlt H. cbn [Encoder.decode UTF8Encoder] in H.
  destruct (ByteBuffer.slice buffer start end_) as [window|e] eqn:Hslice;
    cbn [bind] in H; [|discriminate].
  apply ByteBuffer_slice_inv in Hslice. destruct Hslice as (-> & _).
  unfold ByteBuffer.toUTF8 in H.
  cbn [ByteBuffer.store ByteBuffer.offset ByteBuffer.limit] in H.
  destruct (slice (ByteBuffer.store buffer) start end_) as [bytes|e]
    eqn:Hbytes; cbn [bind] in H; [|discriminate].
  injection H as <-. apply slice_size in Hbytes.
  assert (Hne : bytes <> [])
    by (intros ->; rewrite size_nil in Hbytes; lia).
  apply decodeUTF8_nonempty in Hne. cbn [isEmpty].
  destruct (decodeUTF8 bytes); [contradiction | reflexivity].
Qed.

Lemma BufferEncoder_decodesContent : decodesContent BufferEncoder.
Proof.
  intros buffer start end_ value Hlt H.
  cbn [Encoder.decode BufferEncoder] in H.
  destruct (ByteBuffer.slice buffer start end_) as [window|e] eqn:Hslice;
    cbn [bind] in H; [|discriminate].
  injection H as <-. apply ByteBuffer_slice_inv in Hslice.
  destruct Hslice as (-> & _).
  cbn [isEmpty ByteBuffer.offset ByteBuffer.limit]. lia.
Qed.

Lemma standard_decodesContent encoders :
  standard encoders ->
  decodesContent (Encoders.data (orUtf8Encoders encoders))
  /\ decodesContent (Encoders.metadata (orUtf8Encoders encoders)).
Proof.
  intros [-> | [-> | ->]]; split;
    first [apply UTF8Encoder_decodesContent
          | apply BufferEncoder_decodesContent].
Qed.

Lemma trailing_content encoder buffer offset (field : option Encodable) :
  decodesContent encoder ->
  (if offset <? ByteBuffer.limit buffer then
     v <- Encoder.decode encoder buffer offset (ByteBuffer.limit buffer) ;; Ok (Some v)
   else Ok None) = Ok field ->
  forall value, field = Some value -> isEmpty value = false.
Proof.
  intros Hcontent H value ->.
  destruct (Z.ltb_spec offset (ByteBuffer.limit buffer)); [|discriminate].
  destruct (Encoder.decode encoder buffer offset (ByteBuffer.limit buffer)) as [v|e]
    eqn:Hdec; cbn [bind] in H; [|discriminate].
  injection H as ->. eapply Hcontent; eassumption.
Qed.

(** X7.  With the default encoders or one of the two standard encoder
    sets, the data and the metadata of a frame that [deserializeFrame]
    returns are either [null] or have content: the readers never give back
    an empty string or an empty buffer for them. *)
Theorem deserializeFrame_no_empty_payload (buffer : ByteBuffer.t)
    (encoders : option Encoders.t) (frame : Frame) :
  standard encoders ->
  deserializeFrame buffer encoders = Ok frame ->
  (forall value, Field.data frame = Some value -> isEmpty value = false)
  /\ (forall value, Field.metadata frame = Some value ->
      isEmpty value = false).
Proof.
  intros Hstandard.
  destruct (standard_decodesContent _ Hstandard) as (Hdata & Hmeta).
  unfold deserializeFrame. intros H. ok_inv H.
  repeat match type of H with
    | (if ?c then _ else _) = Ok _ => destruct c
    end; try discriminate;
    unfold deserializeSetupFrame, deserializePayloadFrame,
      deserializeErrorFrame, deserializeKeepAliveFrame,
      deserializeRequestFnfFrame, deserializeRequestResponseFrame,
      deserializeRequestStreamFrame, deserializeRequestChannelFrame,
      deserializeRequestNFrame, deserializeCancelFrame,
      deserializeLeaseFrame in H;
    ok_inv H;
    try (apply readPayload_fields in H;
         destruct H as (metadata & data & -> & _ & Hm & Hd);
         destruct metadata as [m|], data as [d|];
         cbn [setOpt Field.set_data Field.set_metadata Field.data
              Field.metadata]);
    try (injection H as <-; cbn [Field.data Field.metadata]);
    split; intros value Hv; try discriminate;
    try (injection Hv as <-);
    try (destruct (Hd _ eq_refl) as (start & Hlt & Hdec);
         exact (Hdata _ _ _ _ Hlt Hdec));
    try (destruct (Hm _ eq_refl) as (start & end_ & Hlt & Hdec);
         exact (Hmeta _ _ _ _ Hlt Hdec));
    first [eapply (trailing_content _ _ _ _ Hdata); eassumption
          | eapply (trailing_content _ _ _ _ Hmeta); eassumption].
Qed.

(** X7 on a PAYLOAD frame of stream 1 that carries the three bytes of
    the string abc. *)
Lemma deserializeFrame_no_empty_payload_witness :
  let frame := PayloadFrame (Some (EString [0x61; 0x62; 0x63])) 0 None 1 in
  (forall value, Field.data frame = Some value -> isEmpty value = false)
  /\ (forall value, Field.metadata frame = Some value ->
      isEmpty value = false).
Proof.
  apply (deserializeFrame_no_empty_payload
           (ByteBuffer.wrap [x00; x00; x00; x01; x28; x00; x61; x62; x63])
           None).
  - left. reflexivity.
  - reflexivity.
Defined.

Ltac readers :=
  unfold deserializeSetupFrame, deserializePayloadFrame,
    deserializeErrorFrame, deserializeKeepAliveFrame,
    deserializeRequestFnfFrame, deserializeRequestResponseFrame,
    deserializeRequestStreamFrame, deserializeRequestChannelFrame,
    deserializeRequestNFrame, deserializeCancelFrame,
    deserializeLeaseFrame in *.

Lemma readPayload_header buffer frame0 encoders offset frame :
  readPayload buffer frame0 encoders offset = Ok frame ->
  Field.streamId frame = Field.streamId frame0
  /\ Field.type frame = Field.type frame0
  /\ Field.flags frame = Field.flags frame0.
Proof.
  intros H. apply readPayload_fields in H.
  destruct H as (metadata & data & -> & _).
  destruct frame0, metadata, data; repeat split.
Qed.

Lemma readPayload_numbers buffer frame0 encoders offset frame :
  readPayload buffer frame0 encoders offset = Ok frame ->
  Field.requestN frame = Field.requestN frame0
  /\ Field.code frame = Field.code frame0
  /\ Field.lastReceivedPosition frame = Field.lastReceivedPosition frame0
  /\ Field.ttl frame = Field.ttl frame0
  /\ Field.requestCount frame = Field.requestCount frame0
  /\ Field.majorVersion frame = Field.majorVersion frame0
  /\ Field.minorVersion frame = Field.minorVersion frame0
  /\ Field.keepAlive frame = Field.keepAlive frame0
  /\ Field.lifetime frame = Field.lifetime frame0.
Proof.
  intros H. apply readPayload_fields in H.
  destruct H as (metadata & data & -> & _).
  destruct frame0, metadata, data; repeat split.
Qed.

Lemma parsed_header buffer encoders frame :
  deserializeFrame buffer encoders = Ok frame ->
  exists typeAndFlags,
    ByteBuffer.readInt32 buffer 0 = Ok (Field.streamId frame)
    /\ ByteBuffer.readUint16 buffer 4 = Ok typeAndFlags
    /\ Field.type frame = js_shru typeAndFlags FRAME_TYPE_OFFFSET
    /\ Field.flags frame = js_and typeAndFlags FLAGS_MASK.
Proof.
  unfold deserializeFrame. intros H.
  destruct (ByteBuffer.readInt32 buffer 0) as [streamId|e]; cbn [bind] in H;
    [|discriminate].
  destruct (0 <=? streamId); cbn [invariant bind] in H; [|discriminate].
  change (0 + 4) with 4 in H.
  destruct (ByteBuffer.readUint16 buffer 4) as [typeAndFlags|e]; cbn [bind] in H;
    [|discriminate].
  exists typeAndFlags.
  set (type := js_shru typeAndFlags FRAME_TYPE_OFFFSET) in *.
  set (flags := js_and typeAndFlags FLAGS_MASK) in *.
  clearbody type flags.
  enough (Hframe : Field.streamId frame = streamId
                   /\ Field.type frame = type /\ Field.flags frame = flags).
  { destruct Hframe as (-> & -> & ->). repeat split. }
  repeat match type of H with
    | (if ?a =? ?b then _ else _) = Ok _ =>
        destruct (Z.eqb_spec a b) as [->|_]
    end; try discriminate;
    readers; ok_inv H;
    try (apply readPayload_header in H; destruct H as (-> & -> & ->));
    try (injection H as <-); repeat split.
Qed.

(** X8.  The frame that [deserializeFrame] returns carries the header of
    the buffer: its stream id is the signed 32-bit integer at offset 0, its
    type the high six bits and its flags the low ten bits of the 16-bit
    word at offset 4. *)
Theorem deserializeFrame_header (buffer : ByteBuffer.t)
    (encoders : option Encoders.t) (frame : Frame) :
  deserializeFrame buffer encoders = Ok frame ->
  exists typeAndFlags,
    ByteBuffer.readInt32 buffer 0 = Ok (Field.streamId frame)
    /\ ByteBuffer.readUint16 buffer 4 = Ok typeAndFlags
    /\ Field.type frame = js_shru typeAndFlags FRAME_TYPE_OFFFSET
    /\ Field.flags frame = js_and typeAndFlags FLAGS_MASK.
Proof. apply parsed_header. Qed.

(** X8 on a REQUEST_N frame of stream 42 with flags 0x155. *)
Lemma deserializeFrame_header_witness :
  let buffer :=
    ByteBuffer.wrap [x00; x00; x00; x2a; x21; x55; x00; x00; x00; x10] in
  exists typeAndFlags,
    ByteBuffer.readInt32 buffer 0
    = Ok (Field.streamId (RequestNFrame 0x155 16 42))
    /\ ByteBuffer.readUint16 buffer 4 = Ok typeAndFlags
    /\ Field.type (RequestNFrame 0x155 16 42)
       = js_shru typeAndFlags FRAME_TYPE_OFFFSET
    /\ Field.flags (RequestNFrame 0x155 16 42)
       = js_and typeAndFlags FLAGS_MASK.
Proof.
  apply (deserializeFrame_header
           (ByteBuffer.wrap
              [x00; x00; x00; x2a; x21; x55; x00; x00; x00; x10]) None).
  reflexivity.
Defined.

(** The numeric fields of a parsed frame, each with the reader and the
    offset that gave it. *)
Lemma parsed_numbers (buffer : ByteBuffer.t)
    (encoders : option Encoders.t) (frame : Frame) :
  deserializeFrame buffer encoders = Ok frame ->
  (forall n, Field.requestN frame = Some n -> ByteBuffer.readInt32 buffer 6 = Ok n)
  /\ (forall n, Field.code frame = Some n -> ByteBuffer.readInt32 buffer 6 = Ok n)
  /\ (forall n, Field.lastReceivedPosition frame = Some n ->
      ByteBuffer.readUint64 buffer 6 = Ok n)
  /\ (forall n, Field.ttl frame = Some n -> ByteBuffer.readUint32 buffer 6 = Ok n)
  /\ (forall n, Field.requestCount frame = Some n ->
      ByteBuffer.readUint32 buffer 10 = Ok n)
  /\ (forall n, Field.majorVersion frame = Some n ->
      ByteBuffer.readUint16 buffer 6 = Ok n)
  /\ (forall n, Field.minorVersion frame = Some n ->
      ByteBuffer.readUint16 buffer 8 = Ok n)
  /\ (forall n, Field.keepAlive frame = Some n -> ByteBuffer.readInt32 buffer 10 = Ok n)
  /\ (forall n, Field.lifetime frame = Some n -> ByteBuffer.readInt32 buffer 14 = Ok n).
Proof.
  unfold deserializeFrame. intros H. ok_inv H.
  repeat match type of H with
    | (if ?c then _ else _) = Ok _ => destruct c
    end; try discriminate;
    readers; unfold FRAME_HEADER_SIZE in *; cbv zeta in H;
    change (6 + 2) with 8 in *; change (8 + 2) with 10 in *;
    change (10 + 4) with 14 in *; change (6 + 4) with 10 in *;
    ok_inv H;
    try (apply readPayload_numbers in H;
         destruct H as (-> & -> & -> & -> & -> & -> & -> & -> & ->));
    try (injection H as <-);
    cbn [Field.requestN Field.code Field.lastReceivedPosition Field.ttl
         Field.requestCount Field.majorVersion Field.minorVersion
         Field.keepAlive Field.lifetime];
    repeat split; intros n Hn; try discriminate; injection Hn as <-;
    first [assumption | reflexivity].
Qed.

(** What [readUint64] returns: the two 32-bit halves as one JavaScript
    number. *)
Lemma readUint64_halves store offset n :
  readUint64 store offset = Ok n ->
  exists high low,
    readUint32 store offset = Ok high
    /\ readUint32 store (offset + 4) = Ok low
    /\ n = toNumber (high * 2^32 + low).
Proof.
  unfold readUint64.
  destruct (readable store offset 8); [|discriminate].
  destruct (readUint32 store offset) as [high|e]; cbn [bind];
    [|discriminate].
  destruct (readUint32 store (offset + 4)) as [low|e]; cbn [bind];
    [|discriminate].
  intros H. injection H as <-. exists high, low. repeat split.
Qed.

(** X9.  The numeric fields of the frame that [deserializeFrame] returns
    are the big-endian integers at fixed offsets of the buffer: requestN
    and the error code the signed 32-bit integer at offset 6, the time to
    live and the request count of a LEASE the unsigned 32-bit integers at
    offsets 6 and 10, and the versions, keepAlive and lifetime of a SETUP
    the integers at offsets 6, 8, 10 and 14.  The last received position
    is what [readUint64] makes of the eight bytes at offset 6: the
    unsigned 64-bit integer there as a JavaScript number, which from 2^53
    on is the nearest double and not always the integer itself. *)
Theorem deserializeFrame_fixed_fields (buffer : ByteBuffer.t)
    (encoders : option Encoders.t) (frame : Frame) :
  deserializeFrame buffer encoders = Ok frame ->
  (forall n, Field.requestN frame = Some n ->
     ByteBuffer.readInt32 buffer 6 = Ok n)
  /\ (forall n, Field.code frame = Some n ->
      ByteBuffer.readInt32 buffer 6 = Ok n)
  /\ (forall n, Field.lastReceivedPosition frame = Some n ->
      ByteBuffer.readUint64 buffer 6 = Ok n
      /\ exists high low,
           ByteBuffer.readUint32 buffer 6 = Ok high
           /\ ByteBuffer.readUint32 buffer 10 = Ok low
           /\ n = toNumber (high * 2^32 + low))
  /\ (forall n, Field.ttl frame = Some n ->
      ByteBuffer.readUint32 buffer 6 = Ok n)
  /\ (forall n, Field.requestCount frame = Some n ->
      ByteBuffer.readUint32 buffer 10 = Ok n)
  /\ (forall n, Field.majorVersion frame = Some n ->
      ByteBuffer.readUint16 buffer 6 = Ok n)
  /\ (forall n, Field.minorVersion frame = Some n ->
      ByteBuffer.readUint16 buffer 8 = Ok n)
  /\ (forall n, Field.keepAlive frame = Some n ->
      ByteBuffer.readInt32 buffer 10 = Ok n)
  /\ (forall n, Field.lifetime frame = Some n ->
      ByteBuffer.readInt32 buffer 14 = Ok n).
Proof.
  intros H.
  destruct (parsed_numbers buffer encoders frame H)
    as (H1 & H2 & H3 & H4 & H5 & H6 & H7 & H8 & H9).
  repeat (split; [assumption|]). split; [|repeat split; assumption].
  intros n Hn. split; [exact (H3 n Hn)|].
  exact (readUint64_halves _ _ _ (H3 n Hn)).
Qed.

(** X9 on a REQUEST_N frame, whose requestN 16 is the integer at offset 6,
    and on a KEEPALIVE frame whose last received position is written as
    eight bytes FF: it is read as 2^64, one more than the integer the
    bytes hold. *)
Lemma deserializeFrame_fixed_fields_witness :
  ByteBuffer.readInt32
    (ByteBuffer.wrap [x00; x00; x00; x2a; x20; x00; x00; x00; x00; x10]) 6
  = Ok 16
  /\ deserializeFrame
       (ByteBuffer.wrap [x00; x00; x00; x00; x0c; x00;
                         xff; xff; xff; xff; xff; xff; xff; xff]) None
     = Ok (KeepAliveFrame None 0 (2^64) 0)
  /\ exists high low,
       ByteBuffer.readUint32
         (ByteBuffer.wrap [x00; x00; x00; x00; x0c; x00;
                           xff; xff; xff; xff; xff; xff; xff; xff]) 6
       = Ok high
       /\ ByteBuffer.readUint32
            (ByteBuffer.wrap [x00; x00; x00; x00; x0c; x00;
                              xff; xff; xff; xff; xff; xff; xff; xff]) 10
          = Ok low
       /\ 2^64 = toNumber (high * 2^32 + low).
Proof.
  split; [|split].
  - refine (proj1 (deserializeFrame_fixed_fields
                     (ByteBuffer.wrap
                        [x00; x00; x00; x2a; x20; x00; x00; x00; x00; x10])
                     None (RequestNFrame 0 16 42) _) 16 _); reflexivity.
  - vm_compute. reflexivity.
  - refine (proj2 (proj1 (proj2 (proj2 (deserializeFrame_fixed_fields
                     (ByteBuffer.wrap
                        [x00; x00; x00; x00; x0c; x00;
                         xff; xff; xff; xff; xff; xff; xff; xff])
                     None (KeepAliveFrame None 0 (2^64) 0) _)))
                     (2^64) _)); vm_compute; reflexivity.
Defined.

(** ** More on the stream framer *)

(** A length that [readUint24] returns. *)
Lemma readUint24_range buffer offset n :
  readUint24 buffer offset = Ok n -> 0 <= n < 2^24.
Proof.
  destruct buffer as [store o l]. unfold readUint24. on_store.
  unfold readUint8.
  destruct (readable store offset 1); [|discriminate].
  destruct (readable store (offset + 1) 1); [|discriminate].
  destruct (readable store (offset + 2) 1); [|discriminate].
  cbn [bind]. intros H. injection H as <-.
  pose proof (view_range store offset).
  pose proof (view_range store (offset + 1)).
  pose proof (view_range store (offset + 2)).
  rewrite uint24_bytes by assumption. pow2. lia.
Qed.

(** The loop of [deserializeFrames] only adds frames, each of them read by
    [deserializeFrame] from a slice of the buffer, and it adds none exactly
    when it stops at the offset it starts from. *)
Lemma deserializeFrames_loop_inv (P : Frame -> Prop) buffer encoders :
  (forall start end_ frame,
     deserializeFrame (over start end_ (ByteBuffer.store buffer)) encoders
     = Ok frame -> P frame) ->
  forall fuel frames offset frames' offset',
    deserializeFrames_loop fuel buffer encoders frames offset
    = Ok (frames', offset') ->
    exists more,
      frames' = frames ++ more /\ Forall P more
      /\ (more = [] -> offset' = offset).
Proof.
  intros HP. induction fuel as [|fuel IH];
    intros frames offset frames' offset' H.
  - injection H as <- <-. exists []. rewrite app_nil_r. repeat split.
    constructor.
  - cbn [deserializeFrames_loop] in H.
    assert (Hstop : Ok (frames, offset) = Ok (frames', offset') ->
                    exists more,
                      frames' = frames ++ more /\ Forall P more
                      /\ (more = [] -> offset' = offset)).
    { intros Hok. injection Hok as <- <-. exists [].
      rewrite app_nil_r. repeat split. constructor. }
    destruct (offset + UINT24_SIZE <? ByteBuffer.limit buffer);
      [|exact (Hstop H)].
    destruct (readUint24 buffer offset) as [frameLength|e]; cbn [bind] in H;
      [|discriminate].
    destruct (ByteBuffer.limit buffer
              <? offset + UINT24_SIZE + frameLength); [exact (Hstop H)|].
    destruct (ByteBuffer.slice buffer _ _) as [frameBuffer|e] eqn:Hslice;
      cbn [bind] in H; [|discriminate].
    apply ByteBuffer_slice_inv in Hslice. destruct Hslice as (-> & _).
    destruct (deserializeFrame _ encoders) as [frame|e] eqn:Hframe;
      cbn [bind] in H; [|discriminate].
    apply HP in Hframe.
    destruct (IH _ _ _ _ H) as (more & -> & Hmore & _).
    exists (frame :: more). rewrite <- app_assoc.
    split; [reflexivity|]. split; [constructor; assumption | discriminate].
Qed.

(** Where the loop stops without a frame. *)
Lemma deserializeFrames_loop_stops fuel buffer encoders offset offset' :
  deserializeFrames_loop fuel buffer encoders [] offset = Ok ([], offset') ->
  offset' = offset
  /\ (ByteBuffer.limit buffer <= offset + 3
      \/ (exists frameLength,
            readUint24 buffer offset = Ok frameLength
            /\ ByteBuffer.limit buffer < offset + 3 + frameLength)
      \/ fuel = O).
Proof.
  intros H.
  destruct (deserializeFrames_loop_inv (fun _ => True) buffer encoders
              (fun _ _ _ _ => I) _ _ _ _ _ H) as (more & Hmore & _ & Hsame).
  cbn [app] in Hmore. subst more. split; [apply Hsame; reflexivity|].
  destruct fuel as [|fuel]; [right; right; reflexivity|].
  cbn [deserializeFrames_loop] in H. unfold UINT24_SIZE in H.
  destruct (Z.ltb_spec (offset + 3) (ByteBuffer.limit buffer));
    [|left; lia].
  destruct (readUint24 buffer offset) as [frameLength|e]; cbn [bind] in H;
    [|discriminate].
  destruct (Z.ltb_spec (ByteBuffer.limit buffer) (offset + 3 + frameLength)).
  { right. left. exists frameLength. split; [reflexivity | assumption]. }
  exfalso.
  destruct (ByteBuffer.slice buffer _ _) as [frameBuffer|e];
    cbn [bind] in H; [|discriminate].
  destruct (deserializeFrame _ encoders) as [frame|e];
    cbn [bind] in H; [|discriminate].
  destruct (deserializeFrames_loop_inv (fun _ => True) buffer encoders
              (fun _ _ _ _ => I) _ _ _ _ _ H) as (more & Hmore & _).
  cbn [app] in Hmore. discriminate Hmore.
Qed.

(** X10.  [deserializeFrames] returns no frame exactly when the buffer does
    not start with a complete frame (its limit is at most three, or its
    length prefix announces more bytes than the limit allows) and its limit
    lies within its capacity; the leftover is then the slice of the buffer
    from offset 0 to the limit. *)
Theorem deserializeFrames_no_frame (buffer leftover : ByteBuffer.t)
    (encoders : option Encoders.t) :
  deserializeFrames buffer encoders = Ok ([], leftover)
  <-> incomplete buffer
      /\ ByteBuffer.slice buffer 0 (ByteBuffer.limit buffer) = Ok leftover.
Proof.
  unfold deserializeFrames, incomplete. split.
  - intros H.
    destruct (deserializeFrames_loop _ buffer encoders [] 0)
      as [[frames offset]|e] eqn:Hloop; cbn [bind] in H; [|discriminate].
    destruct (ByteBuffer.slice buffer offset _) as [window|e] eqn:Hslice;
      cbn [bind] in H; [|discriminate].
    injection H as -> ->.
    apply deserializeFrames_loop_stops in Hloop.
    destruct Hloop as (-> & Hstop). split; [|assumption].
    destruct Hstop as [Hshort | [(frameLength & Hread & Hlong) | Hfuel]].
    + left. lia.
    + right. exists frameLength. split; [assumption | lia].
    + left. lia.
  - intros [Hincomplete Hslice].
    assert (Hloop : deserializeFrames_loop
                      (Z.to_nat (ByteBuffer.limit buffer)) buffer encoders
                      [] 0 = Ok ([], 0)).
    { destruct (Z.to_nat (ByteBuffer.limit buffer)) as [|fuel];
        [reflexivity|].
      cbn [deserializeFrames_loop]. unfold UINT24_SIZE.
      destruct (Z.ltb_spec (0 + 3) (ByteBuffer.limit buffer));
        [|reflexivity].
      destruct Hincomplete as [Hshort | (frameLength & Hread & Hlong)];
        [lia|].
      rewrite Hread. cbn [bind].
      replace (ByteBuffer.limit buffer <? 0 + 3 + frameLength) with true
        by lia.
      reflexivity. }
    rewrite Hloop. cbn [bind]. rewrite Hslice. reflexivity.
Qed.

(** X10 on five bytes whose prefix announces a frame of six. *)
Lemma deserializeFrames_no_frame_witness :
  deserializeFrames (ByteBuffer.wrap [x00; x00; x06; x00; x00]) None
  = Ok ([], ByteBuffer.wrap [x00; x00; x06; x00; x00]).
Proof.
  apply (deserializeFrames_no_frame
           (ByteBuffer.wrap [x00; x00; x06; x00; x00])
           (ByteBuffer.wrap [x00; x00; x06; x00; x00]) None).
  split; [|reflexivity].
  right. exists 6. split; [reflexivity | vm_compute; reflexivity].
Defined.

(** X11.  [deserializeFrames] copies nothing: the leftover it returns
    shares the bytes of the buffer and has its limit, and every frame it
    returns was read by [deserializeFrame] from a slice that shares them
    too.  As the readers count their offsets from the first byte of the
    bytes shared, every frame returned carries one and the same header:
    the stream id, the type and the flags found in the first six bytes of
    the buffer. *)
Theorem deserializeFrames_reads_one_header (buffer leftover : ByteBuffer.t)
    (encoders : option Encoders.t) (frames : list Frame) :
  deserializeFrames buffer encoders = Ok (frames, leftover) ->
  ByteBuffer.store leftover = ByteBuffer.store buffer
  /\ ByteBuffer.limit leftover = ByteBuffer.limit buffer
  /\ Forall (fun frame =>
               exists typeAndFlags,
                 ByteBuffer.readInt32 buffer 0 = Ok (Field.streamId frame)
                 /\ ByteBuffer.readUint16 buffer 4 = Ok typeAndFlags
                 /\ Field.type frame
                    = js_shru typeAndFlags FRAME_TYPE_OFFFSET
                 /\ Field.flags frame = js_and typeAndFlags FLAGS_MASK)
       frames.
Proof.
  unfold deserializeFrames. intros H.
  destruct (deserializeFrames_loop _ buffer encoders [] 0)
    as [[frames' offset]|e] eqn:Hloop; cbn [bind] in H; [|discriminate].
  destruct (ByteBuffer.slice buffer offset _) as [window|e] eqn:Hslice;
    cbn [bind] in H; [|discriminate].
  injection H as -> ->.
  apply ByteBuffer_slice_inv in Hslice. destruct Hslice as (-> & _).
  split; [reflexivity|]. split; [reflexivity|].
  eapply deserializeFrames_loop_inv in Hloop.
  - destruct Hloop as (more & -> & Hmore & _). exact Hmore.
  - intros start end_ frame Hframe. apply parsed_header in Hframe.
    exact Hframe.
Qed.

(** X11 on the length-prefixed CANCEL frame of stream 0x240000 followed by
    the length-prefixed REQUEST_N frame of stream 1 (requestN 1): two
    CANCEL frames of stream 1536 come back, 1536 being the length 6 of the
    first frame followed by the first byte of its stream id, and the type
    CANCEL being found in the next two bytes of that stream id. *)
Lemma deserializeFrames_reads_one_header_witness :
  let buffer :=
    ByteBuffer.wrap
      [x00; x00; x06; x00; x24; x00; x00; x24; x00;
       x00; x00; x0a; x00; x00; x00; x01; x20; x00; x00; x00; x00; x01] in
  deserializeFrames buffer None
  = Ok ([CancelFrame 0 1536; CancelFrame 0 1536],
        {| ByteBuffer.store := ByteBuffer.store buffer;
           ByteBuffer.offset := 22; ByteBuffer.limit := 22 |})
  /\ Forall (fun frame =>
               exists typeAndFlags,
                 ByteBuffer.readInt32 buffer 0 = Ok (Field.streamId frame)
                 /\ ByteBuffer.readUint16 buffer 4 = Ok typeAndFlags
                 /\ Field.type frame
                    = js_shru typeAndFlags FRAME_TYPE_OFFFSET
                 /\ Field.flags frame = js_and typeAndFlags FLAGS_MASK)
       [CancelFrame 0 1536; CancelFrame 0 1536].
Proof.
  intros buffer.
  assert (Hrun : deserializeFrames buffer None
                 = Ok ([CancelFrame 0 1536; CancelFrame 0 1536],
                       {| ByteBuffer.store := ByteBuffer.store buffer;
                          ByteBuffer.offset := 22;
                          ByteBuffer.limit := 22 |}))
    by (vm_compute; reflexivity).
  split; [exact Hrun|].
  exact (proj2 (proj2 (deserializeFrames_reads_one_header _ _ _ _ Hrun))).
Defined.

(** ** Frames with their length *)

(** The stream id that [deserializeFrame] found and checked. *)
Lemma parsed_stream_id buffer encoders frame :
  deserializeFrame buffer encoders = Ok frame ->
  ByteBuffer.readInt32 buffer 0 = Ok (Field.streamId frame)
  /\ 0 <= Field.streamId frame.
Proof.
  intros H. pose proof (parsed_header _ _ _ H) as (word & Hsid & _).
  split; [assumption|].
  unfold deserializeFrame in H. rewrite Hsid in H. cbn [bind] in H.
  destruct (Z.leb_spec 0 (Field.streamId frame)); [assumption|].
  discriminate H.
Qed.

(** X14.  [deserializeFrameWithLength] reads the header of the frame from
    the first six bytes of the buffer, the first three of which are the
    length prefix: the stream id of the frame it returns is 256 times the
    frame length plus the byte that follows the prefix, and the length is
    below 2^23. *)
Theorem deserializeFrameWithLength_reads_prefix_as_header
    (buffer : ByteBuffer.t) (encoders : option Encoders.t) (frame : Frame) :
  deserializeFrameWithLength buffer encoders = Ok frame ->
  exists frameLength,
    readUint24 buffer 0 = Ok frameLength
    /\ UINT24_SIZE + frameLength <= ByteBuffer.capacity buffer
    /\ ByteBuffer.readInt32 buffer 0 = Ok (Field.streamId frame)
    /\ Field.streamId frame
       = frameLength * 2^8 + view (ByteBuffer.store buffer) 3
    /\ frameLength < 2^23.
Proof.
  unfold deserializeFrameWithLength. intros H.
  destruct (readUint24 buffer 0) as [frameLength|e] eqn:Hread;
    cbn [bind] in H; [|discriminate].
  destruct (ByteBuffer.slice buffer _ _) as [frameBuffer|e] eqn:Hslice;
    cbn [bind] in H; [|discriminate].
  apply ByteBuffer_slice_inv in Hslice.
  destruct Hslice as (-> & _ & Hend).
  apply parsed_stream_id in H. destruct H as [Hsid Hpos].
  exists frameLength. split; [reflexivity|]. split; [assumption|].
  destruct buffer as [store o l]. on_store.
  split; [assumption|].
  destruct store as [|b0 [|b1 [|b2 [|b3 rest]]]];
    try (apply readInt32_readable in Hsid; unfold readable in Hsid;
         rewrite ?size_cons, ?size_nil in Hsid; lia).
  rewrite readUint24_head in Hread. injection Hread as <-.
  rewrite readInt32_head in Hsid. injection Hsid as Hsid.
  change (view (b0 :: b1 :: b2 :: b3 :: rest) 3) with (Z_of_byte b3).
  pose proof (Z_of_byte_range b0). pose proof (Z_of_byte_range b1).
  pose proof (Z_of_byte_range b2). pose proof (Z_of_byte_range b3).
  rewrite <- Hsid in Hpos |- *. unfold ToInt32 in *.
  split; euclid.
Qed.

(** X14 on the nine bytes 00 00 06 00 24 00 00 00 00: the length prefix 6
    and the byte 00 make the stream id 1536, and the next two bytes a
    CANCEL header. *)
Lemma deserializeFrameWithLength_reads_prefix_as_header_witness :
  let buffer :=
    ByteBuffer.wrap [x00; x00; x06; x00; x24; x00; x00; x00; x00] in
  deserializeFrameWithLength buffer None = Ok (CancelFrame 0 1536)
  /\ exists frameLength,
       readUint24 buffer 0 = Ok frameLength
       /\ UINT24_SIZE + frameLength <= ByteBuffer.capacity buffer
       /\ ByteBuffer.readInt32 buffer 0 = Ok 1536
       /\ 1536 = frameLength * 2^8 + view (ByteBuffer.store buffer) 3
       /\ frameLength < 2^23.
Proof.
  intros buffer.
  assert (Hrun : deserializeFrameWithLength buffer None
                 = Ok (CancelFrame 0 1536)) by reflexivity.
  split; [exact Hrun|].
  exact (deserializeFrameWithLength_reads_prefix_as_header _ _ _ Hrun).
Defined.

(** X15.  [serializeFrameWithLength] fails exactly as [serializeFrame]
    does; when [serializeFrame] returns a buffer whose limit lies within
    its capacity, the result holds the limit as a 24-bit big-endian
    integer followed by the bytes of that buffer in front of its limit,
    and is three bytes longer.  A limit of 2^24 or more is stored modulo
    2^24.  A buffer whose limit lies past its capacity cannot be copied:
    the result is a range error.  The limit does lie within the capacity
    when the encoders write what they announce: the result is then the
    layout of the frame behind its length. *)
Theorem serializeFrameWithLength_layout (frame : Frame)
    (encoders : option Encoders.t) :
  match serializeFrame frame encoders with
  | Ok buffer =>
      (0 <= ByteBuffer.limit buffer <= ByteBuffer.capacity buffer ->
       let bytes :=
         firstn (Z.to_nat (ByteBuffer.limit buffer))
           (ByteBuffer.store buffer) in
       let lengthPrefixed := ByteBuffer.wrap (be24 (size bytes) ++ bytes) in
       size bytes = ByteBuffer.limit buffer
       /\ serializeFrameWithLength frame encoders = Ok lengthPrefixed
       /\ readUint24 lengthPrefixed 0 = Ok (size bytes mod 2^24)
       /\ ByteBuffer.limit lengthPrefixed = size bytes + UINT24_SIZE)
      /\ (ByteBuffer.capacity buffer < ByteBuffer.limit buffer ->
          serializeFrameWithLength frame encoders = Throw RangeError)
  | Throw e => serializeFrameWithLength frame encoders = Throw e
  end
  /\ (forall w,
        supported frame -> Encoded (orUtf8Encoders encoders) frame w ->
        serializeFrame frame encoders
        = Ok (ByteBuffer.wrap (frameBytes frame w))
        /\ serializeFrameWithLength frame encoders
           = Ok (ByteBuffer.wrap (lengthPrefixed (frameBytes frame w)))).
Proof.
  split.
  - destruct (serializeFrame frame encoders) as [buffer|e] eqn:Hser.
    + split;
        [|apply serializeFrameWithLength_past_capacity; assumption].
      intros Hmarks bytes prefixed.
      pose proof (size_firstn_limit buffer Hmarks) as Hsize.
      fold bytes in Hsize. split; [exact Hsize|]. split; [|split].
      * subst prefixed. rewrite Hsize.
        apply serializeFrameWithLength_marked; assumption.
      * subst prefixed. unfold ByteBuffer.wrap. apply readUint24_be24.
      * subst prefixed. unfold ByteBuffer.wrap. cbn [ByteBuffer.limit].
        rewrite size_app, size_be24. unfold UINT24_SIZE. lia.
    + unfold serializeFrameWithLength. rewrite Hser. reflexivity.
  - intros w Hsupported Hencoded.
    pose proof (serializeFrame_bytes frame encoders w Hsupported Hencoded)
      as Hser.
    split; [exact Hser|]. apply serializeFrameWithLength_bytes. exact Hser.
Qed.

(** X15 on the CANCEL frame of stream 7. *)
Lemma serializeFrameWithLength_layout_witness :
  serializeFrame (CancelFrame 0 7) None
  = Ok (ByteBuffer.wrap [x00; x00; x00; x07; x24; x00])
  /\ serializeFrameWithLength (CancelFrame 0 7) None
     = Ok (ByteBuffer.wrap [x00; x00; x06; x00; x00; x00; x07; x24; x00]).
Proof.
  pose (w := {| Wire.data := []; Wire.dataMimeType := []; Wire.message := [];
                Wire.metadata := []; Wire.metadataMimeType := [];
                Wire.resumeToken := [] |}).
  apply (proj2 (serializeFrameWithLength_layout (CancelFrame 0 7) None) w).
  - exact I.
  - repeat split; reflexivity.
Defined.



(** ** The two encoders in a buffer *)

Lemma firstn_exact {A : Type} (pre rest : list A) n :
  n = length pre -> firstn n (pre ++ rest) = pre.
Proof.
  intros ->. rewrite firstn_app, Nat.sub_diag, firstn_all. cbn [firstn].
  apply app_nil_r.
Qed.

(** After a write the bytes written are found at the offset, and the bytes
    in front of it are as they were. *)
Lemma write_then_slice store offset bs store' :
  write store offset bs = Ok store' ->
  slice store' offset (offset + size bs) = Ok bs
  /\ firstn (Z.to_nat offset) store' = firstn (Z.to_nat offset) store.
Proof.
  intros Hwrite.
  assert (Hw : writable store offset = true)
    by (unfold write in Hwrite; destruct (writable store offset);
        [reflexivity | discriminate]).
  rewrite (write_result store offset bs Hw) in Hwrite.
  injection Hwrite as <-. unfold writable in Hw.
  pose proof (size_nonneg bs).
  assert (Hpre : size (firstn (Z.to_nat offset) store) = offset)
    by (unfold size; rewrite length_firstn; unfold size in Hw; lia).
  split.
  - rewrite slice_skip by lia. rewrite Hpre, Z.sub_diag.
    apply slice_head. lia.
  - apply firstn_exact. unfold size in Hpre. lia.
Qed.

(** X17.  What [decode] makes of what [encode] has stored, for the two
    standard encoders.  After a value (a string of Unicode code points, or
    a buffer with its marks in order) has been encoded at an offset of a
    target, the bytes of the target between that offset and the offset
    that [encode] returned are the bytes of the value, and the bytes in
    front of them are as they were.  The UTF-8 encoder decodes them to the
    string.  The buffer encoder does not give a buffer of these bytes
    alone: it gives a slice of the target, which shares all the bytes of
    the target and has the two offsets as its offset and its limit; so the
    byteLength of the decoded value is the end offset, not the number of
    bytes. *)
Theorem encode_then_decode (encoder : Encoder.t) (value : Encodable)
    (buffer buffer' : ByteBuffer.t) (offset offset' : Z) :
  encoder = UTF8Encoder \/ encoder = BufferEncoder ->
  (forall str, value = EString str -> codePoints str) ->
  (forall b, value = EByteBuffer b -> marked b) ->
  Encoder.encode encoder value buffer offset = Ok (buffer', offset') ->
  slice (ByteBuffer.store buffer') offset offset'
  = Ok (standardBytes (Some value))
  /\ firstn (Z.to_nat offset) (ByteBuffer.store buffer')
     = firstn (Z.to_nat offset) (ByteBuffer.store buffer)
  /\ (encoder = UTF8Encoder ->
      Encoder.decode encoder buffer' offset offset' = Ok value)
  /\ (encoder = BufferEncoder ->
      let decoded :=
        {| ByteBuffer.store := ByteBuffer.store buffer';
           ByteBuffer.offset := offset; ByteBuffer.limit := offset' |} in
      Encoder.decode encoder buffer' offset offset' = Ok (EByteBuffer decoded)
      /\ Encoder.byteLength encoder (EByteBuffer decoded) = Ok offset').
Proof.
  intros Hencoder Hvalid Hmarked Hencode.
  assert (Hbytes : Encodes encoder value (standardBytes (Some value))).
  { destruct Hencoder as [-> | ->].
    - destruct value as [str| |]; try discriminate.
      apply UTF8Encoder_Encodes.
    - destruct value as [|b|]; try discriminate.
      apply BufferEncoder_Encodes.
      destruct (Hmarked b eq_refl). lia. }
  pose proof Hencode as Hkind.
  destruct Hbytes as [_ Henc]. rewrite Henc in Hencode.
  unfold ByteBuffer.write in Hencode.
  destruct (write (ByteBuffer.store buffer) offset _) as [written|e]
    eqn:Hwrite; cbn [bind] in Hencode; [|discriminate].
  injection Hencode as <- <-. cbn [ByteBuffer.with_store ByteBuffer.store].
  destruct (write_then_slice _ _ _ _ Hwrite) as [Hslice Hfront].
  split; [assumption|]. split; [assumption|]. split.
  - intros ->. destruct value as [str| |]; try discriminate Hkind.
    apply (UTF8Encoder_reads_back str (Hvalid str eq_refl)).
    cbn [ByteBuffer.with_store ByteBuffer.store]. exact Hslice.
  - intros ->. split; [|reflexivity].
    cbn [Encoder.decode BufferEncoder].
    unfold ByteBuffer.slice, ByteBuffer.capacity, ByteBuffer.with_store.
    cbn [ByteBuffer.store].
    unfold slice in Hslice. cbn [standardBytes] in Hslice.
    match type of Hslice with
    | (if ?c then _ else _) = _ => destruct c; [|discriminate]
    end.
    reflexivity.
Qed.

(** X17 on the string "h", e-acute, euro sign, and on the buffer of the
    bytes 01 02 03, each encoded at offset 1 of an eight-byte target: the
    string comes back; in place of the buffer comes a slice of the target
    with offset 1 and limit 4. *)
Lemma encode_then_decode_witness :
  Encoder.decode UTF8Encoder
    (ByteBuffer.wrap [x2a; x68; xc3; xa9; xe2; x82; xac; x00]) 1 7
  = Ok (EString [0x68; 0xE9; 0x20AC])
  /\ Encoder.decode BufferEncoder
       (ByteBuffer.wrap [x2a; x01; x02; x03; x00; x00; x00; x00]) 1 4
     = Ok (EByteBuffer
             {| ByteBuffer.store :=
                  [x2a; x01; x02; x03; x00; x00; x00; x00];
                ByteBuffer.offset := 1; ByteBuffer.limit := 4 |}).
Proof.
  split.
  - refine (proj1 (proj2 (proj2
              (encode_then_decode UTF8Encoder
                 (EString [0x68; 0xE9; 0x20AC])
                 (ByteBuffer.wrap ([x2a] ++ repeat x00 7))
                 (ByteBuffer.wrap [x2a; x68; xc3; xa9; xe2; x82; xac; x00])
                 1 7 _ _ _ _))) eq_refl).
    + left. reflexivity.
    + intros str Hstr. injection Hstr as <-.
      repeat constructor; vm_compute; intuition discriminate.
    + intros b Hb. discriminate Hb.
    + reflexivity.
  - refine (proj1 (proj2 (proj2 (proj2
              (encode_then_decode BufferEncoder
                 (EByteBuffer (ByteBuffer.wrap [x01; x02; x03]))
                 (ByteBuffer.wrap ([x2a] ++ repeat x00 7))
                 (ByteBuffer.wrap [x2a; x01; x02; x03; x00; x00; x00; x00])
                 1 4 _ _ _ _))) eq_refl)).
    + right. reflexivity.
    + intros str Hstr. discriminate Hstr.
    + intros b Hb. injection Hb as <-. vm_compute. intuition discriminate.
    + reflexivity.
Defined.

(** ** What the writers refuse *)

Lemma standard_encoders encoders :
  standard encoders ->
  standardEncoder (Encoders.data (orUtf8Encoders encoders))
  /\ standardEncoder (Encoders.dataMimeType (orUtf8Encoders encoders))
  /\ standardEncoder (Encoders.message (orUtf8Encoders encoders))
  /\ standardEncoder (Encoders.metadata (orUtf8Encoders encoders))
  /\ standardEncoder (Encoders.metadataMimeType (orUtf8Encoders encoders))
  /\ standardEncoder (Encoders.resumeToken (orUtf8Encoders encoders)).
Proof.
  intros [-> | [-> | ->]]; repeat split;
    first [left; reflexivity | right; reflexivity].
Qed.

Lemma accepts_EncodesOpt encoder value :
  standardEncoder encoder -> markedValue value -> accepts encoder value ->
  exists bs, EncodesOpt encoder value bs.
Proof.
  intros [-> | ->] Hmarked Hacc; destruct value as [[str|b|a]|];
    cbn [accepts Encoder.byteLength UTF8Encoder BufferEncoder] in Hacc;
    try (destruct Hacc as (n & Hn); discriminate).
  - exists (encodeUTF8 str). apply UTF8Encoder_Encodes.
  - exists []. reflexivity.
  - eexists. apply BufferEncoder_Encodes.
    destruct Hmarked. lia.
  - exists []. reflexivity.
Qed.

Lemma optLength_cases encoder value :
  standardEncoder encoder ->
  match value with
  | Some v => Encoder.byteLength encoder v
  | None => Ok 0
  end = Throw InvariantViolation
  \/ (accepts encoder value
      /\ exists n, match value with
                   | Some v => Encoder.byteLength encoder v
                   | None => Ok 0
                   end = Ok n).
Proof.
  intros [-> | ->]; destruct value as [[str|b|a]|];
    cbn [accepts Encoder.byteLength UTF8Encoder BufferEncoder];
    first [left; reflexivity | right; eauto].
Qed.

Lemma getPayloadLength_cases frame encoders :
  standardEncoder (Encoders.data encoders) ->
  standardEncoder (Encoders.metadata encoders) ->
  getPayloadLength frame encoders = Throw InvariantViolation
  \/ (accepts (Encoders.data encoders) (Field.data frame)
      /\ (isMetadata (Field.flags frame) = true ->
          accepts (Encoders.metadata encoders) (Field.metadata frame))).
Proof.
  intros Hdata Hmeta. unfold getPayloadLength.
  destruct (optLength_cases _ (Field.data frame) Hdata)
    as [Hthrow | (Hacc & n & Hn)].
  - left. destruct (Field.data frame); [|discriminate].
    rewrite Hthrow. reflexivity.
  - destruct (isMetadata (Field.flags frame)).
    + destruct (optLength_cases _ (Field.metadata frame) Hmeta)
        as [Hthrow' | (Hacc' & n' & Hn')].
      * left. destruct (Field.data frame) as [data|];
          [rewrite Hn|]; next;
          (destruct (Field.metadata frame); [|discriminate]);
          rewrite Hthrow'; reflexivity.
      * right. split; [assumption | intros _; assumption].
    + right. split; [assumption | discriminate].
Qed.

Ltac accepted :=
  right; repeat split; try assumption; try exact I;
  intros; first [assumption | exact I | auto].

Lemma serializeFrame_refuses frame encoders :
  standard encoders -> supported frame ->
  serializeFrame frame encoders = Throw InvariantViolation
  \/ allAccepted (orUtf8Encoders encoders) frame.
Proof.
  intros Hstandard Hsupported.
  destruct (standard_encoders _ Hstandard)
    as (Hdata & HdataMime & Hmessage & Hmeta & HmetaMime & Htoken).
  set (E := orUtf8Encoders encoders) in *.
  unfold serializeFrame. fold E.
  destruct frame; try contradiction; cbn [Field.type]; decide_types.
  - (* SETUP *)
    unfold serializeSetupFrame.
    cbn [Field.resumeToken Field.metadataMimeType Field.dataMimeType].
    destruct (optLength_cases _ resumeToken Htoken)
      as [-> | (Ha1 & n1 & ->)]; [left; reflexivity|]. next.
    destruct (optLength_cases _ metadataMimeType HmetaMime)
      as [-> | (Ha2 & n2 & ->)]; [left; reflexivity|]. next.
    destruct (optLength_cases _ dataMimeType HdataMime)
      as [-> | (Ha3 & n3 & ->)]; [left; reflexivity|]. next.
    match goal with
    | |- context [getPayloadLength ?f E] =>
        destruct (getPayloadLength_cases f E Hdata Hmeta)
          as [-> | (Ha4 & Ha5)]; [left; reflexivity|]
    end.
    accepted.
  - (* ERROR *)
    unfold serializeErrorFrame. cbn [Field.message].
    destruct (optLength_cases _ message Hmessage)
      as [-> | (Ha1 & n1 & _)]; [left; reflexivity|].
    accepted.
  - (* KEEPALIVE *)
    unfold serializeKeepAliveFrame. cbn [Field.data].
    destruct (optLength_cases _ data Hdata)
      as [-> | (Ha1 & n1 & _)]; [left; reflexivity|].
    accepted.
  - (* LEASE *)
    unfold serializeLeaseFrame. cbn [Field.metadata].
    destruct (optLength_cases _ metadata Hmeta)
      as [-> | (Ha1 & n1 & _)]; [left; reflexivity|].
    accepted.
  - (* REQUEST_FNF *)
    unfold serializeRequestFrame.
    match goal with
    | |- context [getPayloadLength ?f E] =>
        destruct (getPayloadLength_cases f E Hdata Hmeta)
          as [-> | (Ha4 & Ha5)]; [left; reflexivity|]
    end.
    accepted.
  - (* REQUEST_RESPONSE *)
    unfold serializeRequestFrame.
    match goal with
    | |- context [getPayloadLength ?f E] =>
        destruct (getPayloadLength_cases f E Hdata Hmeta)
          as [-> | (Ha4 & Ha5)]; [left; reflexivity|]
    end.
    accepted.
  - (* REQUEST_STREAM *)
    unfold serializeRequestManyFrame.
    match goal with
    | |- context [getPayloadLength ?f E] =>
        destruct (getPayloadLength_cases f E Hdata Hmeta)
          as [-> | (Ha4 & Ha5)]; [left; reflexivity|]
    end.
    accepted.
  - (* REQUEST_CHANNEL *)
    unfold serializeRequestManyFrame.
    match goal with
    | |- context [getPayloadLength ?f E] =>
        destruct (getPayloadLength_cases f E Hdata Hmeta)
          as [-> | (Ha4 & Ha5)]; [left; reflexivity|]
    end.
    accepted.
  - (* REQUEST_N *)
    accepted.
  - (* CANCEL *)
    accepted.
  - (* PAYLOAD *)
    unfold serializePayloadFrame.
    match goal with
    | |- context [getPayloadLength ?f E] =>
        destruct (getPayloadLength_cases f E Hdata Hmeta)
          as [-> | (Ha4 & Ha5)]; [left; reflexivity|]
    end.
    accepted.
Qed.

Lemma allAccepted_Encoded frame encoders :
  standard encoders -> markedFrame frame ->
  allAccepted (orUtf8Encoders encoders) frame ->
  exists w, Encoded (orUtf8Encoders encoders) frame w.
Proof.
  intros Hstandard (Hm1 & Hm2 & Hm3 & Hm4 & Hm5 & Hm6)
    (Ha1 & Ha2 & Ha3 & Ha4 & Ha5 & Ha6).
  destruct (standard_encoders _ Hstandard)
    as (Hdata & HdataMime & Hmessage & Hmeta & HmetaMime & Htoken).
  destruct (accepts_EncodesOpt _ _ Hdata Hm1 Ha1) as (b1 & H1).
  destruct (accepts_EncodesOpt _ _ HdataMime Hm2 Ha2) as (b2 & H2).
  destruct (accepts_EncodesOpt _ _ Hmessage Hm3 Ha3) as (b3 & H3).
  destruct (accepts_EncodesOpt _ _ HmetaMime Hm5 Ha5) as (b5 & H5).
  destruct (accepts_EncodesOpt _ _ Htoken Hm6 Ha6) as (b6 & H6).
  destruct (metadataWritten frame) eqn:Hwritten.
  - destruct (accepts_EncodesOpt _ _ Hmeta Hm4 (Ha4 eq_refl)) as (b4 & H4).
    exists {| Wire.data := b1; Wire.dataMimeType := b2; Wire.message := b3;
              Wire.metadata := b4; Wire.metadataMimeType := b5;
              Wire.resumeToken := b6 |}.
    exact (conj H1 (conj H2 (conj H3 (conj (fun _ => H4) (conj H5 H6))))).
  - exists {| Wire.data := b1; Wire.dataMimeType := b2; Wire.message := b3;
              Wire.metadata := []; Wire.metadataMimeType := b5;
              Wire.resumeToken := b6 |}.
    refine (conj H1 (conj H2 (conj H3 (conj _ (conj H5 H6))))).
    rewrite Hwritten. discriminate.
Qed.

(** X18.  With the default encoders or one of the two standard encoder
    sets, [serializeFrame] on a frame of one of the eleven kinds returns a
    buffer when the encoders accept every encodable field that the writer
    of the frame looks at (the buffers among the fields having their marks
    as the library keeps them: offset and limit in order and within the
    capacity), and throws an invariant violation when one of them is
    refused (a buffer handed to the UTF-8 encoder, a string or a
    [Uint8Array] handed to the buffer encoder). *)
Theorem serializeFrame_standard_encoders (frame : Frame)
    (encoders : option Encoders.t) :
  standard encoders -> supported frame ->
  (allAccepted (orUtf8Encoders encoders) frame -> markedFrame frame ->
   exists buffer, serializeFrame frame encoders = Ok buffer)
  /\ (~ allAccepted (orUtf8Encoders encoders) frame ->
      serializeFrame frame encoders = Throw InvariantViolation).
Proof.
  intros Hstandard Hsupported. split.
  - intros Hacc Hmarked.
    destruct (allAccepted_Encoded _ _ Hstandard Hmarked Hacc) as (w & Hw).
    exists (ByteBuffer.wrap (frameBytes frame w)).
    apply serializeFrame_bytes; assumption.
  - intros Hnot.
    destruct (serializeFrame_refuses frame encoders Hstandard Hsupported)
      as [Hthrow | Hacc]; [assumption | contradiction].
Qed.

(** X18 on two PAYLOAD frames: a buffer under the buffer encoders is
    written, a [Uint8Array] under the buffer encoders is refused. *)
Lemma serializeFrame_standard_encoders_witness :
  (exists buffer,
     serializeFrame
       (PayloadFrame (Some (EByteBuffer (ByteBuffer.wrap [x61]))) 0 None 1)
       (Some BufferEncoders)
     = Ok buffer)
  /\ serializeFrame (PayloadFrame (Some (EUint8Array [x61])) 0 None 1)
       (Some BufferEncoders)
     = Throw InvariantViolation.
Proof.
  split.
  - apply (serializeFrame_standard_encoders
             (PayloadFrame (Some (EByteBuffer (ByteBuffer.wrap [x61]))) 0
                None 1) (Some BufferEncoders)).
    + right. right. reflexivity.
    + exact I.
    + repeat split; try exact I; try discriminate.
      exists 1. reflexivity.
    + repeat split; try exact I; vm_compute; intuition discriminate.
  - apply (serializeFrame_standard_encoders
             (PayloadFrame (Some (EUint8Array [x61])) 0 None 1)
             (Some BufferEncoders)).
    + right. right. reflexivity.
    + exact I.
    + intros ((n & Hn) & _). discriminate.
Defined.

(** ** Round trip under the UTF-8 encoders *)

Lemma utf8_encoders encoders :
  utf8 encoders -> orUtf8Encoders encoders = Utf8Encoders.
Proof. intros [-> | ->]; reflexivity. Qed.

Lemma standard_field value :
  accepts UTF8Encoder value -> wellFormed value ->
  EncodesOpt UTF8Encoder value (standardBytes value)
  /\ (forall v, value = Some v ->
      Decodes UTF8Encoder v (standardBytes value))
  /\ (forall v, value = Some v -> isEmpty v = false ->
      standardBytes value <> []).
Proof.
  intros Hacc Hwell; destruct value as [[str|b|a]|];
    cbn [accepts Encoder.byteLength UTF8Encoder] in Hacc;
    try (destruct Hacc as (n & Hn); discriminate);
    cbn [standardBytes EncodesOpt wellFormed] in *.
  - split; [apply UTF8Encoder_Encodes|]. split.
    + intros v Hv. injection Hv as <-. apply UTF8Encoder_reads_back.
      assumption.
    + intros v Hv Hempty. injection Hv as <-. apply encodeUTF8_nonempty.
      destruct str; [discriminate Hempty | discriminate].
  - split; [reflexivity|]. split; discriminate.
Qed.

Lemma standard_payloadCanonical flags data metadata w :
  Wire.data w = standardBytes data ->
  Wire.metadata w = standardBytes metadata ->
  accepts UTF8Encoder data ->
  (isMetadata flags = true -> accepts UTF8Encoder metadata) ->
  wellFormed data -> wellFormed metadata ->
  (forall v, data = Some v -> isEmpty v = false) ->
  (forall v, metadata = Some v -> isEmpty v = false) ->
  (isMetadata flags = false -> metadata = None) ->
  size (standardBytes metadata) < 2^24 ->
  payloadCanonical Utf8Encoders flags data metadata w.
Proof.
  intros Hwd Hwm Had Ham Hgd Hgm Hnd Hnm Hflag Hlen.
  unfold payloadCanonical. rewrite Hwd, Hwm.
  cbn [Encoders.data Encoders.metadata Utf8Encoders]. split.
  - destruct (standard_field _ Had Hgd) as (_ & Hdec & Hne).
    destruct data as [v|]; [|reflexivity].
    split; [apply Hdec; reflexivity
           | apply (Hne v eq_refl), Hnd; reflexivity].
  - destruct (isMetadata flags); [|apply Hflag; reflexivity].
    split; [assumption|].
    destruct (standard_field _ (Ham eq_refl) Hgm) as (_ & Hdec & Hne).
    destruct metadata as [v|]; [|reflexivity].
    split; [apply Hdec; reflexivity
           | apply (Hne v eq_refl), Hnm; reflexivity].
Qed.

Lemma standard_Encoded frame :
  allAccepted Utf8Encoders frame ->
  wellFormedFrame frame ->
  Encoded Utf8Encoders frame (standardWire frame).
Proof.
  intros (Ha1 & Ha2 & Ha3 & Ha4 & Ha5 & Ha6)
    (Hw1 & Hw2 & Hw3 & Hw4 & Hw5 & Hw6).
  unfold Encoded, standardWire.
  cbn [Wire.data Wire.dataMimeType Wire.message Wire.metadata
       Wire.metadataMimeType Wire.resumeToken
       Encoders.data Encoders.dataMimeType Encoders.message
       Encoders.metadata Encoders.metadataMimeType Encoders.resumeToken
       Utf8Encoders] in *.
  split; [apply standard_field; assumption|].
  split; [apply standard_field; assumption|].
  split; [apply standard_field; assumption|].
  split; [intros Hwritten; apply standard_field; auto|].
  split; apply standard_field; assumption.
Qed.

Lemma standard_Canonical frame :
  checked frame -> normalised frame ->
  allAccepted Utf8Encoders frame ->
  wellFormedFrame frame -> noEmptyPayload frame -> fitsWire frame ->
  Canonical Utf8Encoders frame (standardWire frame).
Proof.
  intros (Hsid & Hflags & Hkind) Hnorm
    (Ha1 & Ha2 & Ha3 & Ha4 & Ha5 & Ha6)
    (Hw1 & Hw2 & Hw3 & Hw4 & Hw5 & Hw6) (Hnd & Hnm)
    (Hf1 & Hf2 & Hf3 & Hf4 & Hf5).
  cbn [Encoders.data Encoders.dataMimeType Encoders.message
       Encoders.metadata Encoders.metadataMimeType Encoders.resumeToken
       Utf8Encoders] in *.
  assert (Hpayload : forall flags data metadata,
             Field.data frame = data -> Field.metadata frame = metadata ->
             metadataWritten frame = isMetadata flags ->
             (isMetadata flags = false -> metadata = None) ->
             payloadCanonical Utf8Encoders flags data metadata
               (standardWire frame)).
  { intros flags data metadata Hd Hm Hwritten Hflag.
    apply standard_payloadCanonical; try assumption; subst data metadata;
      try assumption; try reflexivity.
    intros Hset. apply Ha4. rewrite Hwritten. assumption. }
  assert (Hdecoded : forall value,
             accepts UTF8Encoder value ->
             wellFormed value -> value <> None ->
             decodedField UTF8Encoder value (standardBytes value)).
  { intros value Hacc Hwell Hsome.
    destruct value as [v|]; [|contradiction].
    apply (standard_field _ Hacc Hwell). reflexivity. }
  assert (Htrailing : forall value,
             accepts UTF8Encoder value ->
             wellFormed value ->
             (forall v, value = Some v -> isEmpty v = false) ->
             trailingField UTF8Encoder value (standardBytes value)).
  { intros value Hacc Hwell Hcontent.
    destruct (standard_field _ Hacc Hwell) as (_ & Hdec & Hne).
    destruct value as [v|]; [|reflexivity].
    split; [apply Hdec; reflexivity | apply (Hne v eq_refl), Hcontent;
                                      reflexivity]. }
  unfold Canonical. split; [assumption|]. split; [assumption|].
  destruct frame; try contradiction;
    cbn [Field.data Field.metadata Field.message Field.resumeToken
         Field.dataMimeType Field.metadataMimeType Field.flags
         Field.lastReceivedPosition metadataWritten normalised
         standardWire Wire.data Wire.dataMimeType Wire.message
         Wire.metadata Wire.metadataMimeType Wire.resumeToken
         Encoders.data Encoders.dataMimeType Encoders.message
         Encoders.metadata Encoders.metadataMimeType Encoders.resumeToken
         Utf8Encoders] in *.
  - (* SETUP *)
    destruct Hkind as (? & ? & ? & ? & ?).
    destruct Hnorm as (? & ? & ? & Hflag).
    repeat (split; [first [assumption | apply Hdecoded; assumption]|]).
    apply Hpayload; auto.
  - (* ERROR *)
    split; [assumption|].
    destruct message as [v|]; [|contradiction].
    destruct v as [str| |];
      cbn [accepts Encoder.byteLength UTF8Encoder] in Ha3;
      try (destruct Ha3 as (n & Hn); discriminate).
    cbn [standardBytes wellFormed] in *. split.
    + intros Hnil. destruct str; [reflexivity|].
      exfalso. revert Hnil. apply encodeUTF8_nonempty. discriminate.
    + intros _. apply UTF8Encoder_reads_back. assumption.
  - (* KEEPALIVE *)
    destruct Hkind as (? & ?).
    split; [assumption|].
    split; [split; [assumption | apply Hf5; reflexivity]|].
    apply Htrailing; assumption.
  - (* LEASE *)
    destruct Hkind as (? & ? & ?).
    repeat (split; [assumption|]). apply Htrailing; auto.
  - split; [assumption | apply Hpayload; auto].
  - split; [assumption | apply Hpayload; auto].
  - destruct Hkind as (? & ?).
    split; [assumption|]. split; [assumption | apply Hpayload; auto].
  - destruct Hkind as (? & ?).
    split; [assumption|]. split; [assumption | apply Hpayload; auto].
  - assumption.
  - assumption.
  - split; [assumption | apply Hpayload; auto].
Qed.

(** X19.  Under the UTF-8 encoders, given as such or by default, a frame
    comes back unchanged from [deserializeFrame] after [serializeFrame]
    when it has the form of a parsed frame: numeric fields as the readers
    check them, a last received position below 2^53, optional fields as the
    readers leave them (resume token, MIME types and error message present,
    metadata only under the METADATA flag, no empty data or metadata),
    encodable fields that are strings of Unicode code points, a resume
    token shorter than 2^15 bytes, MIME types shorter than 2^8 bytes and
    metadata shorter than 2^24 bytes. *)
Theorem utf8_encoders_round_trip (frame : Frame)
    (encoders : option Encoders.t) :
  utf8 encoders ->
  checked frame -> normalised frame ->
  allAccepted (orUtf8Encoders encoders) frame ->
  wellFormedFrame frame -> noEmptyPayload frame -> fitsWire frame ->
  exists buffer,
    serializeFrame frame encoders = Ok buffer
    /\ buffer = ByteBuffer.wrap (frameBytes frame (standardWire frame))
    /\ deserializeFrame buffer encoders = Ok frame.
Proof.
  intros Hutf8 Hchecked Hnorm Hacc Hwell Hcontent Hfits.
  pose proof (utf8_encoders _ Hutf8) as Hencoders.
  exists (ByteBuffer.wrap (frameBytes frame (standardWire frame))).
  split; [|split; [reflexivity|]].
  - apply serializeFrame_bytes;
      [|rewrite Hencoders in *; apply standard_Encoded; assumption].
    destruct Hchecked as (_ & _ & Hkind).
    destruct frame; try exact I. contradiction.
  - apply deserializeFrame_bytes. rewrite Hencoders in *.
    apply standard_Canonical; assumption.
Qed.

(** X19 on a SETUP frame under the default encoders, with an empty resume
    token, metadata "m" and data "ab". *)
Lemma utf8_encoders_round_trip_witness :
  let json :=
    EString [0x61; 0x70; 0x70; 0x6c; 0x69; 0x63; 0x61; 0x74; 0x69; 0x6f;
             0x6e; 0x2f; 0x6a; 0x73; 0x6f; 0x6e] in
  let frame :=
    SetupFrame (Some (EString [0x61; 0x62])) (Some json) 0x100 60000
      180000 1 (Some (EString [0x6d])) (Some json) 0
      (Some (EString [])) 0 in
  exists buffer,
    serializeFrame frame None = Ok buffer
    /\ buffer = ByteBuffer.wrap (frameBytes frame (standardWire frame))
    /\ deserializeFrame buffer None = Ok frame.
Proof.
  intros json frame.
  apply (utf8_encoders_round_trip frame None).
  - left. reflexivity.
  - vm_compute. intuition discriminate.
  - vm_compute. intuition discriminate.
  - repeat split; try (intros _); eexists; reflexivity.
  - repeat split; repeat constructor; vm_compute; intuition discriminate.
  - split; intros value Hvalue; injection Hvalue as <-; reflexivity.
  - split; [vm_compute; reflexivity|]. split; [vm_compute; reflexivity|].
    split; [vm_compute; reflexivity|]. split; [vm_compute; reflexivity|].
    intros position Hposition. discriminate Hposition.
Defined.

(** ** Integers at any offset *)

Lemma skipn_exact {A : Type} (pre rest : list A) n :
  n = length pre -> skipn n (pre ++ rest) = rest.
Proof.
  intros ->. rewrite skipn_app, Nat.sub_diag, skipn_all. reflexivity.
Qed.

(** A store cut at an offset and after a number of bytes from there. *)
Lemma store_split (store : Store.t) offset n :
  0 <= offset -> 0 <= n -> offset + n <= size store ->
  exists pre old post,
    store = pre ++ old ++ post /\ size pre = offset /\ size old = n.
Proof.
  intros Hoffset Hn Hfits.
  exists (firstn (Z.to_nat offset) store),
    (firstn (Z.to_nat n) (skipn (Z.to_nat offset) store)),
    (skipn (Z.to_nat n) (skipn (Z.to_nat offset) store)).
  split; [rewrite !firstn_skipn; reflexivity|].
  unfold size in *. rewrite !length_firstn, length_skipn. lia.
Qed.

(** X20.  [readUint24] reads three bytes as one big-endian integer: on a
    buffer that holds three bytes at the offset it returns the first byte
    times 2^16 plus the second times 2^8 plus the third, a number between 0
    and 2^24 - 1 (the shift of the first byte never reaches the sign
    bit). *)
Theorem readUint24_big_endian (buffer : ByteBuffer.t) (offset : Z) :
  0 <= offset -> offset + 3 <= ByteBuffer.capacity buffer ->
  exists value,
    readUint24 buffer offset = Ok value
    /\ value = view (ByteBuffer.store buffer) offset * 2^16
               + view (ByteBuffer.store buffer) (offset + 1) * 2^8
               + view (ByteBuffer.store buffer) (offset + 2)
    /\ 0 <= value < 2^24.
Proof.
  intros Hoffset Hfits. destruct buffer as [store o l]. on_store.
  pose proof (view_range store offset).
  pose proof (view_range store (offset + 1)).
  pose proof (view_range store (offset + 2)).
  eexists. split; [|split; [reflexivity | pow2; lia]].
  unfold readUint24. on_store. unfold readUint8, readable.
  replace ((0 <=? offset) && (offset + 1 <=? size store)) with true by lia.
  replace ((0 <=? offset + 1) && (offset + 1 + 1 <=? size store))
    with true by lia.
  replace ((0 <=? offset + 2) && (offset + 2 + 1 <=? size store))
    with true by lia.
  cbn [bind]. rewrite uint24_bytes by assumption. reflexivity.
Qed.

(** X20 on the bytes 01 02 03 at offset 1. *)
Lemma readUint24_big_endian_witness :
  let buffer := ByteBuffer.wrap [xff; x01; x02; x03] in
  exists value,
    readUint24 buffer 1 = Ok value
    /\ value = view (ByteBuffer.store buffer) 1 * 2^16
               + view (ByteBuffer.store buffer) (1 + 1) * 2^8
               + view (ByteBuffer.store buffer) (1 + 2)
    /\ 0 <= value < 2^24.
Proof.
  apply (readUint24_big_endian (ByteBuffer.wrap [xff; x01; x02; x03]) 1).
  - discriminate.
  - vm_compute. discriminate.
Defined.

(** X21.  [writeUint24] at any offset that leaves room for three bytes
    never fails, and [readUint24] at the same offset then returns the value
    modulo 2^24; the write leaves the capacity of the buffer, its offset
    and limit, and every other byte as they were. *)
Theorem writeUint24_readUint24_at (buffer : ByteBuffer.t) (value offset : Z) :
  0 <= offset -> offset + 3 <= ByteBuffer.capacity buffer ->
  exists buffer',
    writeUint24 buffer value offset = Ok buffer'
    /\ readUint24 buffer' offset = Ok (value mod 2^24)
    /\ ByteBuffer.capacity buffer' = ByteBuffer.capacity buffer
    /\ firstn (Z.to_nat offset) (ByteBuffer.store buffer')
       = firstn (Z.to_nat offset) (ByteBuffer.store buffer)
    /\ skipn (Z.to_nat (offset + 3)) (ByteBuffer.store buffer')
       = skipn (Z.to_nat (offset + 3)) (ByteBuffer.store buffer)
    /\ ByteBuffer.offset buffer' = ByteBuffer.offset buffer
    /\ ByteBuffer.limit buffer' = ByteBuffer.limit buffer.
Proof.
  intros Hoffset Hfits. destruct buffer as [store o l]. on_store.
  destruct (store_split store offset 3)
    as (pre & old & post & -> & Hpre & Hold); try lia.
  destruct old as [|a [|b [|c [|]]]];
    try (unfold size in Hold; cbn [length] in Hold; lia).
  cbn [app]. rewrite writeUint24_over by (symmetry; assumption).
  exists (over o l (pre ++ be24 value ++ post)). split; [reflexivity|].
  split; [rewrite readUint24_skip by lia;
          replace (offset - size pre) with 0 by lia;
          apply readUint24_be24|].
  on_store. split; [rewrite !size_app, !size_cons, size_be24; lia|]. split.
  - rewrite !firstn_exact by (unfold size in *; lia). reflexivity.
  - change (a :: b :: c :: post) with ([a; b; c] ++ post).
    rewrite !app_assoc.
    rewrite !skipn_exact
      by (rewrite length_app, ?length_be24; unfold size in *;
          cbn [length]; lia).
    repeat split.
Qed.

(** X21 on the value 0x1020304 written at offset 2 of six bytes. *)
Lemma writeUint24_readUint24_at_witness :
  let buffer := ByteBuffer.wrap [xff; xff; xff; xff; xff; xff] in
  exists buffer',
    writeUint24 buffer 0x1020304 2 = Ok buffer'
    /\ readUint24 buffer' 2 = Ok (0x1020304 mod 2^24)
    /\ ByteBuffer.capacity buffer' = ByteBuffer.capacity buffer
    /\ firstn (Z.to_nat 2) (ByteBuffer.store buffer')
       = firstn (Z.to_nat 2) (ByteBuffer.store buffer)
    /\ skipn (Z.to_nat (2 + 3)) (ByteBuffer.store buffer')
       = skipn (Z.to_nat (2 + 3)) (ByteBuffer.store buffer)
    /\ ByteBuffer.offset buffer' = ByteBuffer.offset buffer
    /\ ByteBuffer.limit buffer' = ByteBuffer.limit buffer.
Proof.
  apply (writeUint24_readUint24_at
           (ByteBuffer.wrap [xff; xff; xff; xff; xff; xff]) 0x1020304 2).
  - discriminate.
  - vm_compute. discriminate.
Defined.

(** X22.  [writeHeader] on a buffer of at least six bytes never fails and
    returns the offset 6; the stream id, read back as a signed 32-bit
    integer, is the frame's stream id reduced to 32 bits (itself when it is
    in range), and the capacity of the buffer, its offset and limit and
    the bytes after the header are left as they were. *)
Theorem writeHeader_stream_id (frame : Frame) (buffer : ByteBuffer.t) :
  FRAME_HEADER_SIZE <= ByteBuffer.capacity buffer ->
  exists buffer',
    writeHeader frame buffer = Ok (buffer', FRAME_HEADER_SIZE)
    /\ ByteBuffer.readInt32 buffer' 0 = Ok (ToInt32 (Field.streamId frame))
    /\ (- 2^31 <= Field.streamId frame < 2^31 ->
        ByteBuffer.readInt32 buffer' 0 = Ok (Field.streamId frame))
    /\ ByteBuffer.capacity buffer' = ByteBuffer.capacity buffer
    /\ skipn 6 (ByteBuffer.store buffer') = skipn 6 (ByteBuffer.store buffer)
    /\ ByteBuffer.offset buffer' = ByteBuffer.offset buffer
    /\ ByteBuffer.limit buffer' = ByteBuffer.limit buffer.
Proof.
  unfold FRAME_HEADER_SIZE. intros Hlen. destruct buffer as [store o l].
  on_store.
  assert (Hstore : store = firstn 6 store ++ skipn 6 store)
    by (symmetry; apply firstn_skipn).
  assert (Hold : length (firstn 6 store) = 6%nat)
    by (rewrite length_firstn; unfold size in Hlen; lia).
  set (old := firstn 6 store) in *. set (post := skipn 6 store) in *.
  clearbody old post. subst store.
  rewrite (writeHeader_over o l frame _ _ Hold).
  exists (over o l (headerBytes frame ++ post)).
  split; [reflexivity|]. on_store.
  assert (Hread : readInt32 (headerBytes frame ++ post) 0
                  = Ok (ToInt32 (Field.streamId frame))).
  { unfold headerBytes. rewrite <- app_assoc. apply readInt32_be32. }
  split; [assumption|]. split.
  - intros Hrange. rewrite Hread, ToInt32_small by assumption. reflexivity.
  - split.
    + rewrite !size_app, size_headerBytes. unfold size at 2.
      rewrite Hold. reflexivity.
    + rewrite !skipn_exact by (rewrite ?length_headerBytes; lia).
      repeat split.
Qed.

(** X22 on a CANCEL frame whose stream id 2^31 + 7 is out of range. *)
Lemma writeHeader_stream_id_witness :
  let buffer := ByteBuffer.wrap (repeat xff 8) in
  exists buffer',
    writeHeader (CancelFrame 0 (2^31 + 7)) buffer
    = Ok (buffer', FRAME_HEADER_SIZE)
    /\ ByteBuffer.readInt32 buffer' 0 = Ok (ToInt32 (2^31 + 7))
    /\ (- 2^31 <= 2^31 + 7 < 2^31 ->
        ByteBuffer.readInt32 buffer' 0 = Ok (2^31 + 7))
    /\ ByteBuffer.capacity buffer' = ByteBuffer.capacity buffer
    /\ skipn 6 (ByteBuffer.store buffer') = skipn 6 (ByteBuffer.store buffer)
    /\ ByteBuffer.offset buffer' = ByteBuffer.offset buffer
    /\ ByteBuffer.limit buffer' = ByteBuffer.limit buffer.
Proof.
  apply (writeHeader_stream_id (CancelFrame 0 (2^31 + 7))
           (ByteBuffer.wrap (repeat xff 8))).
  vm_compute. discriminate.
Defined.

(** ** Bytes after a frame *)

Lemma view_app buffer extra i :
  0 <= i < size buffer -> view (buffer ++ extra) i = view buffer i.
Proof.
  intros Hi. unfold view. rewrite app_nth1 by (unfold size in Hi; lia).
  reflexivity.
Qed.

Lemma readUint16_app buffer extra offset value :
  readUint16 buffer offset = Ok value ->
  readUint16 (buffer ++ extra) offset = Ok value.
Proof.
  unfold readUint16, readable. rewrite size_app.
  pose proof (size_nonneg extra).
  destruct (Z.leb_spec 0 offset), (Z.leb_spec (offset + 2) (size buffer));
    cbn [andb]; try discriminate.
  replace (offset + 2 <=? size buffer + size extra) with true by lia.
  rewrite !view_app by lia. exact (fun H => H).
Qed.

Lemma readUint32_app buffer extra offset value :
  readUint32 buffer offset = Ok value ->
  readUint32 (buffer ++ extra) offset = Ok value.
Proof.
  unfold readUint32, readable. rewrite size_app.
  pose proof (size_nonneg extra).
  destruct (Z.leb_spec 0 offset), (Z.leb_spec (offset + 4) (size buffer));
    cbn [andb]; try discriminate.
  replace (offset + 4 <=? size buffer + size extra) with true by lia.
  rewrite !view_app by lia. exact (fun H => H).
Qed.

Lemma readInt32_app buffer extra offset value :
  readInt32 buffer offset = Ok value ->
  readInt32 (buffer ++ extra) offset = Ok value.
Proof.
  unfold readInt32. intros H.
  destruct (readUint32 buffer offset) as [u|e] eqn:Hu; [|discriminate].
  rewrite (readUint32_app _ extra _ _ Hu). exact H.
Qed.

(** X23.  The readers of CANCEL and REQUEST_N frames look neither at the
    size of the buffer nor at its offset and limit: when [deserializeFrame]
    returns such a frame, it returns the same frame on every buffer that
    holds the same bytes followed by any others. *)
Theorem fixed_size_frames_ignore_trailing_bytes (buffer buffer' : ByteBuffer.t)
    (extra : list byte) (encoders : option Encoders.t) (frame : Frame) :
  deserializeFrame buffer encoders = Ok frame ->
  Field.type frame = FRAME_TYPES.CANCEL
  \/ Field.type frame = FRAME_TYPES.REQUEST_N ->
  ByteBuffer.store buffer' = ByteBuffer.store buffer ++ extra ->
  deserializeFrame buffer' encoders = Ok frame.
Proof.
  intros H Htype Hstore.
  destruct (parsed_header _ _ _ H)
    as (typeAndFlags & Hsid & Hword & Hkind & Hflags).
  destruct buffer as [store o l], buffer' as [store' o' l'].
  cbn [ByteBuffer.store] in Hstore. subst store'.
  unfold deserializeFrame in *. on_store.
  rewrite (readInt32_app _ extra _ _ Hsid). rewrite Hsid in H.
  cbn [bind] in *. change (0 + 4) with 4 in *.
  destruct (0 <=? Field.streamId frame); cbn [invariant bind] in *;
    [|discriminate].
  rewrite (readUint16_app _ extra _ _ Hword). rewrite Hword in H.
  cbn [bind] in *. rewrite <- Hkind in *.
  destruct Htype as [Htype | Htype]; rewrite Htype in *; revert H;
    decide_types.
  - exact (fun H => H).
  - unfold deserializeRequestNFrame. on_store. intros H. ok_inv H.
    match goal with
    | E : readInt32 store _ = Ok _ |- _ =>
        rewrite (readInt32_app _ extra _ _ E)
    end.
    cbn [bind]. rewrite Hcheck0. exact H.
Qed.

(** X23 on a CANCEL frame of stream 7 followed by two bytes. *)
Lemma fixed_size_frames_ignore_trailing_bytes_witness :
  deserializeFrame
    (ByteBuffer.wrap ([x00; x00; x00; x07; x24; x00] ++ [xde; xad])) None
  = Ok (CancelFrame 0 7).
Proof.
  apply (fixed_size_frames_ignore_trailing_bytes
           (ByteBuffer.wrap [x00; x00; x00; x07; x24; x00])
           (ByteBuffer.wrap ([x00; x00; x00; x07; x24; x00] ++ [xde; xad]))
           [xde; xad] None (CancelFrame 0 7)).
  - reflexivity.
  - left. reflexivity.
  - reflexivity.
Defined.

(** ** The JSON serializer *)

(** X25.  [JsonSerializer.deserialize] gives the same result for a string,
    for a buffer that holds the UTF-8 form of the string and for a
    [Uint8Array] that holds it: what [JSON.parse] makes of the string.
    [null] stays [null], without a call of [JSON.parse]. *)
Theorem JsonSerializer_deserialize_utf8 (Json : Type)
    (JSON_parse : JSString -> Json) (str : JSString) :
  codePoints str ->
  JsonSerializer_deserialize Json JSON_parse (Some (EString str))
  = Ok (Some (JSON_parse str))
  /\ JsonSerializer_deserialize Json JSON_parse
       (Some (EByteBuffer (ByteBuffer.wrap (encodeUTF8 str))))
     = Ok (Some (JSON_parse str))
  /\ JsonSerializer_deserialize Json JSON_parse
       (Some (EUint8Array (encodeUTF8 str)))
     = Ok (Some (JSON_parse str))
  /\ JsonSerializer_deserialize Json JSON_parse None = Ok None.
Proof.
  intros Hstr.
  pose proof (decodeUTF8_encodeUTF8 str Hstr) as Hdecode.
  pose proof (size_nonneg (encodeUTF8 str)).
  unfold JsonSerializer_deserialize, ByteBuffer.toUTF8, ByteBuffer.wrap.
  cbn [ByteBuffer.store ByteBuffer.offset ByteBuffer.limit].
  rewrite <- (app_nil_r (encodeUTF8 str)) at 1 3.
  rewrite slice_head by lia. cbn [bind]. rewrite Hdecode. repeat split.
Qed.

(** X25 on the two bytes of the text of an empty JSON object, with the
    identity in the place of [JSON.parse]. *)
Lemma JsonSerializer_deserialize_utf8_witness :
  JsonSerializer_deserialize JSString (fun str => str)
    (Some (EByteBuffer (ByteBuffer.wrap [x7b; x7d])))
  = Ok (Some [0x7b; 0x7d]).
Proof.
  refine (proj1 (proj2 (JsonSerializer_deserialize_utf8 JSString
                          (fun str => str) [0x7b; 0x7d] _))).
  repeat constructor; vm_compute; intuition discriminate.
Defined.
